(** * screenum: the per-session engine of [services/gemini_client.py] and
    [services/session_service.py], embedded in Rocq.

    The Python objects that the code shares between the session stores and
    the running coroutines (tasks, queues, statistics dictionaries, dialogue
    connections, WebRTC managers) live in heaps indexed by object identity;
    the nine dictionaries of [SessionStores] map a session id to such an
    identity.  Calls into aiortc, google-genai and Redis are external: their
    outcome (normal return or a raised exception) is an argument of the
    function that makes the call.

    What is modelled and what is not:
    - a method runs from its call to its return without another task being
      scheduled in between; the coroutines of a session advance by explicit
      steps ([start_task], [processor_step], [processor_take],
      [processor_resume], [listener_step]) between such calls.  The one
      place where a method waits for a task of its own session is
      [await task] in [close_session]: there the tasks of the session that
      are ready run before the caller goes on ([run_ready]);
    - exceptions are those of class [Exception]; [KeyboardInterrupt] and
      the cancellation of the caller of a method are left out, the
      cancellation of a session's own tasks is a task state;
    - [asyncio.Queue] keeps its count of unfinished tasks, since
      [task_done()] raises [ValueError] when that count is zero;
    - Redis calls return normally; a stored JSON text is the dict it
      encodes;
    - the API key is the one the process has had from its start
      ([core/config.py] reads it once), so that the client object that
      [_get_client] keeps is not part of the state.

    The manager of the WebSocket connections
    ([services/connection_manager.py]), the Redis client wrapper
    ([services/redis_client.py]) and two endpoints of
    [api/v1/endpoints/session.py] follow the session service. *)

From Stdlib Require Import ZArith Lia Bool.
From stdpp Require Import base option list gmap strings.

(** ** Values *)

Abbreviation SessionID := string (only parsing).
Abbreviation bytes := (list Byte.byte) (only parsing).

(** Identity of a Python object. *)
Abbreviation ref := nat (only parsing).

(** Exceptions of class [Exception] that the modelled code raises or
    catches.  [OtherException] stands for any other subclass of [Exception]
    (an aiortc or network error, for instance).  Cancellation is not an
    [Exception] in Python 3.8 and later; it is a task state below. *)
Inductive exn :=
| ValueError
| RuntimeError
| KeyError
| InvalidStatus
| QueueFull
| HTTPException (status_code : nat)
| OtherException (name : string).

Inductive result (A : Type) :=
| Ok (a : A)
| Raise (e : exn).
Arguments Ok {A} a.
Arguments Raise {A} e.

(** [sub in s] on Python strings. *)
Fixpoint str_in (sub s : string) : bool :=
  if String.prefix sub s then true
  else match s with
       | EmptyString => false
       | String _ s' => str_in sub s'
       end.

(** What the code puts on a send queue: [queue_text] puts a [str],
    [queue_audio] and [queue_image] put [{"data": ..., "mime_type": ...}]. *)
Inductive item :=
| ItemStr (s : string)
| ItemDict (data : bytes) (mime_type : string).

(** ** asyncio.Queue *)

Module Queue.

Record t := mk {
  items : list item;
  maxsize : nat;
  unfinished_tasks : nat
}.

(** [asyncio.Queue(maxsize=n)] *)
Definition new (n : nat) : t :=
  {| items := []; maxsize := n; unfinished_tasks := 0 |}.

Definition qsize (q : t) : nat := length (items q).

Definition empty (q : t) : bool := Nat.eqb (qsize q) 0.

(** A queue with [maxsize <= 0] is never full. *)
Definition full (q : t) : bool :=
  if Nat.eqb (maxsize q) 0 then false else Nat.leb (maxsize q) (qsize q).

Definition put_nowait (it : item) (q : t) : result t :=
  if full q then Raise QueueFull
  else Ok {| items := items q ++ [it];
             maxsize := maxsize q;
             unfinished_tasks := S (unfinished_tasks q) |}.

(** [None] is [QueueEmpty]; the awaiting [get] stays suspended then. *)
Definition get_nowait (q : t) : option (item * t) :=
  match items q with
  | [] => None
  | it :: rest =>
      Some (it, {| items := rest;
                   maxsize := maxsize q;
                   unfinished_tasks := unfinished_tasks q |})
  end.

(** Raises [ValueError] when called more often than items were put. *)
Definition task_done (q : t) : result t :=
  match unfinished_tasks q with
  | O => Raise ValueError
  | S n => Ok {| items := items q; maxsize := maxsize q;
                 unfinished_tasks := n |}
  end.

End Queue.

(** ** Callbacks, connections, tasks *)

(** A callback is known by its name; every invocation is recorded. *)
Abbreviation callback := string (only parsing).

Record CallbackDict := {
  on_audio : option callback;
  on_text : option callback;
  on_error : option callback
}.

Inductive call :=
| CallAudio (cb : callback) (data : bytes)
| CallText (cb : callback) (text : string)
| CallError (cb : callback) (e : exn).

(** What has been forwarded over one dialogue connection. *)
Inductive message :=
| ClientContent (text : string)
| RealtimeAudio (data : bytes) (mime_type : string)
| RealtimeVideo (data : bytes) (mime_type : string).

(** [AsyncSession]: the dialogue connection. *)
Record AsyncSession := {
  is_open : bool;
  sent : list message
}.

(** [AsyncExitStack]: the contexts entered so far, newest first. *)
Record AsyncExitStack := {
  entered : list ref
}.

Record WebRTCManager := {
  rtc_session_id : SessionID;
  rtc_has_offer : bool;
  rtc_has_answer : bool;
  rtc_closed : bool
}.

Inductive role := ResponseListener | AudioProcessor | MediaProcessor.

(** Where a started coroutine is suspended. *)
Inductive point :=
| AtReceive   (* listener: [async for response in turn] *)
| AtGet       (* processor: [await queue.get()] *)
| AtSend      (* processor: awaiting a send or the error callback,
                 inside the inner [try] *)
| AtSleep.    (* processor: [await asyncio.sleep(0)] *)

(** The local variables a coroutine binds before its loop. *)
Record frame := {
  f_session : ref;
  f_queue : option ref;
  f_stats : ref;
  f_callbacks : CallbackDict
}.

Inductive task_state :=
| Created                              (* [create_task] done, not yet run *)
| Suspended (p : point) (fr : frame)
| Returned
| Failed (e : exn)
| Cancelled.

Record Task := {
  t_session_id : SessionID;
  t_role : role;
  t_state : task_state
}.

(** [Task.done()] *)
Definition task_is_done (t : Task) : bool :=
  match t_state t with
  | Created | Suspended _ _ => false
  | Returned | Failed _ | Cancelled => true
  end.

(** ** SessionStores *)

Record SessionStores := {
  sessions : gmap SessionID ref;
  callbacks : gmap SessionID CallbackDict;
  response_listeners : gmap SessionID ref;
  send_processor : gmap SessionID (list (string * ref));
  audio_send_queues : gmap SessionID ref;
  media_send_queues : gmap SessionID ref;
  contexts : gmap SessionID AsyncExitStack;
  webrtc_managers : gmap SessionID ref;
  session_stats : gmap SessionID ref
}.

Definition empty_stores : SessionStores :=
  {| sessions := ∅; callbacks := ∅; response_listeners := ∅;
     send_processor := ∅; audio_send_queues := ∅; media_send_queues := ∅;
     contexts := ∅; webrtc_managers := ∅; session_stats := ∅ |}.

(** Every attribute of [SessionStores] is a dict, so the loop over
    [self.__dict__] deletes the key from all nine. *)
Definition clear_session (session_id : SessionID) (s : SessionStores)
  : SessionStores :=
  {| sessions := delete session_id (sessions s);
     callbacks := delete session_id (callbacks s);
     response_listeners := delete session_id (response_listeners s);
     send_processor := delete session_id (send_processor s);
     audio_send_queues := delete session_id (audio_send_queues s);
     media_send_queues := delete session_id (media_send_queues s);
     contexts := delete session_id (contexts s);
     webrtc_managers := delete session_id (webrtc_managers s);
     session_stats := delete session_id (session_stats s) |}.

(** No dictionary of the stores has the key. *)
Definition absent (session_id : SessionID) (s : SessionStores) : Prop :=
  sessions s !! session_id = None ∧
  callbacks s !! session_id = None ∧
  response_listeners s !! session_id = None ∧
  send_processor s !! session_id = None ∧
  audio_send_queues s !! session_id = None ∧
  media_send_queues s !! session_id = None ∧
  contexts s !! session_id = None ∧
  webrtc_managers s !! session_id = None ∧
  session_stats s !! session_id = None.

(** ** The process: stores, object heaps, event-loop tasks *)

Record World := {
  stores : SessionStores;
  tasks : gmap ref Task;
  queues : gmap ref Queue.t;
  stats_objs : gmap ref (gmap string Z);
  conns : gmap ref AsyncSession;
  rtcs : gmap ref WebRTCManager;
  calls : list call;
  next_ref : ref
}.

Definition empty_world : World :=
  {| stores := empty_stores; tasks := ∅; queues := ∅; stats_objs := ∅;
     conns := ∅; rtcs := ∅; calls := []; next_ref := 0 |}.

Definition with_stores (f : SessionStores → SessionStores) (w : World) :=
  {| stores := f (stores w); tasks := tasks w; queues := queues w;
     stats_objs := stats_objs w; conns := conns w; rtcs := rtcs w;
     calls := calls w; next_ref := next_ref w |}.

Definition with_tasks (f : gmap ref Task → gmap ref Task) (w : World) :=
  {| stores := stores w; tasks := f (tasks w); queues := queues w;
     stats_objs := stats_objs w; conns := conns w; rtcs := rtcs w;
     calls := calls w; next_ref := next_ref w |}.

Definition with_queues (f : gmap ref Queue.t → gmap ref Queue.t) (w : World) :=
  {| stores := stores w; tasks := tasks w; queues := f (queues w);
     stats_objs := stats_objs w; conns := conns w; rtcs := rtcs w;
     calls := calls w; next_ref := next_ref w |}.

Definition with_stats
    (f : gmap ref (gmap string Z) → gmap ref (gmap string Z)) (w : World) :=
  {| stores := stores w; tasks := tasks w; queues := queues w;
     stats_objs := f (stats_objs w); conns := conns w; rtcs := rtcs w;
     calls := calls w; next_ref := next_ref w |}.

Definition with_conns
    (f : gmap ref AsyncSession → gmap ref AsyncSession) (w : World) :=
  {| stores := stores w; tasks := tasks w; queues := queues w;
     stats_objs := stats_objs w; conns := f (conns w); rtcs := rtcs w;
     calls := calls w; next_ref := next_ref w |}.

Definition with_rtcs
    (f : gmap ref WebRTCManager → gmap ref WebRTCManager) (w : World) :=
  {| stores := stores w; tasks := tasks w; queues := queues w;
     stats_objs := stats_objs w; conns := conns w; rtcs := f (rtcs w);
     calls := calls w; next_ref := next_ref w |}.

Definition with_call (c : call) (w : World) :=
  {| stores := stores w; tasks := tasks w; queues := queues w;
     stats_objs := stats_objs w; conns := conns w; rtcs := rtcs w;
     calls := calls w ++ [c]; next_ref := next_ref w |}.

(** A new object gets the next unused identity. *)
Definition fresh (w : World) : ref * World :=
  (next_ref w,
   {| stores := stores w; tasks := tasks w; queues := queues w;
      stats_objs := stats_objs w; conns := conns w; rtcs := rtcs w;
      calls := calls w; next_ref := S (next_ref w) |}).

(** [stats[key] = stats.get(key, 0) + 1] on the dict object [r]. *)
Definition bump (key : string) (d : gmap string Z) : gmap string Z :=
  <[key := (default 0 (d !! key) + 1)%Z]> d.

Definition bump_stat (r : ref) (key : string) (w : World) : World :=
  with_stats (alter (bump key) r) w.

(** [stats.get(key, 0)] for the statistics of a session; a session without
    statistics reads as the empty dict. *)
Definition stat (session_id : SessionID) (key : string) (w : World) : Z :=
  match session_stats (stores w) !! session_id with
  | Some r => default 0%Z (stats_objs w !! r ≫= (.!! key))
  | None => 0%Z
  end.

(** ** Effects: state and exceptions *)

Definition M (A : Type) : Type := World → result A * World.

Definition ret {A} (a : A) : M A := λ w, (Ok a, w).

Definition raise {A} (e : exn) : M A := λ w, (Raise e, w).

Definition bind {A B} (m : M A) (k : A → M B) : M B :=
  λ w, match m w with
       | (Ok a, w') => k a w'
       | (Raise e, w') => (Raise e, w')
       end.

#[global] Instance M_ret : MRet M := @ret.
#[global] Instance M_bind : MBind M := λ A B k m, bind m k.

Definition gets {A} (f : World → A) : M A := λ w, (Ok (f w), w).

Definition modify (f : World → World) : M unit := λ w, (Ok tt, f w).

(** [try: body / except <classes>: handler]; [catches e] says whether the
    [except] clause matches. *)
Definition try_except {A} (body : M A) (catches : exn → bool)
    (handler : exn → M A) : M A :=
  λ w, match body w with
       | (Ok a, w') => (Ok a, w')
       | (Raise e, w') => if catches e then handler e w' else (Raise e, w')
       end.

(** [try: body / finally: final]; an exception of [final] replaces the
    outcome of [body]. *)
Definition try_finally {A} (body : M A) (final : M unit) : M A :=
  λ w, match body w with
       | (r, w') =>
           match final w' with
           | (Ok _, w'') => (r, w'')
           | (Raise e, w'') => (Raise e, w'')
           end
       end.

(** An awaited external call: returns, or raises what it is given. *)
Definition external (outcome : option exn) : M unit :=
  match outcome with
  | None => ret tt
  | Some e => raise e
  end.

Definition any_exception (e : exn) : bool := true.

(** ** Store and heap updates *)

Definition set_sessions (f : gmap SessionID ref → gmap SessionID ref)
    (s : SessionStores) : SessionStores :=
  {| sessions := f (sessions s); callbacks := callbacks s;
     response_listeners := response_listeners s;
     send_processor := send_processor s;
     audio_send_queues := audio_send_queues s;
     media_send_queues := media_send_queues s; contexts := contexts s;
     webrtc_managers := webrtc_managers s; session_stats := session_stats s |}.

Definition set_callbacks
    (f : gmap SessionID CallbackDict → gmap SessionID CallbackDict)
    (s : SessionStores) : SessionStores :=
  {| sessions := sessions s; callbacks := f (callbacks s);
     response_listeners := response_listeners s;
     send_processor := send_processor s;
     audio_send_queues := audio_send_queues s;
     media_send_queues := media_send_queues s; contexts := contexts s;
     webrtc_managers := webrtc_managers s; session_stats := session_stats s |}.

Definition set_response_listeners (f : gmap SessionID ref → gmap SessionID ref)
    (s : SessionStores) : SessionStores :=
  {| sessions := sessions s; callbacks := callbacks s;
     response_listeners := f (response_listeners s);
     send_processor := send_processor s;
     audio_send_queues := audio_send_queues s;
     media_send_queues := media_send_queues s; contexts := contexts s;
     webrtc_managers := webrtc_managers s; session_stats := session_stats s |}.

Definition set_send_processor
    (f : gmap SessionID (list (string * ref)) →
         gmap SessionID (list (string * ref)))
    (s : SessionStores) : SessionStores :=
  {| sessions := sessions s; callbacks := callbacks s;
     response_listeners := response_listeners s;
     send_processor := f (send_processor s);
     audio_send_queues := audio_send_queues s;
     media_send_queues := media_send_queues s; contexts := contexts s;
     webrtc_managers := webrtc_managers s; session_stats := session_stats s |}.

Definition set_audio_send_queues (f : gmap SessionID ref → gmap SessionID ref)
    (s : SessionStores) : SessionStores :=
  {| sessions := sessions s; callbacks := callbacks s;
     response_listeners := response_listeners s;
     send_processor := send_processor s;
     audio_send_queues := f (audio_send_queues s);
     media_send_queues := media_send_queues s; contexts := contexts s;
     webrtc_managers := webrtc_managers s; session_stats := session_stats s |}.

Definition set_media_send_queues (f : gmap SessionID ref → gmap SessionID ref)
    (s : SessionStores) : SessionStores :=
  {| sessions := sessions s; callbacks := callbacks s;
     response_listeners := response_listeners s;
     send_processor := send_processor s;
     audio_send_queues := audio_send_queues s;
     media_send_queues := f (media_send_queues s); contexts := contexts s;
     webrtc_managers := webrtc_managers s; session_stats := session_stats s |}.

Definition set_contexts
    (f : gmap SessionID AsyncExitStack → gmap SessionID AsyncExitStack)
    (s : SessionStores) : SessionStores :=
  {| sessions := sessions s; callbacks := callbacks s;
     response_listeners := response_listeners s;
     send_processor := send_processor s;
     audio_send_queues := audio_send_queues s;
     media_send_queues := media_send_queues s; contexts := f (contexts s);
     webrtc_managers := webrtc_managers s; session_stats := session_stats s |}.

Definition set_webrtc_managers (f : gmap SessionID ref → gmap SessionID ref)
    (s : SessionStores) : SessionStores :=
  {| sessions := sessions s; callbacks := callbacks s;
     response_listeners := response_listeners s;
     send_processor := send_processor s;
     audio_send_queues := audio_send_queues s;
     media_send_queues := media_send_queues s; contexts := contexts s;
     webrtc_managers := f (webrtc_managers s);
     session_stats := session_stats s |}.

Definition set_session_stats (f : gmap SessionID ref → gmap SessionID ref)
    (s : SessionStores) : SessionStores :=
  {| sessions := sessions s; callbacks := callbacks s;
     response_listeners := response_listeners s;
     send_processor := send_processor s;
     audio_send_queues := audio_send_queues s;
     media_send_queues := media_send_queues s; contexts := contexts s;
     webrtc_managers := webrtc_managers s;
     session_stats := f (session_stats s) |}.

(** [d[key] = v] on a small dict that keeps insertion order. *)
Fixpoint dict_set (key : string) (v : ref) (d : list (string * ref))
  : list (string * ref) :=
  match d with
  | [] => [(key, v)]
  | (k, x) :: d' =>
      if decide (k = key) then (k, v) :: d' else (k, x) :: dict_set key v d'
  end.

Definition set_state (st : task_state) (t : Task) : Task :=
  {| t_session_id := t_session_id t; t_role := t_role t; t_state := st |}.

Definition new_task (session_id : SessionID) (r : role) : M ref :=
  λ w, let (id, w') := fresh w in
       (Ok id, with_tasks <[id := {| t_session_id := session_id;
                                     t_role := r; t_state := Created |}]> w').

Definition new_queue (n : nat) : M ref :=
  λ w, let (id, w') := fresh w in
       (Ok id, with_queues <[id := Queue.new n]> w').

Definition new_stats (d : gmap string Z) : M ref :=
  λ w, let (id, w') := fresh w in (Ok id, with_stats <[id := d]> w').

Definition new_conn : M ref :=
  λ w, let (id, w') := fresh w in
       (Ok id, with_conns <[id := {| is_open := true; sent := [] |}]> w').

Definition new_rtc (session_id : SessionID) : M ref :=
  λ w, let (id, w') := fresh w in
       (Ok id, with_rtcs <[id := {| rtc_session_id := session_id;
                                    rtc_has_offer := false;
                                    rtc_has_answer := false;
                                    rtc_closed := false |}]> w').

Fixpoint for_each {A} (f : A → M unit) (l : list A) : M unit :=
  match l with
  | [] => ret tt
  | x :: l' => bind (f x) (λ _, for_each f l')
  end.

(** [queue.put_nowait(it)] on the queue object [r]. *)
Definition put_nowait (r : ref) (it : item) : M unit :=
  λ w, match queues w !! r with
       | None => (Ok tt, w)
       | Some q =>
           match Queue.put_nowait it q with
           | Ok q' => (Ok tt, with_queues <[r := q']> w)
           | Raise e => (Raise e, w)
           end
       end.

(** [queue.task_done()] on the queue object [r]. *)
Definition task_done (r : ref) : M unit :=
  λ w, match queues w !! r with
       | None => (Ok tt, w)
       | Some q =>
           match Queue.task_done q with
           | Ok q' => (Ok tt, with_queues <[r := q']> w)
           | Raise e => (Raise e, w)
           end
       end.

Definition is_QueueFull (e : exn) : bool :=
  match e with QueueFull => true | _ => false end.

Definition is_InvalidStatus (e : exn) : bool :=
  match e with InvalidStatus => true | _ => false end.

Definition is_ValueError_RuntimeError_KeyError (e : exn) : bool :=
  match e with ValueError | RuntimeError | KeyError => true | _ => false end.

(** [core/config.py] *)
Record Config := {
  GEMINI_API_KEY : string;
  GEMINI_MODEL : string
}.

(** The task objects the stores hold for a session. *)
Definition session_tasks (session_id : SessionID) (s : SessionStores)
  : list ref :=
  option_list (response_listeners s !! session_id)
  ++ (default [] (send_processor s !! session_id)).*2.

(** The item shapes a send processor forwards: the [if]/[elif] tests of
    [_process_audio_queue] and the [if] test of [_process_media_queue]. *)
Definition audio_processor_accepts (it : item) : bool :=
  match it with
  | ItemStr _ => true
  | ItemDict _ mime_type => str_in "audio" mime_type
  end.

Definition media_processor_accepts (it : item) : bool :=
  match it with
  | ItemStr _ => false
  | ItemDict _ mime_type => str_in "image" mime_type
  end.

Definition processor_accepts (r : role) (it : item) : bool :=
  match r with
  | AudioProcessor => audio_processor_accepts it
  | MediaProcessor => media_processor_accepts it
  | ResponseListener => false
  end.

(** ** services/gemini_client.py: GeminiLiveClient *)

Module GeminiLiveClient.

(** Exceptions raised by a callback are logged and swallowed; the model
    records the invocation. *)
Definition _call_callback (cb : option callback) (invocation : callback → call)
  : M unit :=
  match cb with
  | None => ret tt
  | Some f => modify (with_call (invocation f))
  end.

Definition _handle_error (session_id : SessionID) (error : exn) : M unit :=
  cbs ← gets (λ w, callbacks (stores w) !! session_id);
  _call_callback (cbs ≫= on_error) (λ f, CallError f error).

(** *** Enqueue operations *)

Definition queue_audio (session_id : SessionID) (audio_data : bytes) : M bool :=
  queue ← gets (λ w, audio_send_queues (stores w) !! session_id);
  match queue with
  | None => ret false
  | Some r =>
      try_except
        (put_nowait r (ItemDict audio_data "audio/pcm");; ret true)
        is_QueueFull (λ _, ret false)
  end.

Definition queue_text (session_id : SessionID) (text : string) : M bool :=
  queue ← gets (λ w, audio_send_queues (stores w) !! session_id);
  match queue with
  | None => ret false
  | Some r =>
      try_except (put_nowait r (ItemStr text);; ret true)
        is_QueueFull (λ _, ret false)
  end.

Definition queue_image (session_id : SessionID) (image_data : bytes)
    (mime_type : string) : M bool :=
  queue ← gets (λ w, media_send_queues (stores w) !! session_id);
  match queue with
  | None => ret false
  | Some r =>
      try_except
        (put_nowait r (ItemDict image_data mime_type);; ret true)
        is_QueueFull (λ _, ret false)
  end.

(** *** The coroutines of a session *)

(** [self.stores.session_stats.get(session_id, {})]: the session's dict,
    or a new empty one that nothing else refers to. *)
Definition get_stats (session_id : SessionID) : M ref :=
  r ← gets (λ w, session_stats (stores w) !! session_id);
  match r with
  | Some r => ret r
  | None => new_stats ∅
  end.

(** [session.send_client_content] and [session.send_realtime_input]:
    external, and recorded on the connection when they return. *)
Definition send (outcome : option exn) (c : ref) (msg : message) : M unit :=
  external outcome;;
  modify (with_conns
            (alter (λ s, {| is_open := is_open s; sent := sent s ++ [msg] |}) c)).

(** [_process_audio_queue] up to its loop. *)
Definition _process_audio_queue_enter (session_id : SessionID)
  : M task_state :=
  session ← gets (λ w, sessions (stores w) !! session_id);
  audio_queue ← gets (λ w, audio_send_queues (stores w) !! session_id);
  stats ← get_stats session_id;
  match session, audio_queue with
  | Some c, Some q =>
      ret (Suspended AtGet {| f_session := c; f_queue := Some q;
                              f_stats := stats;
                              f_callbacks := {| on_audio := None;
                                                on_text := None;
                                                on_error := None |} |})
  | _, _ => ret Returned
  end.

(** The inner [try / except Exception / finally] of [_process_audio_queue]
    for the dequeued [it]. *)
Definition _process_audio_queue_item (outcome : option exn)
    (session_id : SessionID) (session stats audio_queue : ref) (it : item)
  : M unit :=
  try_finally
    (try_except
       match it with
       | ItemStr s => send outcome session (ClientContent s)
       | ItemDict d mime_type =>
           if str_in "audio" mime_type then
             send outcome session (RealtimeAudio d mime_type);;
             modify (bump_stat stats "audio_sent")
           else ret tt
       end
       any_exception
       (λ e, _handle_error session_id e))
    (task_done audio_queue).

(** [_process_media_queue] up to its loop. *)
Definition _process_media_queue_enter (session_id : SessionID)
  : M task_state :=
  session ← gets (λ w, sessions (stores w) !! session_id);
  media_queue ← gets (λ w, media_send_queues (stores w) !! session_id);
  stats ← get_stats session_id;
  match session, media_queue with
  | Some c, Some q =>
      ret (Suspended AtGet {| f_session := c; f_queue := Some q;
                              f_stats := stats;
                              f_callbacks := {| on_audio := None;
                                                on_text := None;
                                                on_error := None |} |})
  | _, _ => ret Returned
  end.

(** The inner [try / except Exception / finally] of [_process_media_queue]
    for the dequeued [it]. *)
Definition _process_media_queue_item (outcome : option exn)
    (session_id : SessionID) (session stats media_queue : ref) (it : item)
  : M unit :=
  try_finally
    (try_except
       match it with
       | ItemDict d mime_type =>
           if str_in "image" mime_type then
             send outcome session (RealtimeVideo d mime_type);;
             modify (bump_stat stats "images_sent")
           else ret tt
       | ItemStr _ => ret tt
       end
       any_exception
       (λ e, _handle_error session_id e))
    (task_done media_queue).

(** [_listen_for_responses] up to its loop. *)
Definition _listen_for_responses_enter (session_id : SessionID)
  : M task_state :=
  session ← gets (λ w, sessions (stores w) !! session_id);
  match session with
  | None => ret Returned
  | Some c =>
      cbs ← gets (λ w, callbacks (stores w) !! session_id);
      stats ← get_stats session_id;
      ret (Suspended AtReceive
             {| f_session := c; f_queue := None; f_stats := stats;
                f_callbacks := default {| on_audio := None; on_text := None;
                                           on_error := None |} cbs |})
  end.

(** An event of the dialogue connection, as the listener reads it. *)
Record ServerContent := {
  interrupted : option bool
}.

Record Response := {
  server_content : option ServerContent;
  data : option bytes;
  text : option string
}.

(** [server_content is not None and getattr(server_content, "interrupted",
    False)] *)
Definition is_interrupted (response : Response) : bool :=
  match server_content response with
  | Some sc => default false (interrupted sc)
  | None => false
  end.

(** The body of [async for response in turn] of [_listen_for_responses]. *)
Definition _listen_for_responses_event (fr : frame) (response : Response)
  : M unit :=
  if is_interrupted response then ret tt
  else
    match data response with
    | Some (b :: audio_data) =>
        _call_callback (on_audio (f_callbacks fr))
          (λ f, CallAudio f (b :: audio_data));;
        modify (bump_stat (f_stats fr) "audio_received")
    | _ => ret tt
    end;;
    match text response with
    | Some (String c s) =>
        _call_callback (on_text (f_callbacks fr)) (λ f, CallText f (String c s))
    | _ => ret tt
    end.

(** *** Scheduling: what the event loop lets a task do *)

Definition finish (tid : ref) (r : result task_state * World) : World :=
  match r with
  | (Ok st, w) => with_tasks (alter (set_state st) tid) w
  | (Raise e, w) => with_tasks (alter (set_state (Failed e)) tid) w
  end.

(** First run of a created task, up to its first suspension. *)
Definition start_task (tid : ref) (w : World) : World :=
  match tasks w !! tid with
  | Some t =>
      match t_state t with
      | Created =>
          finish tid
            (match t_role t with
             | ResponseListener => _listen_for_responses_enter (t_session_id t)
             | AudioProcessor => _process_audio_queue_enter (t_session_id t)
             | MediaProcessor => _process_media_queue_enter (t_session_id t)
             end w)
      | _ => w
      end
  | None => w
  end.

(** One iteration of a send processor suspended in [queue.get()]: with an
    empty queue it stays suspended; otherwise it takes the oldest item,
    handles it and reaches [asyncio.sleep(0)].  [outcome] is the outcome of
    the send, should one be made. *)
Definition processor_step (outcome : option exn) (tid : ref) (w : World)
  : World :=
  match tasks w !! tid with
  | Some t =>
      match t_state t with
      | Suspended AtGet fr =>
          match f_queue fr with
          | Some qr =>
              match queues w !! qr ≫= Queue.get_nowait with
              | Some (it, q') =>
                  let w' := with_queues <[qr := q']> w in
                  let next := ret (Suspended AtSleep fr) in
                  match t_role t with
                  | AudioProcessor =>
                      finish tid
                        ((_process_audio_queue_item outcome (t_session_id t)
                            (f_session fr) (f_stats fr) qr it;; next) w')
                  | MediaProcessor =>
                      finish tid
                        ((_process_media_queue_item outcome (t_session_id t)
                            (f_session fr) (f_stats fr) qr it;; next) w')
                  | ResponseListener => w
                  end
              | None => w
              end
          | None => w
          end
      | _ => w
      end
  | None => w
  end.

(** A send processor suspended in [queue.get()] takes the oldest item and
    makes the send for it, which has not returned yet: the processor is
    suspended in [send_client_content] or [send_realtime_input].  An item it
    makes no send for, and an empty queue, are left to [processor_step]. *)
Definition processor_take (tid : ref) (w : World) : World :=
  match tasks w !! tid with
  | Some t =>
      match t_state t with
      | Suspended AtGet fr =>
          match f_queue fr with
          | Some qr =>
              match queues w !! qr ≫= Queue.get_nowait with
              | Some (it, q') =>
                  if processor_accepts (t_role t) it then
                    with_tasks (alter (set_state (Suspended AtSend fr)) tid)
                      (with_queues <[qr := q']> w)
                  else w
              | None => w
              end
          | None => w
          end
      | _ => w
      end
  | None => w
  end.

(** Return from [asyncio.sleep(0)]: the loop test
    [while session_id in self.stores.sessions]. *)
Definition processor_resume (tid : ref) (w : World) : World :=
  match tasks w !! tid with
  | Some t =>
      match t_state t with
      | Suspended AtSleep fr =>
          if bool_decide (is_Some (sessions (stores w) !! t_session_id t))
          then with_tasks (alter (set_state (Suspended AtGet fr)) tid) w
          else with_tasks (alter (set_state Returned) tid) w
      | _ => w
      end
  | None => w
  end.

(** The listener receives one event. *)
Definition listener_step (response : Response) (tid : ref) (w : World)
  : World :=
  match tasks w !! tid with
  | Some t =>
      match t_role t, t_state t with
      | ResponseListener, Suspended AtReceive fr =>
          finish tid
            ((_listen_for_responses_event fr response;;
              ret (Suspended AtReceive fr)) w)
      | _, _ => w
      end
  | None => w
  end.

(** *** Cancellation of the session's coroutines *)

(** What a coroutine does when [CancelledError] is thrown into it at its
    suspension point, up to its end.  The listener catches it and returns.
    A processor suspended inside its inner [try] runs
    [finally: queue.task_done()] first; if that raises, the [ValueError]
    replaces the cancellation and is not caught by
    [except asyncio.CancelledError]. *)
Definition on_cancel (r : role) (p : point) (fr : frame) : M unit :=
  match r with
  | ResponseListener => ret tt
  | AudioProcessor | MediaProcessor =>
      match p, f_queue fr with
      | (AtGet | AtSend), Some q => task_done q
      | _, _ => ret tt
      end
  end.

(** The step the event loop gives a task that is ready to run, up to its
    next suspension: a created task, whose first step is scheduled since
    [create_task], starts; a processor in [asyncio.sleep(0)], which is
    scheduled again at once, returns from it; a processor that is then in
    [queue.get()] with an item in its queue takes the item and is suspended
    in the send it makes for it, an external call that has not returned
    when the caller goes on ([processor_take]).  A task suspended elsewhere
    waits for something external and is left where it is. *)
Definition run_ready_task (tid : ref) (w : World) : World :=
  match tasks w !! tid with
  | Some t =>
      match t_state t with
      | Created => processor_take tid (start_task tid w)
      | Suspended AtSleep _ => processor_take tid (processor_resume tid w)
      | Suspended AtGet _ => processor_take tid w
      | _ => w
      end
  | None => w
  end.

(** What the event loop runs while [close_session] for [session_id] is
    suspended in [await task]: the other tasks the stores hold for the
    session, in the order they were created.  The ready tasks of other
    sessions run then as well; they take no part in the teardown and keep
    their explicit steps. *)
Definition run_ready (session_id : SessionID) (task : ref) (w : World)
  : World :=
  foldl (λ w tid, run_ready_task tid w) w
    (List.filter (λ tid, negb (Nat.eqb tid task))
       (session_tasks session_id (stores w))).

(** [task.cancel()], then [await task] inside
    [try: ... except asyncio.CancelledError: pass], in [close_session] for
    [session_id].  A task that is done is not waited for.  Otherwise the
    caller is suspended until the task is done: the event loop runs what
    was ready before ([run_ready]), then the cancellation reaches the task,
    a created one at its first step, before any of its code has run. *)
Definition cancel_and_await (session_id : SessionID) (tid : ref) : M unit :=
  λ w, match tasks w !! tid with
       | None => (Ok tt, w)
       | Some t =>
           match t_state t with
           | Returned | Cancelled => (Ok tt, w)
           | Failed e => (Raise e, w)
           | Created =>
               (Ok tt,
                with_tasks (alter (set_state Cancelled) tid)
                  (run_ready session_id tid w))
           | Suspended p fr =>
               match on_cancel (t_role t) p fr (run_ready session_id tid w) with
               | (Ok _, w') =>
                   (Ok tt, with_tasks (alter (set_state Returned) tid) w')
               | (Raise e, w') =>
                   (Raise e, with_tasks (alter (set_state (Failed e)) tid) w')
               end
           end
       end.

(** *** close_session *)

(** Outcomes of the two external calls of a teardown. *)
Record CloseOutcomes := {
  webrtc_close : option exn;     (* [await self.pc.close()] *)
  context_aclose : option exn    (* [await context.aclose()] *)
}.

(** [WebRTCManager.close] *)
Definition WebRTCManager_close (outcome : option exn) (r : ref) : M unit :=
  external outcome;;
  modify (with_rtcs (alter (λ m, {| rtc_session_id := rtc_session_id m;
                                    rtc_has_offer := rtc_has_offer m;
                                    rtc_has_answer := rtc_has_answer m;
                                    rtc_closed := true |}) r)).

(** [AsyncExitStack.aclose]: leaves the dialogue connection context. *)
Definition aclose (outcome : option exn) (stack : AsyncExitStack) : M unit :=
  external outcome;;
  for_each
    (λ c, modify (with_conns
                    (alter (λ s, {| is_open := false; sent := sent s |}) c)))
    (entered stack).

(** The four steps of the [try] of [close_session], in order. *)

(** [if webrtc_manager := ...get(session_id): await webrtc_manager.close()] *)
Definition close_webrtc (o : CloseOutcomes) (session_id : SessionID) : M unit :=
  webrtc_manager ← gets (λ w, webrtc_managers (stores w) !! session_id);
  match webrtc_manager with
  | Some r => WebRTCManager_close (webrtc_close o) r
  | None => ret tt
  end.

(** [if task := self.stores.response_listeners.get(session_id): ...] *)
Definition cancel_listener (session_id : SessionID) : M unit :=
  task ← gets (λ w, response_listeners (stores w) !! session_id);
  match task with
  | Some tid => cancel_and_await session_id tid
  | None => ret tt
  end.

(** [for task in processors.values(): ...], in insertion order. *)
Definition cancel_processors (session_id : SessionID) : M unit :=
  processors ← gets (λ w, send_processor (stores w) !! session_id);
  match processors with
  | Some d => for_each (cancel_and_await session_id) (d.*2)
  | None => ret tt
  end.

(** [if context := self.stores.contexts.get(session_id): await
    context.aclose()] *)
Definition close_context (o : CloseOutcomes) (session_id : SessionID)
  : M unit :=
  context ← gets (λ w, contexts (stores w) !! session_id);
  match context with
  | Some stack => aclose (context_aclose o) stack
  | None => ret tt
  end.

(** The body of the [try] of [close_session], before [clear_session]. *)
Definition teardown (o : CloseOutcomes) (session_id : SessionID) : M unit :=
  close_webrtc o session_id;;
  cancel_listener session_id;;
  cancel_processors session_id;;
  close_context o session_id.

Definition close_session (o : CloseOutcomes) (session_id : SessionID)
  : M bool :=
  present ← gets (λ w, bool_decide (is_Some (sessions (stores w) !! session_id)));
  if negb present then ret false
  else
    try_except
      (teardown o session_id;;
       modify (with_stores (clear_session session_id));;
       ret true)
      any_exception
      (λ _, modify (with_stores (clear_session session_id));; ret false).

(** *** create_webrtc_session *)

Definition _get_client (cfg : Config) : M unit :=
  if decide (GEMINI_API_KEY cfg = "") then raise ValueError else ret tt.

Definition initial_stats : gmap string Z :=
  <["audio_received" := 0%Z]>
    (<["images_skipped" := 0%Z]>
       (<["images_sent" := 0%Z]> (<["audio_sent" := 0%Z]> ∅))).

(** [session = await stack.enter_async_context(client.aio.live.connect(...))]
    inside [try: ... except websockets.exceptions.InvalidStatus as e: raise e
    from e]; [stack] is the object stored under [contexts[session_id]]. *)
Definition open_connection (connect : option exn) (session_id : SessionID)
  : M ref :=
  try_except
    (external connect;;
     c ← new_conn;
     modify (with_stores
               (set_contexts <[session_id := {| entered := [c] |}]>));;
     ret c)
    is_InvalidStatus (λ e, raise e).

(** The registrations made once the connection is open, up to the
    [return webrtc_manager]. *)
Definition register_session (session_id : SessionID) (session : ref)
    (on_audio' on_text' on_error' : option callback) : M (option ref) :=
  modify (with_stores (set_sessions <[session_id := session]>));;
  modify (with_stores
            (set_callbacks <[session_id := {| on_audio := on_audio';
                                              on_text := on_text';
                                              on_error := on_error' |}]>));;
  aq ← new_queue 50;
  modify (with_stores (set_audio_send_queues <[session_id := aq]>));;
  mq ← new_queue 1;
  modify (with_stores (set_media_send_queues <[session_id := mq]>));;
  st ← new_stats initial_stats;
  modify (with_stores (set_session_stats <[session_id := st]>));;
  listener ← new_task session_id ResponseListener;
  modify (with_stores (set_response_listeners <[session_id := listener]>));;
  modify (with_stores (set_send_processor <[session_id := []]>));;
  audio ← new_task session_id AudioProcessor;
  modify (with_stores
            (set_send_processor (alter (dict_set "audio" audio) session_id)));;
  media ← new_task session_id MediaProcessor;
  modify (with_stores
            (set_send_processor (alter (dict_set "media" media) session_id)));;
  webrtc_manager ← new_rtc session_id;
  modify (with_stores (set_webrtc_managers <[session_id := webrtc_manager]>));;
  ret (Some webrtc_manager).

(** The [try] of [create_webrtc_session]. *)
Definition open_and_register (cfg : Config) (connect : option exn)
    (session_id : SessionID) (on_audio' on_text' on_error' : option callback)
  : M (option ref) :=
  _get_client cfg;;
  modify (with_stores (set_contexts <[session_id := {| entered := [] |}]>));;
  session ← open_connection connect session_id;
  register_session session_id session on_audio' on_text' on_error'.

(** [oc] are the outcomes of the teardown of a prior session with the same
    id, [connect] the outcome of opening the dialogue connection.  The
    result is the new WebRTC manager, or [None]. *)
Definition create_webrtc_session (cfg : Config) (oc : CloseOutcomes)
    (connect : option exn) (session_id : SessionID)
    (on_audio' on_text' on_error' : option callback) : M (option ref) :=
  present ← gets (λ w, bool_decide (is_Some (sessions (stores w) !! session_id)));
  (if present : bool then close_session oc session_id else ret false);;
  try_except
    (open_and_register cfg connect session_id on_audio' on_text' on_error')
    is_ValueError_RuntimeError_KeyError
    (λ e, _handle_error session_id e;; ret None).

(** *** The frame handlers given to the WebRTC manager *)

Definition handle_video_frame (session_id : SessionID) (frame_data : bytes)
  : M unit :=
  success ← queue_image session_id frame_data "image/jpeg";
  stats ← get_stats session_id;
  if success : bool then modify (bump_stat stats "images_sent")
  else modify (bump_stat stats "images_skipped").

Definition handle_audio_frame (session_id : SessionID) (audio_data : bytes)
  : M unit :=
  success ← queue_audio session_id audio_data;
  if success : bool then
    stats ← get_stats session_id;
    modify (bump_stat stats "audio_sent")
  else ret tt.

(** *** The remaining methods of the client *)

(** [list(self.stores.sessions.keys())]; the finite map gives the keys in
    its own order, not in insertion order. *)
Definition get_active_sessions (w : World) : list SessionID :=
  (map_to_list (sessions (stores w))).*1.

(** [self.stores.session_stats.get(session_id)] *)
Definition get_session_stats (session_id : SessionID) (w : World)
  : option (gmap string Z) :=
  session_stats (stores w) !! session_id ≫= λ r, stats_objs w !! r.

(** [close_session] for each id of a list in turn, [o sid] being the
    outcomes of the external calls of the teardown of [sid]. *)
Fixpoint close_each (o : SessionID → CloseOutcomes) (ids : list SessionID)
  : M (list bool) :=
  match ids with
  | [] => ret []
  | sid :: ids' =>
      b ← close_session (o sid) sid;
      bs ← close_each o ids';
      ret (b :: bs)
  end.

(** [asyncio.gather] of [self.close_session(sid)] for each [sid] of
    [session_ids]: the teardowns run one after the other here. *)
Definition close_all_sessions (o : SessionID → CloseOutcomes) : M unit :=
  session_ids ← gets get_active_sessions;
  close_each o session_ids;;
  ret tt.

End GeminiLiveClient.

(** ** services/session_service.py: SessionService *)

Module SessionService.

(** A Redis string holding [json.dumps] of a dict of strings, with its
    expiry in seconds if it has one.  The JSON text is kept as the dict it
    encodes. *)
Record RedisEntry := {
  value : gmap string string;
  ex : option nat
}.

Record State := {
  gemini_client : World;
  redis_client : gmap string RedisEntry
}.

Definition S (A : Type) : Type := State → result A * State.

(** A call into [self.gemini_client]. *)
Definition client {A} (m : M A) : S A :=
  λ s, let (r, w) := m (gemini_client s) in
       (r, {| gemini_client := w; redis_client := redis_client s |}).

Definition with_redis
    (f : gmap string RedisEntry → gmap string RedisEntry) (s : State) : State :=
  {| gemini_client := gemini_client s; redis_client := f (redis_client s) |}.

(** [f"session:{session_id}"] *)
Definition session_key (session_id : SessionID) : string :=
  "session:" +:+ session_id.

Definition HTTP_400_BAD_REQUEST : nat := 400.
Definition HTTP_404_NOT_FOUND : nat := 404.
Definition HTTP_500_INTERNAL_SERVER_ERROR : nat := 500.

(** [WebRTCManager.create_offer]: external; gives the SDP of the offer. *)
Definition create_offer (outcome : result string) (r : ref) : M string :=
  match outcome with
  | Raise e => raise e
  | Ok sdp =>
      modify (with_rtcs (alter (λ m, {| rtc_session_id := rtc_session_id m;
                                        rtc_has_offer := true;
                                        rtc_has_answer := rtc_has_answer m;
                                        rtc_closed := rtc_closed m |}) r));;
      ret sdp
  end.

(** [WebRTCManager.set_answer]: [await self.pc.setRemoteDescription]. *)
Definition set_answer (outcome : option exn) (r : ref) : M unit :=
  external outcome;;
  modify (with_rtcs (alter (λ m, {| rtc_session_id := rtc_session_id m;
                                    rtc_has_offer := rtc_has_offer m;
                                    rtc_has_answer := true;
                                    rtc_closed := rtc_closed m |}) r)).

(** [session_id] is the value of [str(uuid.uuid4())]; the callbacks given
    to the client are the two closures of the method. *)
Definition create_session (cfg : Config)
    (oc : GeminiLiveClient.CloseOutcomes) (connect : option exn)
    (offer : result string) (session_id : SessionID)
    (system_instruction : string) : S (string * string) :=
  λ s,
    match client (GeminiLiveClient.create_webrtc_session cfg oc connect
                    session_id (Some "on_audio_received") None
                    (Some "on_error_callback")) s with
    | (Raise e, s1) => (Raise e, s1)
    | (Ok None, s1) => (Raise (HTTPException HTTP_500_INTERNAL_SERVER_ERROR), s1)
    | (Ok (Some webrtc_manager), s1) =>
        let session_data : gmap string string :=
          <["system_instruction" := system_instruction]>
            (<["status" := "pending"]> ∅) in
        let s2 := with_redis
                    <[session_key session_id :=
                        {| value := session_data; ex := Some 300 |}]> s1 in
        match client (create_offer offer webrtc_manager) s2 with
        | (Raise e, s3) => (Raise e, s3)
        | (Ok sdp, s3) => (Ok (session_id, sdp), s3)
        end
    end.

Definition set_webrtc_answer (outcome : option exn) (session_id : SessionID)
  : S unit :=
  λ s,
    let session_key := session_key session_id in
    match redis_client s !! session_key with
    | None => (Raise (HTTPException HTTP_404_NOT_FOUND), s)
    | Some session_data_str =>
        match webrtc_managers (stores (gemini_client s)) !! session_id with
        | None => (Raise (HTTPException HTTP_404_NOT_FOUND), s)
        | Some webrtc_manager =>
            match client (set_answer outcome webrtc_manager) s with
            | (Raise _, s1) => (Raise (HTTPException HTTP_400_BAD_REQUEST), s1)
            | (Ok _, s1) =>
                let session_data :=
                  <["status" := "active"]> (value session_data_str) in
                (Ok tt,
                 with_redis
                   <[session_key := {| value := session_data; ex := None |}]>
                   s1)
            end
        end
    end.

(** [redis.delete(key)] gives the number of keys removed. *)
Definition close_session (o : GeminiLiveClient.CloseOutcomes)
    (session_id : SessionID) : S bool :=
  λ s,
    match client (GeminiLiveClient.close_session o session_id) s with
    | (Raise e, s1) => (Raise e, s1)
    | (Ok closed_locally, s1) =>
        let deleted_from_redis :=
          match redis_client s1 !! session_key session_id with
          | Some _ => 1
          | None => 0
          end in
        (Ok (closed_locally || (0 <? deleted_from_redis)),
         with_redis (delete (session_key session_id)) s1)
    end.

(** The status persisted for a session, if any. *)
Definition persisted_status (session_id : SessionID) (s : State)
  : option string :=
  redis_client s !! session_key session_id ≫= λ e, value e !! "status".

End SessionService.

(** ** Runs and observations used by the statements *)

(** A caller makes the calls [f a1], [f a2], ... one after the other, with
    nothing else scheduled in between. *)
Fixpoint run_calls {A} (f : A → M bool) (args : list A) (w : World)
  : list (result bool) * World :=
  match args with
  | [] => ([], w)
  | a :: args' =>
      let (r, w1) := f a w in
      let (rs, w2) := run_calls f args' w1 in
      (r :: rs, w2)
  end.

Definition count {A} (p : A → bool) (l : list A) : nat :=
  length (List.filter p l).

Definition succeeded (r : result bool) : bool :=
  match r with Ok true => true | _ => false end.

Definition failed (r : result bool) : bool :=
  match r with Ok false => true | _ => false end.

(** [w'] differs from [w] in the queue objects only. *)
Definition same_but_queues (w w' : World) : Prop :=
  stores w' = stores w ∧ tasks w' = tasks w ∧ stats_objs w' = stats_objs w ∧
  conns w' = conns w ∧ rtcs w' = rtcs w ∧ calls w' = calls w ∧
  next_ref w' = next_ref w.

(** The queue after a successful [put_nowait]. *)
Definition pushed (it : item) (q : Queue.t) : Queue.t :=
  {| Queue.items := Queue.items q ++ [it];
     Queue.maxsize := Queue.maxsize q;
     Queue.unfinished_tasks := S (Queue.unfinished_tasks q) |}.

Definition audio_item (c : bytes) : item := ItemDict c "audio/pcm".

Definition image_item (f : bytes * string) : item := ItemDict f.1 f.2.

(** ** Concrete scenarios *)

Module Scenario.
Import GeminiLiveClient.

Definition cfg : Config :=
  {| GEMINI_API_KEY := "key"; GEMINI_MODEL := "gemini-live" |}.

(** Every external call of a teardown returns normally. *)
Definition smooth : CloseOutcomes :=
  {| webrtc_close := None; context_aclose := None |}.

(** The process after one successful [create_webrtc_session] for "s1".
    Its objects: connection 0, audio queue 1, media queue 2, statistics 3,
    listener task 4, audio processor 5, media processor 6, WebRTC
    manager 7. *)
Definition created : World :=
  snd (create_webrtc_session cfg smooth None "s1"
         (Some "on_audio") (Some "on_text") (Some "on_error") empty_world).

(** The event loop has run the three new tasks up to their first
    suspension: the listener waits for an event, each processor waits in
    [queue.get()] on its empty queue. *)
Definition running : World :=
  start_task 6 (start_task 5 (start_task 4 created)).

Definition chunk320 : bytes := repeat Byte.x00 320.

Definition frame1 : bytes := [Byte.x01].
Definition frame2 : bytes := [Byte.x02].

(** The running session has been given an audio chunk and a video frame;
    each processor has taken its item and waits for its send to return. *)
Definition sending : World :=
  processor_take 6
    (processor_take 5
       (snd (queue_image "s1" frame1 "image/jpeg"
               (snd (queue_audio "s1" chunk320 running))))).

End Scenario.

Module Events.
Import GeminiLiveClient.

(** An event marked interrupted that also carries audio and text. *)
Definition interrupted_with_audio : Response :=
  {| server_content := Some {| interrupted := Some true |};
     data := Some [Byte.x01; Byte.x02];
     text := Some "hello" |}.

(** The same payload, not interrupted. *)
Definition plain_audio : Response :=
  {| server_content := Some {| interrupted := Some false |};
     data := Some [Byte.x01; Byte.x02];
     text := None |}.

End Events.

Module ServiceScenario.

Definition start : SessionService.State :=
  {| SessionService.gemini_client := empty_world;
     SessionService.redis_client := ∅ |}.

(** After [create_session] has succeeded for the id "s1": the session is
    registered in the client and persisted as pending. *)
Definition pending : SessionService.State :=
  snd (SessionService.create_session Scenario.cfg Scenario.smooth None
         (Ok "v=0 offer") "s1" "You are a helpful assistant" start).

End ServiceScenario.

(** A computation that leaves the nine dictionaries as they are. *)
Definition keeps_stores {A} (m : M A) : Prop :=
  ∀ w, stores (snd (m w)) = stores w.

(** The outcome of a teardown: [True] when every step returned, [False]
    when one raised (the value [close_session] returns). *)
Definition clean {A} (r : result A) : bool :=
  match r with Ok _ => true | Raise _ => false end.

(** The tasks created for a session that the event loop still runs. *)
Definition running_tasks (session_id : SessionID) (w : World)
  : list (ref * Task) :=
  List.filter
    (λ p, bool_decide (t_session_id p.2 = session_id) && negb (task_is_done p.2))
    (map_to_list (tasks w)).

(** The event loop still knows every task it knew, and a finished task
    stays finished. *)
Definition advances (w w' : World) : Prop :=
  ∀ tid t, tasks w !! tid = Some t →
    ∃ t', tasks w' !! tid = Some t'
          ∧ t_session_id t' = t_session_id t
          ∧ t_role t' = t_role t
          ∧ (task_is_done t = true → task_is_done t' = true).

Definition done_in (w : World) (tid : ref) : Prop :=
  ∃ t, tasks w !! tid = Some t ∧ task_is_done t = true.

Definition progresses {A} (m : M A) : Prop :=
  ∀ w, advances w (snd (m w)).

Module Failing.
Import GeminiLiveClient.

(** [await self.pc.close()] raises. *)
Definition webrtc_fails : CloseOutcomes :=
  {| webrtc_close := Some RuntimeError; context_aclose := None |}.

(** The session "s1" is running in the client, and its persisted record
    is gone (a pending record expires after 300 seconds). *)
Definition expired : SessionService.State :=
  {| SessionService.gemini_client := Scenario.running;
     SessionService.redis_client := ∅ |}.

End Failing.

(** ** Observations of a send processor *)

(** What a processor of role [r] sends for an item it takes. *)
Definition forwarded (r : role) (it : item) : option message :=
  match r, it with
  | AudioProcessor, ItemStr s => Some (ClientContent s)
  | AudioProcessor, ItemDict d m =>
      if str_in "audio" m then Some (RealtimeAudio d m) else None
  | MediaProcessor, ItemDict d m =>
      if str_in "image" m then Some (RealtimeVideo d m) else None
  | _, _ => None
  end.

(** The counter a processor of role [r] increments after a successful send
    of the item. *)
Definition counted (r : role) (it : item) : option string :=
  match r, it with
  | AudioProcessor, ItemDict _ m =>
      if str_in "audio" m then Some "audio_sent" else None
  | MediaProcessor, ItemDict _ m =>
      if str_in "image" m then Some "images_sent" else None
  | _, _ => None
  end.

(** The processor [tid] runs one loop iteration per outcome: it takes an
    item, handles it, and comes back from [sleep(0)]. *)
Fixpoint iterate (outcomes : list (option exn)) (tid : ref) (w : World)
  : World :=
  match outcomes with
  | [] => w
  | o :: os =>
      iterate os tid
        (GeminiLiveClient.processor_resume tid
           (GeminiLiveClient.processor_step o tid w))
  end.

(** A value of a counter in a statistics dict object. *)
Definition counter (r : ref) (key : string) (w : World) : Z :=
  default 0%Z (stats_objs w !! r ≫= (.!! key)).

(** The item a mixed sequence of [queue_text] and [queue_audio] calls puts. *)
Definition text_or_audio_item (a : string + bytes) : item :=
  match a with
  | inl text => ItemStr text
  | inr audio_data => ItemDict audio_data "audio/pcm"
  end.

Definition queue_text_or_audio (session_id : SessionID) (a : string + bytes)
  : M bool :=
  match a with
  | inl text => GeminiLiveClient.queue_text session_id text
  | inr audio_data => GeminiLiveClient.queue_audio session_id audio_data
  end.

(** What goes out when a processor of role [r] handles [it] and the send,
    if one is made, has outcome [o]. *)
Definition delivered (r : role) (it : item) (o : option exn) : option message :=
  match o with
  | None => forwarded r it
  | Some _ => None
  end.

(** The counter incremented in that case. *)
Definition counted_ok (r : role) (it : item) (o : option exn) : option string :=
  match o with
  | None => counted r it
  | Some _ => None
  end.

(** The call of the session's error callback in that case: a send was made
    and raised. *)
Definition reported (cbs : option CallbackDict) (r : role) (it : item)
    (o : option exn) : option call :=
  match forwarded r it, o with
  | Some _, Some e => (λ f, CallError f e) <$> (cbs ≫= on_error)
  | _, _ => None
  end.

(** The processor [tid], of role [r] for [session_id], waits in
    [queue.get()] with the local variables [fr]. *)
Definition waiting (w : World) (tid : ref) (r : role) (session_id : SessionID)
    (fr : frame) : Prop :=
  ∃ t, tasks w !! tid = Some t
       ∧ t_role t = r
       ∧ t_session_id t = session_id
       ∧ t_state t = Suspended AtGet fr.

Module Traffic.
Import GeminiLiveClient.

(** The local variables of the audio processor of [Scenario.running]. *)
Definition audio_frame : frame :=
  {| f_session := 0; f_queue := Some 1; f_stats := 3;
     f_callbacks := {| on_audio := None; on_text := None; on_error := None |} |}.

(** The running session with an audio chunk, a text and another chunk
    queued, none taken yet. *)
Definition queued : World :=
  snd (run_calls (queue_text_or_audio "s1")
         [inr Scenario.frame1; inl "hello"; inr Scenario.frame2]
         Scenario.running).

Definition queued_items : list item :=
  [ItemDict Scenario.frame1 "audio/pcm"; ItemStr "hello";
   ItemDict Scenario.frame2 "audio/pcm"].

(** The first send succeeds, the second raises, the third succeeds. *)
Definition outcomes : list (option exn) := [None; Some RuntimeError; None].

End Traffic.

(** ** Observations of the listener and of the stores *)

(** [audio_data] of an event when [if audio_data:] holds. *)
Definition audio_of (response : GeminiLiveClient.Response) : option bytes :=
  match GeminiLiveClient.data response with
  | Some (b :: audio_data) => Some (b :: audio_data)
  | _ => None
  end.

(** [response.text] when [if response.text:] holds. *)
Definition text_of (response : GeminiLiveClient.Response) : option string :=
  match GeminiLiveClient.text response with
  | Some (String c s) => Some (String c s)
  | _ => None
  end.

(** The nine entries of the stores for one session id. *)
Definition entries (s : SessionStores) (session_id : SessionID) :=
  (sessions s !! session_id, callbacks s !! session_id,
   response_listeners s !! session_id, send_processor s !! session_id,
   audio_send_queues s !! session_id, media_send_queues s !! session_id,
   contexts s !! session_id, webrtc_managers s !! session_id,
   session_stats s !! session_id).

(** What [close_session] does to the stores. *)
Definition closed_stores (s : SessionStores) (session_id : SessionID)
  : SessionStores :=
  match sessions s !! session_id with
  | Some _ => clear_session session_id s
  | None => s
  end.

Module TwoSessions.
Import GeminiLiveClient.

(** A second session "s2" is created next to the running "s1" and its
    tasks are started.  Its objects: connection 8, queues 9 and 10,
    statistics 11, tasks 12 to 14, WebRTC manager 15. *)
Definition running : World :=
  start_task 14
    (start_task 13
       (start_task 12
          (snd (create_webrtc_session Scenario.cfg Scenario.smooth None "s2"
                  (Some "on_audio") None None Scenario.running)))).

End TwoSessions.


(** ** api/v1/endpoints/session.py *)

Module Endpoints.

Record StatusResponse := {
  status : string;
  message : string
}.

(** [POST /session/{session_id}/answer] *)
Definition receive_webrtc_answer (outcome : option exn)
    (session_id : SessionID) : SessionService.S StatusResponse :=
  λ s,
    match SessionService.set_webrtc_answer outcome session_id s with
    | (Raise e, s1) => (Raise e, s1)
    | (Ok _, s1) =>
        (Ok {| status := "success";
               message := "WebRTC answer received and connection established." |},
         s1)
    end.

(** [DELETE /session/{session_id}] *)
Definition terminate_session (o : GeminiLiveClient.CloseOutcomes)
    (session_id : SessionID) : SessionService.S StatusResponse :=
  λ s,
    match SessionService.close_session o session_id s with
    | (Raise e, s1) => (Raise e, s1)
    | (Ok closed, s1) =>
        if negb closed then
          (Raise (HTTPException SessionService.HTTP_404_NOT_FOUND), s1)
        else (Ok {| status := "success"; message := "Session terminated." |}, s1)
    end.

End Endpoints.

(** The record [create_session] persists. *)
Definition pending_record (system_instruction : string)
  : SessionService.RedisEntry :=
  {| SessionService.value :=
       <["system_instruction" := system_instruction]>
         (<["status" := "pending"]> ∅);
     SessionService.ex := Some 300 |}.

(** ** services/connection_manager.py: ConnectionManager *)

Module ConnectionManager.

(** The [asyncio.Queue(maxsize=100)] of a connection; it holds the [bytes]
    given to [broadcast]. *)
Record AudioQueue := {
  pending : list bytes;
  unfinished : nat
}.

Definition maxsize : nat := 100.

Definition put_nowait (data : bytes) (q : AudioQueue) : result AudioQueue :=
  if Nat.leb maxsize (length (pending q)) then Raise QueueFull
  else Ok {| pending := pending q ++ [data]; unfinished := S (unfinished q) |}.

Definition get_nowait (q : AudioQueue) : option (bytes * AudioQueue) :=
  match pending q with
  | [] => None
  | data :: rest => Some (data, {| pending := rest; unfinished := unfinished q |})
  end.

Definition task_done (q : AudioQueue) : result AudioQueue :=
  match unfinished q with
  | O => Raise ValueError
  | S n => Ok {| pending := pending q; unfinished := n |}
  end.

(** The manager and the objects it shares with the consumer tasks:
    [active_connections] maps a session id to the identities of its
    WebSocket and of its queue; [sent_bytes] is what [send_bytes] has
    delivered on each WebSocket. *)
Record t := {
  active_connections : gmap string (ref * ref);
  audio_queues : gmap ref AudioQueue;
  sent_bytes : gmap ref (list bytes);
  next_queue : ref
}.

Definition empty : t :=
  {| active_connections := ∅; audio_queues := ∅; sent_bytes := ∅;
     next_queue := 0 |}.

Definition with_connections
    (f : gmap string (ref * ref) → gmap string (ref * ref)) (m : t) : t :=
  {| active_connections := f (active_connections m);
     audio_queues := audio_queues m; sent_bytes := sent_bytes m;
     next_queue := next_queue m |}.

Definition with_audio_queues
    (f : gmap ref AudioQueue → gmap ref AudioQueue) (m : t) : t :=
  {| active_connections := active_connections m;
     audio_queues := f (audio_queues m); sent_bytes := sent_bytes m;
     next_queue := next_queue m |}.

Definition with_sent_bytes
    (f : gmap ref (list bytes) → gmap ref (list bytes)) (m : t) : t :=
  {| active_connections := active_connections m;
     audio_queues := audio_queues m; sent_bytes := f (sent_bytes m);
     next_queue := next_queue m |}.

(** [accept] is the outcome of [await websocket.accept()]; the result is
    the new queue. *)
Definition connect (accept : option exn) (session_id : SessionID)
    (websocket : ref) (m : t) : result ref * t :=
  match accept with
  | Some e => (Raise e, m)
  | None =>
      let queue := next_queue m in
      (Ok queue,
       {| active_connections :=
            <[session_id := (websocket, queue)]> (active_connections m);
          audio_queues :=
            <[queue := {| pending := []; unfinished := 0 |}]> (audio_queues m);
          sent_bytes := sent_bytes m;
          next_queue := S queue |})
  end.

Definition disconnect (session_id : SessionID) (m : t) : t :=
  match active_connections m !! session_id with
  | Some _ => with_connections (delete session_id) m
  | None => m
  end.

(** The queue of an entry is an object the manager has made, so it is in
    [audio_queues]. *)
Definition broadcast (session_id : SessionID) (data : bytes) (m : t) : t :=
  match active_connections m !! session_id with
  | Some (_websocket, queue) =>
      match audio_queues m !! queue with
      | Some q =>
          match put_nowait data q with
          | Ok q' => with_audio_queues <[queue := q']> m
          | Raise _ => m
          end
      | None => m
      end
  | None => m
  end.

(** Where the coroutine of [consumer_task] is: suspended in
    [await queue.get()], or ended. *)
Inductive consumer := Waiting | Ended.

(** The [except Exception] clause logs, the [finally] clause disconnects. *)
Definition consumer_ends (session_id : SessionID) (m : t) : consumer * t :=
  (Ended, disconnect session_id m).

(** The consumer waiting in [queue.get()] runs until it is suspended there
    again or ends: with an empty queue it stays suspended; otherwise it
    takes the first item and sends it, [send] being the outcome of
    [await websocket.send_bytes(data)].  [queue] is the queue the consumer
    was given, an object the manager has made. *)
Definition consumer_step (send : option exn) (session_id : SessionID)
    (queue websocket : ref) (m : t) : consumer * t :=
  match audio_queues m !! queue ≫= get_nowait with
  | None => (Waiting, m)
  | Some (data, q1) =>
      let m1 := with_audio_queues <[queue := q1]> m in
      match send with
      | Some _ => consumer_ends session_id m1
      | None =>
          let m2 := with_sent_bytes
                      <[websocket :=
                          default [] (sent_bytes m1 !! websocket) ++ [data]]>
                      m1 in
          match task_done q1 with
          | Ok q2 => (Waiting, with_audio_queues <[queue := q2]> m2)
          | Raise _ => consumer_ends session_id m2
          end
      end
  end.

(** The consumer is resumed once for each outcome of [sends], as long as
    it has not ended. *)
Fixpoint consume (sends : list (option exn)) (session_id : SessionID)
    (queue websocket : ref) (m : t) : consumer * t :=
  match sends with
  | [] => (Waiting, m)
  | send :: sends' =>
      match consumer_step send session_id queue websocket m with
      | (Waiting, m') => consume sends' session_id queue websocket m'
      | (Ended, m') => (Ended, m')
      end
  end.

(** The task of the consumer is cancelled while it waits in
    [queue.get()]: only the [finally] clause runs. *)
Definition consumer_cancelled (session_id : SessionID) (m : t) : t :=
  disconnect session_id m.

(** [broadcast] for each chunk of [datas] in turn. *)
Definition broadcast_all (session_id : SessionID) (datas : list bytes)
    (m : t) : t :=
  foldl (λ m data, broadcast session_id data m) m datas.

End ConnectionManager.

(** A client connects for "s1" with the WebSocket 10 and gets the queue 0;
    one chunk is broadcast; then a client connects for "s1" again, with the
    WebSocket 11, and gets the queue 1, while the first consumer still
    holds the queue 0. *)
Module Reconnect.
Import ConnectionManager.

Definition first : t := snd (connect None "s1" 10 empty).

Definition second : t :=
  snd (connect None "s1" 11 (broadcast "s1" [Byte.x01] first)).

End Reconnect.

(** ** services/redis_client.py: RedisClient *)

Module RedisClient.

(** The [Redis] object made by [Redis.from_url]. *)
Record Redis := {
  pinged : bool;
  closed : bool
}.

(** [self.client] *)
Record t := {
  client : option Redis
}.

(** [RedisClient(url)] *)
Definition new : t := {| client := None |}.

(** [from_url] and [ping] are the outcomes of [Redis.from_url] and of
    [await self.client.ping()]; the [except] clause raises the exception
    it has caught. *)
Definition connect (from_url ping : option exn) (c : t) : result unit * t :=
  match from_url with
  | Some e => (Raise e, c)
  | None =>
      let c1 := {| client := Some {| pinged := false; closed := false |} |} in
      match ping with
      | Some e => (Raise e, c1)
      | None =>
          (Ok tt, {| client := Some {| pinged := true; closed := false |} |})
      end
  end.

(** [close] is the outcome of [await self.client.close()]. *)
Definition disconnect (close : option exn) (c : t) : result unit * t :=
  match client c with
  | Some r =>
      match close with
      | Some e => (Raise e, c)
      | None => (Ok tt, {| client := Some {| pinged := pinged r;
                                             closed := true |} |})
      end
  | None => (Ok tt, c)
  end.

Definition get_client (c : t) : result Redis :=
  match client c with
  | None => Raise RuntimeError
  | Some r => Ok r
  end.

(** The calls made on the client object during the life of the process. *)
Inductive op :=
| Connect (from_url ping : option exn)
| Disconnect (close : option exn).

Definition run_op (o : op) (c : t) : t :=
  match o with
  | Connect from_url ping => snd (connect from_url ping c)
  | Disconnect close => snd (disconnect close c)
  end.

Definition run (ops : list op) (c : t) : t := foldl (λ c o, run_op o c) c ops.

(** [Redis.from_url] has returned in this call. *)
Definition made_client (o : op) : bool :=
  match o with
  | Connect None _ => true
  | _ => false
  end.

End RedisClient.

(** * Properties *)

(** Unfolds the combinators of [M]. *)
Ltac run_M :=
  unfold mbind, M_bind, mret, M_ret, bind, ret, raise, gets, modify,
    try_except, try_finally, external in *.

(** ** asyncio.Queue *)

Lemma full_spec (q : Queue.t) :
  0 < Queue.maxsize q →
  Queue.full q = true ↔ Queue.maxsize q ≤ Queue.qsize q.
Proof.
  unfold Queue.full. intros Hn.
  destruct (Nat.eqb_spec (Queue.maxsize q) 0) as [E|E]; [lia|].
  apply Nat.leb_le.
Qed.

Lemma same_but_queues_refl (w : World) : same_but_queues w w.
Proof. by repeat split. Qed.

(** ** Enqueueing on a bounded queue without a consumer *)

Section bounded_enqueue.
Context {A : Type}.
(** [f] is one of the [queue_*] methods for a fixed session, [mk a] the
    item it puts, [registered] what it needs of the stores to find the
    queue object [r]. *)
Variable f : A → M bool.
Variable mk : A → item.
Variable r : ref.
Variable registered : SessionStores → Prop.
Hypothesis f_call : ∀ a w q,
  registered (stores w) → queues w !! r = Some q →
  f a w = if Queue.full q then (Ok false, w)
          else (Ok true, with_queues <[r := pushed (mk a) q]> w).

Variable n : nat.
Hypothesis n_pos : 0 < n.

Lemma run_calls_bounded args : ∀ w q,
  registered (stores w) →
  queues w !! r = Some q →
  Queue.maxsize q = n →
  fst (run_calls f args w)
    = (λ i, Ok (Queue.qsize q + i <? n)) <$> seq 0 (length args)
  ∧ same_but_queues w (snd (run_calls f args w))
  ∧ queues (snd (run_calls f args w)) !! r
    = Some {| Queue.items :=
                Queue.items q ++ (mk <$> take (n - Queue.qsize q) args);
              Queue.maxsize := n;
              Queue.unfinished_tasks :=
                Queue.unfinished_tasks q
                + (n - Queue.qsize q) `min` length args |}.
Proof using f_call n_pos.
  induction args as [|a args IH]; intros w q Hs Hq Hm.
  - simpl. split; [done|]. split; [apply same_but_queues_refl|].
    rewrite Hq. f_equal. destruct q as [its m u]. simpl in *. subst.
    by rewrite take_nil, app_nil_r, Nat.min_0_r, Nat.add_0_r.
  - cbn [run_calls length].
    rewrite (f_call a w q Hs Hq).
    destruct (Queue.full q) eqn:Hf.
    + apply full_spec in Hf; [|lia].
      destruct (IH w q Hs Hq Hm) as (IH1 & IH2 & IH3).
      destruct (run_calls f args w) as [rs w2]. simpl in *.
      split; [|split; [done|]].
      * f_equal.
        { f_equal. symmetry. apply Nat.ltb_ge. lia. }
        rewrite IH1, <- fmap_S_seq, <- list_fmap_compose.
        apply list_fmap_ext. intros _ i _. simpl. f_equal.
        rewrite !(proj2 (Nat.ltb_ge _ _)); [done|lia|lia].
      * rewrite IH3. f_equal.
        replace (n - Queue.qsize q) with 0 by lia.
        by rewrite !take_0.
    + assert (Queue.qsize q < n) as Hlt.
      { destruct (decide (Queue.qsize q < n)); [done|].
        assert (Queue.full q = true); [|congruence].
        apply full_spec; lia. }
      set (q' := pushed (mk a) q).
      set (w' := with_queues <[r := q']> w).
      assert (queues w' !! r = Some q') as Hq' by apply lookup_insert_eq.
      assert (Queue.qsize q' = S (Queue.qsize q)) as Hsz.
      { unfold Queue.qsize, q', pushed. simpl. rewrite length_app. simpl. lia. }
      destruct (IH w' q' Hs Hq' Hm) as (IH1 & IH2 & IH3).
      destruct (run_calls f args w') as [rs w2]. simpl in *.
      split; [|split].
      * f_equal.
        { f_equal. symmetry. apply Nat.ltb_lt. lia. }
        rewrite IH1, <- fmap_S_seq, <- list_fmap_compose.
        apply list_fmap_ext. intros _ i _. simpl. f_equal.
        rewrite Hsz. f_equal. lia.
      * destruct IH2 as (?&?&?&?&?&?&?). by repeat split.
      * rewrite IH3. f_equal. rewrite Hsz.
        replace (n - Queue.qsize q) with (S (n - S (Queue.qsize q))) by lia.
        simpl. rewrite <- app_assoc. simpl.
        f_equal. lia.
Qed.

End bounded_enqueue.

Lemma count_ltb_seq (k n : nat) :
  count (λ r, succeeded r) ((λ i, Ok (i <? k)) <$> seq 0 n) = k `min` n
  ∧ count (λ r, failed r) ((λ i, Ok (i <? k)) <$> seq 0 n) = n - k.
Proof.
  unfold count. induction n as [|n [IH1 IH2]]; [simpl; split; lia|].
  rewrite seq_S, fmap_app, !List.filter_app, !length_app, IH1, IH2.
  simpl. destruct (Nat.ltb_spec n k); simpl; lia.
Qed.

(** ** queue_audio: capacity 50, drop on full *)

Lemma queue_audio_call (sid : SessionID) (r : ref) (c : bytes) (w : World)
    (q : Queue.t) :
  audio_send_queues (stores w) !! sid = Some r →
  queues w !! r = Some q →
  GeminiLiveClient.queue_audio sid c w =
    if Queue.full q then (Ok false, w)
    else (Ok true, with_queues <[r := pushed (audio_item c) q]> w).
Proof.
  intros Hs Hq. unfold GeminiLiveClient.queue_audio. run_M.
  unfold put_nowait, Queue.put_nowait.
  rewrite Hs. simpl. rewrite Hq.
  by destruct (Queue.full q).
Qed.

(** C5. On a session whose audio queue is the empty queue of capacity 50
    made by [create_webrtc_session], and with no processor taking items,
    any sequence of [queue_audio] calls returns at once: call number [i]
    (from 0) returns [True] exactly when [i < 50]; the queue ends up holding
    the first 50 chunks in order; there are [min 50 n] successes and
    [n - 50] failures (50 and 10 for 60 calls); and once 50 chunks are in, a
    further call returns [False] and changes nothing at all. *)
Theorem queue_audio_capacity (w : World) (sid : SessionID) (r : ref)
    (chunks : list bytes) :
  audio_send_queues (stores w) !! sid = Some r →
  queues w !! r = Some (Queue.new 50) →
  let run := run_calls (GeminiLiveClient.queue_audio sid) chunks w in
  fst run = (λ i, Ok (i <? 50)) <$> seq 0 (length chunks)
  ∧ Queue.items <$> queues (snd run) !! r = Some (audio_item <$> take 50 chunks)
  ∧ count succeeded (fst run) = 50 `min` length chunks
  ∧ count failed (fst run) = length chunks - 50
  ∧ (∀ c, 50 ≤ length chunks →
       GeminiLiveClient.queue_audio sid c (snd run) = (Ok false, snd run)).
Proof.
  intros Hs Hq run.
  destruct (run_calls_bounded (GeminiLiveClient.queue_audio sid) audio_item r
              (λ s, audio_send_queues s !! sid = Some r)
              (λ a w q, queue_audio_call sid r a w q) 50 (Nat.lt_0_succ 49)
              chunks w (Queue.new 50) Hs Hq eq_refl) as (H1 & H2 & H3).
  fold run in H1, H2, H3. simpl in H1, H3.
  split; [done|]. split; [by rewrite H3|].
  split; [rewrite H1; apply count_ltb_seq|].
  split; [rewrite H1; apply count_ltb_seq|].
  intros c Hlen.
  destruct H2 as (Hst & _).
  rewrite (queue_audio_call sid r c (snd run) _ ltac:(by rewrite Hst) H3).
  match goal with |- context [Queue.full ?q] =>
    assert (Queue.full q = true) as ->; [|done] end.
  apply full_spec; simpl; [lia|].
  unfold Queue.qsize. simpl. rewrite length_fmap, length_take. lia.
Qed.

Lemma queue_audio_capacity_witness :
  let run := run_calls (GeminiLiveClient.queue_audio "s1")
               (repeat Scenario.chunk320 60) Scenario.created in
  audio_send_queues (stores Scenario.created) !! "s1" = Some 1
  ∧ queues Scenario.created !! 1 = Some (Queue.new 50)
  ∧ count succeeded (fst run) = 50
  ∧ count failed (fst run) = 10.
Proof.
  split; [reflexivity|]. split; [reflexivity|].
  destruct (queue_audio_capacity Scenario.created "s1" 1
              (repeat Scenario.chunk320 60) eq_refl eq_refl)
    as (_ & _ & H3 & H4 & _).
  split; [exact H3 | exact H4].
Defined.

(** ** queue_image: capacity 1, drop on full *)

Lemma queue_image_call (sid : SessionID) (r : ref) (f : bytes * string)
    (w : World) (q : Queue.t) :
  media_send_queues (stores w) !! sid = Some r →
  queues w !! r = Some q →
  GeminiLiveClient.queue_image sid f.1 f.2 w =
    if Queue.full q then (Ok false, w)
    else (Ok true, with_queues <[r := pushed (image_item f) q]> w).
Proof.
  intros Hs Hq. unfold GeminiLiveClient.queue_image. run_M.
  unfold put_nowait, Queue.put_nowait.
  rewrite Hs. simpl. rewrite Hq.
  by destruct (Queue.full q).
Qed.

(** One iteration of the media processor on an image whose send succeeds:
    the image goes out on the processor's connection, [images_sent] of its
    statistics grows by one, the item leaves the queue. *)
Lemma media_step_forwards (w : World) (tid r : ref) (t : Task) (fr : frame)
    (q : Queue.t) (d : bytes) (m : string) (rest : list item) :
  tasks w !! tid = Some t →
  t_role t = MediaProcessor →
  t_state t = Suspended AtGet fr →
  f_queue fr = Some r →
  queues w !! r = Some q →
  Queue.items q = ItemDict d m :: rest →
  0 < Queue.unfinished_tasks q →
  str_in "image" m = true →
  let w' := GeminiLiveClient.processor_step None tid w in
  conns w' = alter (λ s, {| is_open := is_open s;
                            sent := sent s ++ [RealtimeVideo d m] |})
               (f_session fr) (conns w)
  ∧ stats_objs w' = alter (bump "images_sent") (f_stats fr) (stats_objs w)
  ∧ Queue.items <$> queues w' !! r = Some rest
  ∧ calls w' = calls w
  ∧ stores w' = stores w
  ∧ t_state <$> tasks w' !! tid = Some (Suspended AtSleep fr).
Proof.
  intros Ht Hrole Hst Hfq Hq Hitems Hun Himg.
  unfold GeminiLiveClient.processor_step. rewrite Ht, Hst, Hfq, Hq. simpl.
  unfold Queue.get_nowait. rewrite Hitems, Hrole.
  unfold GeminiLiveClient._process_media_queue_item, GeminiLiveClient.send.
  run_M. rewrite Himg. simpl.
  unfold task_done. simpl. rewrite lookup_insert_eq.
  unfold Queue.task_done. simpl.
  destruct (Queue.unfinished_tasks q) as [|u] eqn:Hu; [lia|]. simpl.
  repeat split; try done.
  - by rewrite lookup_insert_eq.
  - by rewrite lookup_alter_eq, Ht.
Qed.

(** C3, as the code has it.  On a session whose media queue is the empty
    queue of capacity 1 made by [create_webrtc_session], and with no
    processor taking items while the calls are made, a sequence of
    [queue_image] calls keeps the FIRST frame: the first call returns [True],
    every later call returns [False] and its frame is dropped, and the queue
    holds the first frame alone.  When the media processor then runs one
    iteration and the send succeeds, that first frame (its mime type
    containing "image") is what is forwarded to the dialogue connection, and
    the queue is empty again. *)
Theorem queue_image_keeps_first (w : World) (sid : SessionID) (r : ref)
    (d : bytes) (m : string) (later : list (bytes * string)) :
  media_send_queues (stores w) !! sid = Some r →
  queues w !! r = Some (Queue.new 1) →
  let run := run_calls (λ f, GeminiLiveClient.queue_image sid f.1 f.2)
               ((d, m) :: later) w in
  fst run = Ok true :: ((λ _, Ok false) <$> later)
  ∧ Queue.items <$> queues (snd run) !! r = Some [ItemDict d m]
  ∧ (∀ tid t fr conn,
       tasks w !! tid = Some t →
       t_role t = MediaProcessor →
       t_state t = Suspended AtGet fr →
       f_queue fr = Some r →
       conns w !! f_session fr = Some conn →
       str_in "image" m = true →
       let w' := GeminiLiveClient.processor_step None tid (snd run) in
       sent <$> conns w' !! f_session fr = Some (sent conn ++ [RealtimeVideo d m])
       ∧ Queue.items <$> queues w' !! r = Some []).
Proof.
  intros Hs Hq run.
  destruct (run_calls_bounded
              (λ f, GeminiLiveClient.queue_image sid f.1 f.2) image_item r
              (λ s, media_send_queues s !! sid = Some r)
              (λ a w q, queue_image_call sid r a w q) 1 (Nat.lt_0_succ 0)
              ((d, m) :: later) w (Queue.new 1) Hs Hq eq_refl) as (H1 & H2 & H3).
  fold run in H1, H2, H3. simpl in H1, H3.
  split; [|split].
  - rewrite H1. f_equal.
    assert (∀ k, (λ i, Ok (i <? 1)) <$> seq (S k) (length later)
                 = (λ _, @Ok bool false) <$> later) as Hrest; [|apply Hrest].
    clear. induction later as [|x l IH]; intros k; [done|].
    simpl. f_equal. apply IH.
  - by rewrite H3.
  - intros tid t fr conn Ht Hrole Hst Hfq Hconn Himg w'.
    destruct H2 as (_ & Htasks & _ & Hconns & _).
    destruct (media_step_forwards (snd run) tid r t fr _ d m []
                ltac:(by rewrite Htasks) Hrole Hst Hfq H3 eq_refl
                ltac:(simpl; lia) Himg) as (Hc & _ & Hi & _).
    fold w' in Hc, Hi. split; [|done].
    by rewrite Hc, lookup_alter_eq, Hconns, Hconn.
Qed.

Lemma queue_image_keeps_first_witness :
  let run := run_calls (λ f, GeminiLiveClient.queue_image "s1" f.1 f.2)
               [(Scenario.frame1, "image/jpeg"); (Scenario.frame2, "image/jpeg")]
               Scenario.running in
  media_send_queues (stores Scenario.running) !! "s1" = Some 2
  ∧ queues Scenario.running !! 2 = Some (Queue.new 1)
  ∧ fst run = [Ok true; Ok false]
  ∧ Queue.items <$> queues (snd run) !! 2
    = Some [ItemDict Scenario.frame1 "image/jpeg"].
Proof.
  split; [reflexivity|]. split; [reflexivity|].
  destruct (queue_image_keeps_first Scenario.running "s1" 2 Scenario.frame1
              "image/jpeg" [(Scenario.frame2, "image/jpeg")] eq_refl eq_refl)
    as (H1 & H2 & _).
  split; [exact H1 | exact H2].
Defined.

(** C3 as stated fails: after two [queue_image] calls on a running session
    with nothing drained in between, the queue holds the first frame and not
    the most recent one, the second call has returned [False], and the frame
    the media processor forwards is the first. *)
Lemma queue_image_latest_not_kept :
  let run := run_calls (λ f, GeminiLiveClient.queue_image "s1" f.1 f.2)
               [(Scenario.frame1, "image/jpeg"); (Scenario.frame2, "image/jpeg")]
               Scenario.running in
  fst run = [Ok true; Ok false]
  ∧ Queue.items <$> queues (snd run) !! 2
    ≠ Some [ItemDict Scenario.frame2 "image/jpeg"]
  ∧ sent <$> conns (GeminiLiveClient.processor_step None 6 (snd run)) !! 0
    = Some [RealtimeVideo Scenario.frame1 "image/jpeg"]
  ∧ Queue.items <$> queues (GeminiLiveClient.processor_step None 6 (snd run)) !! 2
    = Some [].
Proof.
  split; [reflexivity|]. split; [|split; reflexivity].
  vm_compute. discriminate.
Qed.

(** ** The response listener *)

Lemma alter_set_state_same (ts : gmap ref Task) (tid : ref) (t : Task) :
  ts !! tid = Some t →
  alter (set_state (t_state t)) tid ts = ts.
Proof.
  intros Ht. apply map_eq. intros i.
  destruct (decide (i = tid)) as [->|Hne].
  - rewrite lookup_alter_eq, Ht. by destruct t.
  - by rewrite lookup_alter_ne.
Qed.

(** C7. When the listener receives an event marked interrupted
    ([server_content] present with a true [interrupted]), nothing of the
    process changes: no callback is invoked (neither on-audio nor on-text),
    [audio_received] keeps its value, and this whatever audio or text the
    event carries. *)
Theorem interrupted_event_skipped (w : World) (tid : ref)
    (response : GeminiLiveClient.Response) :
  GeminiLiveClient.is_interrupted response = true →
  GeminiLiveClient.listener_step response tid w = w
  ∧ calls (GeminiLiveClient.listener_step response tid w) = calls w
  ∧ ∀ sid, stat sid "audio_received" (GeminiLiveClient.listener_step response tid w)
           = stat sid "audio_received" w.
Proof.
  intros Hi.
  assert (GeminiLiveClient.listener_step response tid w = w) as ->; [|done].
  unfold GeminiLiveClient.listener_step.
  destruct (tasks w !! tid) as [t|] eqn:Ht; [|done].
  destruct (t_role t); try done.
  destruct (t_state t) as [|p fr| | |] eqn:Hst; try done.
  destruct p; try done.
  unfold GeminiLiveClient._listen_for_responses_event. rewrite Hi. run_M. simpl.
  rewrite <- Hst.
  unfold with_tasks. rewrite (alter_set_state_same _ _ _ Ht). by destruct w.
Qed.

Lemma interrupted_event_skipped_witness :
  GeminiLiveClient.is_interrupted Events.interrupted_with_audio = true
  ∧ calls (GeminiLiveClient.listener_step Events.interrupted_with_audio 4
             Scenario.running) = []
  ∧ stat "s1" "audio_received"
      (GeminiLiveClient.listener_step Events.interrupted_with_audio 4
         Scenario.running) = 0%Z.
Proof.
  split; [reflexivity|].
  destruct (interrupted_event_skipped Scenario.running 4
              Events.interrupted_with_audio eq_refl) as (_ & H2 & H3).
  split; [exact H2 | exact (H3 "s1")].
Defined.

(** The same payload without the interrupted mark does reach the on-audio
    callback and is counted. *)
Lemma plain_event_delivered :
  calls (GeminiLiveClient.listener_step Events.plain_audio 4 Scenario.running)
    = [CallAudio "on_audio" [Byte.x01; Byte.x02]]
  ∧ stat "s1" "audio_received"
      (GeminiLiveClient.listener_step Events.plain_audio 4 Scenario.running)
    = 1%Z.
Proof. split; reflexivity. Qed.

(** ** The send processors *)

(** C10. A send processor takes an item that it does not accept (for the
    audio processor a dict whose mime type lacks "audio"; for the media
    processor a string, or a dict whose mime type lacks "image").  Whatever a
    send would have done, nothing is forwarded on any connection, no counter
    changes, no callback (the error callback included) is invoked; the item is
    gone from the queue and [task_done] has been called for it; the processor
    reaches its [sleep(0)] and, the session still being registered, waits for
    the next item. *)
Theorem unexpected_item_discarded (w : World) (tid r : ref) (t : Task)
    (fr : frame) (q : Queue.t) (it : item) (rest : list item)
    (outcome : option exn) :
  tasks w !! tid = Some t →
  t_role t ≠ ResponseListener →
  t_state t = Suspended AtGet fr →
  f_queue fr = Some r →
  queues w !! r = Some q →
  Queue.items q = it :: rest →
  0 < Queue.unfinished_tasks q →
  processor_accepts (t_role t) it = false →
  let w' := GeminiLiveClient.processor_step outcome tid w in
  conns w' = conns w
  ∧ stats_objs w' = stats_objs w
  ∧ calls w' = calls w
  ∧ queues w' !! r = Some {| Queue.items := rest;
                             Queue.maxsize := Queue.maxsize q;
                             Queue.unfinished_tasks :=
                               pred (Queue.unfinished_tasks q) |}
  ∧ t_state <$> tasks w' !! tid = Some (Suspended AtSleep fr)
  ∧ (is_Some (sessions (stores w) !! t_session_id t) →
     t_state <$> tasks (GeminiLiveClient.processor_resume tid w') !! tid
       = Some (Suspended AtGet fr)).
Proof.
  intros Ht Hrole Hst Hfq Hq Hitems Hun Hacc w'.
  assert (w' = with_tasks (alter (set_state (Suspended AtSleep fr)) tid)
                 (with_queues
                    <[r := {| Queue.items := rest;
                              Queue.maxsize := Queue.maxsize q;
                              Queue.unfinished_tasks :=
                                pred (Queue.unfinished_tasks q) |}]> w)) as ->.
  { unfold w', GeminiLiveClient.processor_step.
    rewrite Ht, Hst, Hfq, Hq. simpl.
    unfold Queue.get_nowait. rewrite Hitems.
    destruct (Queue.unfinished_tasks q) as [|u] eqn:Hu; [lia|].
    destruct (t_role t) eqn:Hr; [done| |].
    - unfold GeminiLiveClient._process_audio_queue_item. run_M.
      destruct it as [s|d m]; simpl in Hacc; [done|]. rewrite Hacc. simpl.
      unfold task_done. simpl. rewrite lookup_insert_eq.
      unfold Queue.task_done. simpl.
      unfold with_queues. simpl. by rewrite insert_insert_eq.
    - unfold GeminiLiveClient._process_media_queue_item. run_M.
      destruct it as [s|d m]; simpl in Hacc; [|rewrite Hacc].
      all: simpl; unfold task_done; simpl; rewrite lookup_insert_eq.
      all: unfold Queue.task_done; simpl.
      all: unfold with_queues; simpl; by rewrite insert_insert_eq. }
  simpl. repeat split; try done.
  - by rewrite lookup_insert_eq.
  - by rewrite lookup_alter_eq, Ht.
  - intros Hs. unfold GeminiLiveClient.processor_resume. simpl.
    rewrite lookup_alter_eq, Ht. simpl.
    rewrite bool_decide_true by done. simpl.
    by rewrite lookup_alter_eq, lookup_alter_eq, Ht.
Qed.

Lemma unexpected_item_discarded_witness :
  let w := snd (GeminiLiveClient.queue_image "s1" Scenario.frame1 "text/plain"
                  Scenario.running) in
  let w' := GeminiLiveClient.processor_step None 6 w in
  processor_accepts MediaProcessor (ItemDict Scenario.frame1 "text/plain") = false
  ∧ Queue.items <$> queues w !! 2 = Some [ItemDict Scenario.frame1 "text/plain"]
  ∧ conns w' = conns w
  ∧ stats_objs w' = stats_objs w
  ∧ calls w' = calls w
  ∧ Queue.items <$> queues w' !! 2 = Some [].
Proof.
  intros w w'.
  split; [reflexivity|]. split; [reflexivity|].
  destruct (unexpected_item_discarded w 6 2
              {| t_session_id := "s1"; t_role := MediaProcessor;
                 t_state := Suspended AtGet
                   {| f_session := 0; f_queue := Some 2; f_stats := 3;
                      f_callbacks := {| on_audio := None; on_text := None;
                                        on_error := None |} |} |}
              _ (pushed (ItemDict Scenario.frame1 "text/plain") (Queue.new 1))
              (ItemDict Scenario.frame1 "text/plain") [] None
              eq_refl ltac:(discriminate) eq_refl eq_refl eq_refl eq_refl
              ltac:(simpl; lia) eq_refl)
    as (H1 & H2 & H3 & H4 & _).
  split; [exact H1|]. split; [exact H2|]. split; [exact H3|].
  unfold w'. rewrite H4. reflexivity.
Defined.

(** One iteration of the audio processor on an audio chunk whose send
    succeeds. *)
Lemma audio_step_forwards (w : World) (tid r : ref) (t : Task) (fr : frame)
    (q : Queue.t) (d : bytes) (m : string) (rest : list item) :
  tasks w !! tid = Some t →
  t_role t = AudioProcessor →
  t_state t = Suspended AtGet fr →
  f_queue fr = Some r →
  queues w !! r = Some q →
  Queue.items q = ItemDict d m :: rest →
  0 < Queue.unfinished_tasks q →
  str_in "audio" m = true →
  let w' := GeminiLiveClient.processor_step None tid w in
  conns w' = alter (λ s, {| is_open := is_open s;
                            sent := sent s ++ [RealtimeAudio d m] |})
               (f_session fr) (conns w)
  ∧ stats_objs w' = alter (bump "audio_sent") (f_stats fr) (stats_objs w)
  ∧ Queue.items <$> queues w' !! r = Some rest
  ∧ calls w' = calls w
  ∧ stores w' = stores w
  ∧ t_state <$> tasks w' !! tid = Some (Suspended AtSleep fr).
Proof.
  intros Ht Hrole Hst Hfq Hq Hitems Hun Haud.
  unfold GeminiLiveClient.processor_step. rewrite Ht, Hst, Hfq, Hq. simpl.
  unfold Queue.get_nowait. rewrite Hitems, Hrole.
  unfold GeminiLiveClient._process_audio_queue_item, GeminiLiveClient.send.
  run_M. rewrite Haud. simpl.
  unfold task_done. simpl. rewrite lookup_insert_eq.
  unfold Queue.task_done. simpl.
  destruct (Queue.unfinished_tasks q) as [|u] eqn:Hu; [lia|]. simpl.
  repeat split; try done.
  - by rewrite lookup_insert_eq.
  - by rewrite lookup_alter_eq, Ht.
Qed.

Lemma stat_bump (w : World) (sid : SessionID) (sr : ref) (key : string) :
  session_stats (stores w) !! sid = Some sr →
  is_Some (stats_objs w !! sr) →
  ∀ w', stores w' = stores w →
        stats_objs w' = alter (bump key) sr (stats_objs w) →
        stat sid key w' = (stat sid key w + 1)%Z.
Proof.
  intros Hs [d Hd] w' Hst Hso. unfold stat.
  rewrite Hst, Hs, Hso, lookup_alter_eq, Hd. simpl.
  unfold bump. by rewrite lookup_insert_eq.
Qed.

(** ** audio_sent and images_sent are counted at two points *)

Lemma handle_audio_frame_enqueued (w : World) (sid : SessionID) (qr sr : ref)
    (q : Queue.t) (audio_data : bytes) :
  audio_send_queues (stores w) !! sid = Some qr →
  queues w !! qr = Some q →
  Queue.full q = false →
  session_stats (stores w) !! sid = Some sr →
  snd (GeminiLiveClient.handle_audio_frame sid audio_data w)
    = bump_stat sr "audio_sent"
        (with_queues <[qr := pushed (audio_item audio_data) q]> w).
Proof.
  intros Hq Hqo Hfull Hs. unfold GeminiLiveClient.handle_audio_frame. run_M.
  rewrite (queue_audio_call sid qr audio_data w q Hq Hqo), Hfull.
  unfold GeminiLiveClient.get_stats. run_M. simpl. by rewrite Hs.
Qed.

Lemma handle_video_frame_enqueued (w : World) (sid : SessionID) (qr sr : ref)
    (q : Queue.t) (frame_data : bytes) :
  media_send_queues (stores w) !! sid = Some qr →
  queues w !! qr = Some q →
  Queue.full q = false →
  session_stats (stores w) !! sid = Some sr →
  snd (GeminiLiveClient.handle_video_frame sid frame_data w)
    = bump_stat sr "images_sent"
        (with_queues <[qr := pushed (image_item (frame_data, "image/jpeg")) q]> w).
Proof.
  intros Hq Hqo Hfull Hs. unfold GeminiLiveClient.handle_video_frame. run_M.
  pose proof (queue_image_call sid qr (frame_data, "image/jpeg") w q Hq Hqo)
    as Hcall.
  simpl in Hcall. rewrite Hcall, Hfull.
  unfold GeminiLiveClient.get_stats. run_M. simpl. by rewrite Hs.
Qed.

Lemma audio_frame_counted_twice (w : World) (sid : SessionID)
    (qr sr tid : ref) (t : Task) (fr : frame) (q : Queue.t)
    (audio_data : bytes) :
  audio_send_queues (stores w) !! sid = Some qr →
  queues w !! qr = Some q →
  Queue.items q = [] →
  Queue.full q = false →
  session_stats (stores w) !! sid = Some sr →
  is_Some (stats_objs w !! sr) →
  tasks w !! tid = Some t →
  t_role t = AudioProcessor →
  t_state t = Suspended AtGet fr →
  f_queue fr = Some qr →
  f_stats fr = sr →
  let w1 := snd (GeminiLiveClient.handle_audio_frame sid audio_data w) in
  let w2 := GeminiLiveClient.processor_step None tid w1 in
  stat sid "audio_sent" w1 = (stat sid "audio_sent" w + 1)%Z
  ∧ stat sid "audio_sent" w2 = (stat sid "audio_sent" w + 2)%Z
  ∧ conns w2 = alter (λ s, {| is_open := is_open s;
                              sent := sent s ++ [RealtimeAudio audio_data "audio/pcm"] |})
                 (f_session fr) (conns w).
Proof.
  intros Hq Hqo Hempty Hfull Hs Hso Ht Hrole Hst Hfq Hfs w1 w2.
  assert (w1 = bump_stat sr "audio_sent"
                 (with_queues <[qr := pushed (audio_item audio_data) q]> w)) as Hw1
    by (by apply handle_audio_frame_enqueued).
  assert (stat sid "audio_sent" w1 = (stat sid "audio_sent" w + 1)%Z) as H1.
  { apply (stat_bump w sid sr); [done|done|by rewrite Hw1|by rewrite Hw1]. }
  destruct (audio_step_forwards w1 tid qr t fr
              (pushed (audio_item audio_data) q) audio_data "audio/pcm" [])
    as (Hc & Hstats & _ & _ & Hstores & _);
    try done.
  - by rewrite Hw1.
  - rewrite Hw1. simpl. by rewrite lookup_insert_eq.
  - simpl. by rewrite Hempty.
  - simpl. lia.
  - fold w2 in Hc, Hstats, Hstores.
    split; [done|]. split; [|by rewrite Hc, Hw1].
    rewrite (stat_bump w1 sid sr "audio_sent" ltac:(by rewrite Hw1)
               ltac:(rewrite Hw1; simpl; rewrite lookup_alter_eq;
                     destruct Hso as [d ->]; by eexists)
               w2 Hstores ltac:(by rewrite Hstats, Hfs)).
    rewrite H1. lia.
Qed.

Lemma video_frame_counted_twice (w : World) (sid : SessionID)
    (qr sr tid : ref) (t : Task) (fr : frame) (q : Queue.t)
    (frame_data : bytes) :
  media_send_queues (stores w) !! sid = Some qr →
  queues w !! qr = Some q →
  Queue.items q = [] →
  Queue.full q = false →
  session_stats (stores w) !! sid = Some sr →
  is_Some (stats_objs w !! sr) →
  tasks w !! tid = Some t →
  t_role t = MediaProcessor →
  t_state t = Suspended AtGet fr →
  f_queue fr = Some qr →
  f_stats fr = sr →
  let w1 := snd (GeminiLiveClient.handle_video_frame sid frame_data w) in
  let w2 := GeminiLiveClient.processor_step None tid w1 in
  stat sid "images_sent" w1 = (stat sid "images_sent" w + 1)%Z
  ∧ stat sid "images_sent" w2 = (stat sid "images_sent" w + 2)%Z
  ∧ conns w2 = alter (λ s, {| is_open := is_open s;
                              sent := sent s ++ [RealtimeVideo frame_data "image/jpeg"] |})
                 (f_session fr) (conns w).
Proof.
  intros Hq Hqo Hempty Hfull Hs Hso Ht Hrole Hst Hfq Hfs w1 w2.
  assert (w1 = bump_stat sr "images_sent"
                 (with_queues
                    <[qr := pushed (image_item (frame_data, "image/jpeg")) q]> w))
    as Hw1 by (by apply handle_video_frame_enqueued).
  assert (stat sid "images_sent" w1 = (stat sid "images_sent" w + 1)%Z) as H1.
  { apply (stat_bump w sid sr); [done|done|by rewrite Hw1|by rewrite Hw1]. }
  destruct (media_step_forwards w1 tid qr t fr
              (pushed (image_item (frame_data, "image/jpeg")) q)
              frame_data "image/jpeg" [])
    as (Hc & Hstats & _ & _ & Hstores & _);
    try done.
  - by rewrite Hw1.
  - rewrite Hw1. simpl. by rewrite lookup_insert_eq.
  - simpl. by rewrite Hempty.
  - simpl. lia.
  - fold w2 in Hc, Hstats, Hstores.
    split; [done|]. split; [|by rewrite Hc, Hw1].
    rewrite (stat_bump w1 sid sr "images_sent" ltac:(by rewrite Hw1)
               ltac:(rewrite Hw1; simpl; rewrite lookup_alter_eq;
                     destruct Hso as [d ->]; by eexists)
               w2 Hstores ltac:(by rewrite Hstats, Hfs)).
    rewrite H1. lia.
Qed.

Lemma audio_frame_counted_at_enqueue (w : World) (sid : SessionID)
    (qr sr : ref) (q : Queue.t) (audio_data : bytes) :
  audio_send_queues (stores w) !! sid = Some qr →
  queues w !! qr = Some q →
  Queue.full q = false →
  session_stats (stores w) !! sid = Some sr →
  is_Some (stats_objs w !! sr) →
  let w1 := snd (GeminiLiveClient.handle_audio_frame sid audio_data w) in
  stat sid "audio_sent" w1 = (stat sid "audio_sent" w + 1)%Z
  ∧ Queue.items <$> queues w1 !! qr
    = Some (Queue.items q ++ [audio_item audio_data]).
Proof.
  intros Hq Hqo Hfull Hs Hso w1.
  assert (w1 = bump_stat sr "audio_sent"
                 (with_queues <[qr := pushed (audio_item audio_data) q]> w)) as ->
    by (by apply handle_audio_frame_enqueued).
  split; [by apply (stat_bump w sid sr)|].
  simpl. by rewrite lookup_insert_eq.
Qed.

Lemma video_frame_counted_at_enqueue (w : World) (sid : SessionID)
    (qr sr : ref) (q : Queue.t) (frame_data : bytes) :
  media_send_queues (stores w) !! sid = Some qr →
  queues w !! qr = Some q →
  Queue.full q = false →
  session_stats (stores w) !! sid = Some sr →
  is_Some (stats_objs w !! sr) →
  let w1 := snd (GeminiLiveClient.handle_video_frame sid frame_data w) in
  stat sid "images_sent" w1 = (stat sid "images_sent" w + 1)%Z
  ∧ Queue.items <$> queues w1 !! qr
    = Some (Queue.items q ++ [image_item (frame_data, "image/jpeg")]).
Proof.
  intros Hq Hqo Hfull Hs Hso w1.
  assert (w1 = bump_stat sr "images_sent"
                 (with_queues
                    <[qr := pushed (image_item (frame_data, "image/jpeg")) q]> w))
    as -> by (by apply handle_video_frame_enqueued).
  split; [by apply (stat_bump w sid sr)|].
  simpl. by rewrite lookup_insert_eq.
Qed.

Lemma audio_frame_counted_at_send (w : World) (sid : SessionID)
    (qr sr tid : ref) (t : Task) (fr : frame) (q : Queue.t)
    (audio_data : bytes) (rest : list item) :
  tasks w !! tid = Some t →
  t_role t = AudioProcessor →
  t_state t = Suspended AtGet fr →
  f_queue fr = Some qr →
  f_stats fr = sr →
  session_stats (stores w) !! sid = Some sr →
  is_Some (stats_objs w !! sr) →
  queues w !! qr = Some q →
  Queue.items q = audio_item audio_data :: rest →
  0 < Queue.unfinished_tasks q →
  let w2 := GeminiLiveClient.processor_step None tid w in
  stat sid "audio_sent" w2 = (stat sid "audio_sent" w + 1)%Z
  ∧ conns w2 = alter (λ s, {| is_open := is_open s;
                              sent := sent s ++ [RealtimeAudio audio_data "audio/pcm"] |})
                 (f_session fr) (conns w).
Proof.
  intros Ht Hrole Hst Hfq Hfs Hs Hso Hq Hitems Hun w2.
  destruct (audio_step_forwards w tid qr t fr q audio_data "audio/pcm" rest)
    as (Hc & Hstats & _ & _ & Hstores & _); try done.
  fold w2 in Hc, Hstats, Hstores. split; [|done].
  apply (stat_bump w sid sr); [done|done|done|by rewrite Hstats, Hfs].
Qed.

Lemma video_frame_counted_at_send (w : World) (sid : SessionID)
    (qr sr tid : ref) (t : Task) (fr : frame) (q : Queue.t)
    (frame_data : bytes) (rest : list item) :
  tasks w !! tid = Some t →
  t_role t = MediaProcessor →
  t_state t = Suspended AtGet fr →
  f_queue fr = Some qr →
  f_stats fr = sr →
  session_stats (stores w) !! sid = Some sr →
  is_Some (stats_objs w !! sr) →
  queues w !! qr = Some q →
  Queue.items q = image_item (frame_data, "image/jpeg") :: rest →
  0 < Queue.unfinished_tasks q →
  let w2 := GeminiLiveClient.processor_step None tid w in
  stat sid "images_sent" w2 = (stat sid "images_sent" w + 1)%Z
  ∧ conns w2 = alter (λ s, {| is_open := is_open s;
                              sent := sent s ++ [RealtimeVideo frame_data "image/jpeg"] |})
                 (f_session fr) (conns w).
Proof.
  intros Ht Hrole Hst Hfq Hfs Hs Hso Hq Hitems Hun w2.
  destruct (media_step_forwards w tid qr t fr q frame_data "image/jpeg" rest)
    as (Hc & Hstats & _ & _ & Hstores & _); try done.
  fold w2 in Hc, Hstats, Hstores. split; [|done].
  apply (stat_bump w sid sr); [done|done|done|by rewrite Hstats, Hfs].
Qed.

(** C9. [audio_sent] is incremented at two points for one audio frame.
    - At enqueue time: whenever [handle_audio_frame] finds room in the
      session's audio queue, the frame is appended and [audio_sent] of the
      session grows by one.
    - At send time: whenever the audio processor, whose [stats] is the
      session's dict, takes that frame from the head of its queue and the
      send succeeds, the frame goes out on the connection and [audio_sent]
      grows by one again.
    - Hence a frame that arrives while the queue is empty and is forwarded
      next raises [audio_sent] by two.
    The same three facts hold for a video frame, [handle_video_frame], the
    media processor and [images_sent]. *)
Theorem sent_counters_count_twice :
  ((∀ (w : World) (sid : SessionID) (qr sr : ref) (q : Queue.t)
      (audio_data : bytes),
      audio_send_queues (stores w) !! sid = Some qr →
      queues w !! qr = Some q →
      Queue.full q = false →
      session_stats (stores w) !! sid = Some sr →
      is_Some (stats_objs w !! sr) →
      let w1 := snd (GeminiLiveClient.handle_audio_frame sid audio_data w) in
      stat sid "audio_sent" w1 = (stat sid "audio_sent" w + 1)%Z
      ∧ Queue.items <$> queues w1 !! qr
        = Some (Queue.items q ++ [audio_item audio_data]))
   ∧ (∀ (w : World) (sid : SessionID) (qr sr tid : ref) (t : Task)
        (fr : frame) (q : Queue.t) (audio_data : bytes) (rest : list item),
        tasks w !! tid = Some t →
        t_role t = AudioProcessor →
        t_state t = Suspended AtGet fr →
        f_queue fr = Some qr →
        f_stats fr = sr →
        session_stats (stores w) !! sid = Some sr →
        is_Some (stats_objs w !! sr) →
        queues w !! qr = Some q →
        Queue.items q = audio_item audio_data :: rest →
        0 < Queue.unfinished_tasks q →
        let w2 := GeminiLiveClient.processor_step None tid w in
        stat sid "audio_sent" w2 = (stat sid "audio_sent" w + 1)%Z
        ∧ conns w2
          = alter (λ s, {| is_open := is_open s;
                           sent := sent s ++ [RealtimeAudio audio_data "audio/pcm"] |})
              (f_session fr) (conns w))
   ∧ (∀ (w : World) (sid : SessionID) (qr sr tid : ref) (t : Task)
        (fr : frame) (q : Queue.t) (audio_data : bytes),
        audio_send_queues (stores w) !! sid = Some qr →
        queues w !! qr = Some q →
        Queue.items q = [] →
        Queue.full q = false →
        session_stats (stores w) !! sid = Some sr →
        is_Some (stats_objs w !! sr) →
        tasks w !! tid = Some t →
        t_role t = AudioProcessor →
        t_state t = Suspended AtGet fr →
        f_queue fr = Some qr →
        f_stats fr = sr →
        let w1 := snd (GeminiLiveClient.handle_audio_frame sid audio_data w) in
        let w2 := GeminiLiveClient.processor_step None tid w1 in
        stat sid "audio_sent" w1 = (stat sid "audio_sent" w + 1)%Z
        ∧ stat sid "audio_sent" w2 = (stat sid "audio_sent" w + 2)%Z
        ∧ conns w2
          = alter (λ s, {| is_open := is_open s;
                           sent := sent s ++ [RealtimeAudio audio_data "audio/pcm"] |})
              (f_session fr) (conns w)))
  ∧
  ((∀ (w : World) (sid : SessionID) (qr sr : ref) (q : Queue.t)
      (frame_data : bytes),
      media_send_queues (stores w) !! sid = Some qr →
      queues w !! qr = Some q →
      Queue.full q = false →
      session_stats (stores w) !! sid = Some sr →
      is_Some (stats_objs w !! sr) →
      let w1 := snd (GeminiLiveClient.handle_video_frame sid frame_data w) in
      stat sid "images_sent" w1 = (stat sid "images_sent" w + 1)%Z
      ∧ Queue.items <$> queues w1 !! qr
        = Some (Queue.items q ++ [image_item (frame_data, "image/jpeg")]))
   ∧ (∀ (w : World) (sid : SessionID) (qr sr tid : ref) (t : Task)
        (fr : frame) (q : Queue.t) (frame_data : bytes) (rest : list item),
        tasks w !! tid = Some t →
        t_role t = MediaProcessor →
        t_state t = Suspended AtGet fr →
        f_queue fr = Some qr →
        f_stats fr = sr →
        session_stats (stores w) !! sid = Some sr →
        is_Some (stats_objs w !! sr) →
        queues w !! qr = Some q →
        Queue.items q = image_item (frame_data, "image/jpeg") :: rest →
        0 < Queue.unfinished_tasks q →
        let w2 := GeminiLiveClient.processor_step None tid w in
        stat sid "images_sent" w2 = (stat sid "images_sent" w + 1)%Z
        ∧ conns w2
          = alter (λ s, {| is_open := is_open s;
                           sent := sent s ++ [RealtimeVideo frame_data "image/jpeg"] |})
              (f_session fr) (conns w))
   ∧ (∀ (w : World) (sid : SessionID) (qr sr tid : ref) (t : Task)
        (fr : frame) (q : Queue.t) (frame_data : bytes),
        media_send_queues (stores w) !! sid = Some qr →
        queues w !! qr = Some q →
        Queue.items q = [] →
        Queue.full q = false →
        session_stats (stores w) !! sid = Some sr →
        is_Some (stats_objs w !! sr) →
        tasks w !! tid = Some t →
        t_role t = MediaProcessor →
        t_state t = Suspended AtGet fr →
        f_queue fr = Some qr →
        f_stats fr = sr →
        let w1 := snd (GeminiLiveClient.handle_video_frame sid frame_data w) in
        let w2 := GeminiLiveClient.processor_step None tid w1 in
        stat sid "images_sent" w1 = (stat sid "images_sent" w + 1)%Z
        ∧ stat sid "images_sent" w2 = (stat sid "images_sent" w + 2)%Z
        ∧ conns w2
          = alter (λ s, {| is_open := is_open s;
                           sent := sent s ++ [RealtimeVideo frame_data "image/jpeg"] |})
              (f_session fr) (conns w))).
Proof.
  split; (split; [|split]).
  - intros. by eapply audio_frame_counted_at_enqueue.
  - intros. by eapply audio_frame_counted_at_send.
  - intros. by eapply audio_frame_counted_twice.
  - intros. by eapply video_frame_counted_at_enqueue.
  - intros. by eapply video_frame_counted_at_send.
  - intros. by eapply video_frame_counted_twice.
Qed.

Lemma sent_counters_count_twice_witness :
  let a1 := snd (GeminiLiveClient.handle_audio_frame "s1" Scenario.chunk320
                   Scenario.running) in
  let a2 := GeminiLiveClient.processor_step None 5 a1 in
  let v1 := snd (GeminiLiveClient.handle_video_frame "s1" Scenario.frame1
                   Scenario.running) in
  let v2 := GeminiLiveClient.processor_step None 6 v1 in
  stat "s1" "audio_sent" Scenario.running = 0%Z
  ∧ stat "s1" "audio_sent" a1 = 1%Z
  ∧ stat "s1" "audio_sent" a2 = 2%Z
  ∧ stat "s1" "images_sent" Scenario.running = 0%Z
  ∧ stat "s1" "images_sent" v1 = 1%Z
  ∧ stat "s1" "images_sent" v2 = 2%Z.
Proof.
  intros a1 a2 v1 v2.
  destruct sent_counters_count_twice as [(_ & _ & Haudio) (_ & _ & Hvideo)].
  destruct (Haudio Scenario.running "s1" 1 3 5
              {| t_session_id := "s1"; t_role := AudioProcessor;
                 t_state := Suspended AtGet
                   {| f_session := 0; f_queue := Some 1; f_stats := 3;
                      f_callbacks := {| on_audio := None; on_text := None;
                                        on_error := None |} |} |}
              _ (Queue.new 50) Scenario.chunk320
              eq_refl eq_refl eq_refl eq_refl eq_refl
              (ex_intro _ GeminiLiveClient.initial_stats eq_refl)
              eq_refl eq_refl eq_refl eq_refl eq_refl) as (A1 & A2 & _).
  destruct (Hvideo Scenario.running "s1" 2 3 6
              {| t_session_id := "s1"; t_role := MediaProcessor;
                 t_state := Suspended AtGet
                   {| f_session := 0; f_queue := Some 2; f_stats := 3;
                      f_callbacks := {| on_audio := None; on_text := None;
                                        on_error := None |} |} |}
              _ (Queue.new 1) Scenario.frame1
              eq_refl eq_refl eq_refl eq_refl eq_refl
              (ex_intro _ GeminiLiveClient.initial_stats eq_refl)
              eq_refl eq_refl eq_refl eq_refl eq_refl) as (V1 & V2 & _).
  split; [reflexivity|]. split; [exact A1|]. split; [exact A2|].
  split; [reflexivity|]. split; [exact V1|exact V2].
Defined.

(** ** SessionService.set_webrtc_answer *)

Lemma absent_no_manager (sid : SessionID) (s : SessionStores) :
  absent sid s → webrtc_managers s !! sid = None.
Proof. by intros (_&_&_&_&_&_&_&?&_). Qed.

(** C6. [set_webrtc_answer] for a session id:
    - when the client has no WebRTC manager for it (in particular when no
      store has an entry for it) or nothing is persisted for it, the call
      fails with HTTP 404 and changes nothing;
    - when both exist and the manager rejects the answer, the call fails with
      HTTP 400 and the persisted record is untouched, so a pending session
      stays pending;
    - when both exist and the manager accepts the answer, the call succeeds
      and the persisted status is "active" (it was "pending"), the other
      persisted fields being kept. *)
Theorem set_webrtc_answer_outcomes (s : SessionService.State)
    (sid : SessionID) (outcome : option exn) :
  let run := SessionService.set_webrtc_answer outcome sid s in
  let key := SessionService.session_key sid in
  ((absent sid (stores (SessionService.gemini_client s))
    ∨ webrtc_managers (stores (SessionService.gemini_client s)) !! sid = None
    ∨ SessionService.redis_client s !! key = None) →
   run = (Raise (HTTPException SessionService.HTTP_404_NOT_FOUND), s))
  ∧ (∀ e, is_Some (webrtc_managers (stores (SessionService.gemini_client s)) !! sid) →
          SessionService.persisted_status sid s = Some "pending" →
          outcome = Some e →
          fst run = Raise (HTTPException SessionService.HTTP_400_BAD_REQUEST)
          ∧ SessionService.redis_client (snd run) = SessionService.redis_client s
          ∧ SessionService.persisted_status sid (snd run) = Some "pending")
  ∧ (is_Some (webrtc_managers (stores (SessionService.gemini_client s)) !! sid) →
     SessionService.persisted_status sid s = Some "pending" →
     outcome = None →
     fst run = Ok tt
     ∧ SessionService.persisted_status sid (snd run) = Some "active"
     ∧ ∀ entry field, SessionService.redis_client s !! key = Some entry →
                      field ≠ "status" →
                      (SessionService.redis_client (snd run) !! key
                         ≫= λ e, SessionService.value e !! field)
                      = SessionService.value entry !! field).
Proof.
  intros run key. unfold run, SessionService.set_webrtc_answer. fold key.
  split; [|split].
  - intros [Habs|[Hm|Hr]].
    + apply absent_no_manager in Habs. rewrite Habs.
      by destruct (SessionService.redis_client s !! key).
    + rewrite Hm. by destruct (SessionService.redis_client s !! key).
    + by rewrite Hr.
  - intros e [mgr Hm] Hp ->. unfold SessionService.persisted_status in *.
    fold key in Hp |- *.
    destruct (SessionService.redis_client s !! key) as [entry|] eqn:Hr; [|done].
    rewrite Hm. simpl. by rewrite Hr.
  - intros [mgr Hm] Hp ->. unfold SessionService.persisted_status in *.
    fold key in Hp |- *.
    destruct (SessionService.redis_client s !! key) as [entry|] eqn:Hr; [|done].
    rewrite Hm. simpl. rewrite lookup_insert_eq. simpl.
    split; [done|]. split; [by rewrite lookup_insert_eq|].
    intros entry' field [= <-] Hne. by rewrite lookup_insert_ne.
Qed.

Lemma set_webrtc_answer_outcomes_witness :
  SessionService.persisted_status "s1" ServiceScenario.pending = Some "pending"
  ∧ fst (SessionService.set_webrtc_answer None "s1" ServiceScenario.pending)
    = Ok tt
  ∧ SessionService.persisted_status "s1"
      (snd (SessionService.set_webrtc_answer None "s1" ServiceScenario.pending))
    = Some "active"
  ∧ fst (SessionService.set_webrtc_answer (Some ValueError) "s1"
           ServiceScenario.pending)
    = Raise (HTTPException 400)
  ∧ SessionService.persisted_status "s1"
      (snd (SessionService.set_webrtc_answer (Some ValueError) "s1"
              ServiceScenario.pending))
    = Some "pending"
  ∧ SessionService.set_webrtc_answer None "s2" ServiceScenario.pending
    = (Raise (HTTPException 404), ServiceScenario.pending).
Proof.
  split; [reflexivity|].
  destruct (set_webrtc_answer_outcomes ServiceScenario.pending "s1" None)
    as (_ & _ & Hok).
  destruct (Hok (ex_intro _ 7 eq_refl) eq_refl eq_refl) as (H1 & H2 & _).
  split; [exact H1|]. split; [exact H2|].
  destruct (set_webrtc_answer_outcomes ServiceScenario.pending "s1"
              (Some ValueError)) as (_ & Hrej & _).
  destruct (Hrej ValueError (ex_intro _ 7 eq_refl) eq_refl eq_refl)
    as (H3 & _ & H4).
  split; [exact H3|]. split; [exact H4|].
  destruct (set_webrtc_answer_outcomes ServiceScenario.pending "s2" None)
    as (Hnf & _).
  exact (Hnf (or_intror (or_introl eq_refl))).
Defined.

(** ** close_session *)

Lemma keeps_stores_ret {A} (a : A) : keeps_stores (ret a).
Proof. done. Qed.

Lemma keeps_stores_gets {A} (f : World → A) : keeps_stores (gets f).
Proof. done. Qed.

Lemma keeps_stores_external (o : option exn) : keeps_stores (external o).
Proof. by destruct o. Qed.

Lemma keeps_stores_modify (f : World → World) :
  (∀ w, stores (f w) = stores w) → keeps_stores (modify f).
Proof. intros Hf w. apply Hf. Qed.

Lemma keeps_stores_bind {A B} (m : M A) (k : A → M B) :
  keeps_stores m → (∀ a, keeps_stores (k a)) → keeps_stores (bind m k).
Proof.
  intros Hm Hk w. unfold bind. specialize (Hm w).
  destruct (m w) as [[a|e] w1]; simpl in *; [|done].
  by rewrite Hk.
Qed.


Lemma keeps_stores_for_each {A} (f : A → M unit) (l : list A) :
  (∀ a, keeps_stores (f a)) → keeps_stores (for_each f l).
Proof.
  intros Hf. induction l as [|a l IH]; [done|].
  simpl. apply keeps_stores_bind; [apply Hf|]. by intros _.
Qed.

Lemma keeps_stores_task_done (r : ref) : keeps_stores (task_done r).
Proof.
  intros w. unfold task_done.
  destruct (queues w !! r) as [q|]; [|done].
  by destruct (Queue.task_done q).
Qed.

(** *** The steps of the event loop during [await task] *)

(** The first step of a coroutine returns a task state and changes neither
    the stores, nor the tasks, nor the callbacks invoked. *)
Lemma enter_spec (r : role) (sid : SessionID) (w : World) :
  ∃ st w',
    match r with
    | ResponseListener => GeminiLiveClient._listen_for_responses_enter sid
    | AudioProcessor => GeminiLiveClient._process_audio_queue_enter sid
    | MediaProcessor => GeminiLiveClient._process_media_queue_enter sid
    end w = (Ok st, w')
    ∧ stores w' = stores w ∧ tasks w' = tasks w ∧ calls w' = calls w.
Proof.
  destruct r; cbn;
    unfold GeminiLiveClient._listen_for_responses_enter,
      GeminiLiveClient._process_audio_queue_enter,
      GeminiLiveClient._process_media_queue_enter,
      GeminiLiveClient.get_stats, new_stats, fresh; run_M;
    repeat match goal with
           | |- context [match ?x !! ?k with _ => _ end] =>
               destruct (x !! k); cbn
           end;
    by eexists _, _.
Qed.

(** A step of a ready task changes the state of that task only. *)
Definition steps_only (tid : ref) (w w' : World) : Prop :=
  stores w' = stores w
  ∧ calls w' = calls w
  ∧ (∀ i, i ≠ tid → tasks w' !! i = tasks w !! i)
  ∧ (∀ t, tasks w !! tid = Some t →
          ∃ t', tasks w' !! tid = Some t'
                ∧ t_session_id t' = t_session_id t
                ∧ t_role t' = t_role t
                ∧ (task_is_done t = true → task_is_done t' = true)).

Lemma steps_only_refl (tid : ref) (w : World) : steps_only tid w w.
Proof. repeat split; try done. intros t Ht. by exists t. Qed.

Lemma steps_only_set_state (tid : ref) (st : task_state) (w w1 : World) :
  stores w1 = stores w → calls w1 = calls w → tasks w1 = tasks w →
  (∀ t, tasks w !! tid = Some t → task_is_done t = false) →
  steps_only tid w (with_tasks (alter (set_state st) tid) w1).
Proof.
  intros Hs Hc Ht Hnd. repeat split; cbn; try done.
  - intros i Hne. by rewrite lookup_alter_ne, Ht.
  - intros t Hl. rewrite lookup_alter_eq, Ht, Hl. cbn.
    eexists. split; [done|]. repeat split. intros Hd.
    by rewrite (Hnd t Hl) in Hd.
Qed.

Lemma steps_only_trans (tid : ref) (w1 w2 w3 : World) :
  steps_only tid w1 w2 → steps_only tid w2 w3 → steps_only tid w1 w3.
Proof.
  intros (Hs & Hc & Ho & Hk) (Hs' & Hc' & Ho' & Hk').
  split; [congruence|]. split; [congruence|]. split.
  - intros i Hne. by rewrite Ho', Ho.
  - intros t Ht. destruct (Hk t Ht) as (t2 & Ht2 & Hs2 & Hr2 & Hd2).
    destruct (Hk' t2 Ht2) as (t3 & Ht3 & Hs3 & Hr3 & Hd3).
    exists t3. repeat split; [done|congruence|congruence|auto].
Qed.

Lemma processor_take_steps (tid : ref) (w : World) :
  steps_only tid w (GeminiLiveClient.processor_take tid w).
Proof.
  unfold GeminiLiveClient.processor_take.
  destruct (tasks w !! tid) as [t|] eqn:Ht; [|apply steps_only_refl].
  destruct (t_state t) as [|p fr| | |] eqn:Hst; try apply steps_only_refl.
  destruct p; try apply steps_only_refl.
  destruct (f_queue fr) as [qr|]; [|apply steps_only_refl].
  destruct (queues w !! qr ≫= Queue.get_nowait) as [[it q']|];
    [|apply steps_only_refl].
  destruct (processor_accepts (t_role t) it); [|apply steps_only_refl].
  apply steps_only_set_state; try done.
  intros t0 Ht0. assert (t0 = t) as -> by congruence.
  unfold task_is_done. by rewrite Hst.
Qed.

Lemma run_ready_task_steps (tid : ref) (w : World) :
  steps_only tid w (GeminiLiveClient.run_ready_task tid w).
Proof.
  unfold GeminiLiveClient.run_ready_task.
  destruct (tasks w !! tid) as [t|] eqn:Ht; [|apply steps_only_refl].
  destruct (t_state t) as [|p fr| | |] eqn:Hst; try apply steps_only_refl.
  - eapply steps_only_trans; [|apply processor_take_steps].
    unfold GeminiLiveClient.start_task. rewrite Ht, Hst.
    destruct (enter_spec (t_role t) (t_session_id t) w)
      as (st & w1 & -> & Hs & Htk & Hc).
    cbn. apply steps_only_set_state; try done.
    intros t0 Ht0. assert (t0 = t) as -> by congruence.
    unfold task_is_done. by rewrite Hst.
  - destruct p; try apply steps_only_refl; [apply processor_take_steps|].
    eapply steps_only_trans; [|apply processor_take_steps].
    unfold GeminiLiveClient.processor_resume. rewrite Ht, Hst.
    assert (∀ t0, tasks w !! tid = Some t0 → task_is_done t0 = false) as Hnd.
    { intros t0 Ht0. assert (t0 = t) as -> by congruence.
      unfold task_is_done. by rewrite Hst. }
    destruct (bool_decide _); by apply steps_only_set_state.
Qed.

Lemma run_ready_tasks_steps (l : list ref) (w : World) :
  let w' := foldl (λ w tid, GeminiLiveClient.run_ready_task tid w) w l in
  stores w' = stores w
  ∧ calls w' = calls w
  ∧ (∀ i, i ∉ l → tasks w' !! i = tasks w !! i)
  ∧ (∀ i t, tasks w !! i = Some t →
            ∃ t', tasks w' !! i = Some t'
                  ∧ t_session_id t' = t_session_id t
                  ∧ t_role t' = t_role t
                  ∧ (task_is_done t = true → task_is_done t' = true)).
Proof.
  revert w. induction l as [|tid l IH]; intros w; cbn.
  { repeat split; try done. intros i t Ht. by exists t. }
  destruct (run_ready_task_steps tid w) as (Hs & Hc & Ho & Hk).
  destruct (IH (GeminiLiveClient.run_ready_task tid w))
    as (Hs' & Hc' & Ho' & Hk').
  split; [by rewrite Hs'|]. split; [by rewrite Hc'|]. split.
  - intros i Hi. apply not_elem_of_cons in Hi as [Hne Hi].
    by rewrite Ho', Ho.
  - intros i t Ht.
    assert (∃ t1, tasks (GeminiLiveClient.run_ready_task tid w) !! i = Some t1
                  ∧ t_session_id t1 = t_session_id t
                  ∧ t_role t1 = t_role t
                  ∧ (task_is_done t = true → task_is_done t1 = true))
      as (t1 & Ht1 & Hs1 & Hr1 & Hd1).
    { destruct (decide (i = tid)) as [->|Hne]; [by apply Hk|].
      exists t. by rewrite Ho. }
    destruct (Hk' i t1 Ht1) as (t2 & Ht2 & Hs2 & Hr2 & Hd2).
    exists t2. repeat split; [done|congruence|congruence|auto].
Qed.

(** While the caller waits for [tid], the stores and the callbacks invoked
    stay as they are, [tid] itself and the tasks the stores do not hold for
    the session are not touched, and no task is lost or revived. *)
Lemma run_ready_spec (sid : SessionID) (tid : ref) (w : World) :
  let w' := GeminiLiveClient.run_ready sid tid w in
  stores w' = stores w
  ∧ calls w' = calls w
  ∧ tasks w' !! tid = tasks w !! tid
  ∧ (∀ i, i ∉ session_tasks sid (stores w) → tasks w' !! i = tasks w !! i)
  ∧ (∀ i t, tasks w !! i = Some t →
            ∃ t', tasks w' !! i = Some t'
                  ∧ t_session_id t' = t_session_id t
                  ∧ t_role t' = t_role t
                  ∧ (task_is_done t = true → task_is_done t' = true)).
Proof.
  intros w'. unfold w', GeminiLiveClient.run_ready.
  destruct (run_ready_tasks_steps
              (List.filter (λ i, negb (Nat.eqb i tid))
                 (session_tasks sid (stores w))) w)
    as (Hs & Hc & Ho & Hk).
  split; [done|]. split; [done|]. split; [|split; [|done]].
  - apply Ho. rewrite list_elem_of_In, filter_In. intros [_ Hne].
    by rewrite Nat.eqb_refl in Hne.
  - intros i Hi. apply Ho. rewrite list_elem_of_In, filter_In.
    intros [Hin _]. by apply Hi, list_elem_of_In.
Qed.

Lemma keeps_stores_on_cancel (r : role) (p : point) (fr : frame) :
  keeps_stores (GeminiLiveClient.on_cancel r p fr).
Proof.
  destruct r, p; simpl; try apply keeps_stores_ret;
    destruct (f_queue fr); try apply keeps_stores_ret;
    apply keeps_stores_task_done.
Qed.

Lemma keeps_stores_cancel_and_await (sid : SessionID) (tid : ref) :
  keeps_stores (GeminiLiveClient.cancel_and_await sid tid).
Proof.
  intros w. unfold GeminiLiveClient.cancel_and_await.
  destruct (run_ready_spec sid tid w) as (Hs & _).
  destruct (tasks w !! tid) as [t|]; [|done].
  destruct (t_state t) as [|p fr| | |]; try done.
  pose proof (keeps_stores_on_cancel (t_role t) p fr
                (GeminiLiveClient.run_ready sid tid w)) as H.
  destruct (GeminiLiveClient.on_cancel (t_role t) p fr
              (GeminiLiveClient.run_ready sid tid w)) as [[[]|e] w1];
    cbn in *; congruence.
Qed.

Lemma keeps_stores_close_webrtc (o : GeminiLiveClient.CloseOutcomes)
    (sid : SessionID) :
  keeps_stores (GeminiLiveClient.close_webrtc o sid).
Proof.
  apply keeps_stores_bind; [apply keeps_stores_gets|].
  intros [r|]; [|apply keeps_stores_ret].
  apply keeps_stores_bind; [apply keeps_stores_external|].
  intros _. by apply keeps_stores_modify.
Qed.

Lemma keeps_stores_cancel_listener (sid : SessionID) :
  keeps_stores (GeminiLiveClient.cancel_listener sid).
Proof.
  apply keeps_stores_bind; [apply keeps_stores_gets|].
  intros [tid|]; [|apply keeps_stores_ret].
  apply keeps_stores_cancel_and_await.
Qed.

Lemma keeps_stores_cancel_processors (sid : SessionID) :
  keeps_stores (GeminiLiveClient.cancel_processors sid).
Proof.
  apply keeps_stores_bind; [apply keeps_stores_gets|].
  intros [d|]; [|apply keeps_stores_ret].
  apply keeps_stores_for_each, keeps_stores_cancel_and_await.
Qed.

Lemma keeps_stores_close_context (o : GeminiLiveClient.CloseOutcomes)
    (sid : SessionID) :
  keeps_stores (GeminiLiveClient.close_context o sid).
Proof.
  apply keeps_stores_bind; [apply keeps_stores_gets|].
  intros [stack|]; [|apply keeps_stores_ret].
  apply keeps_stores_bind; [apply keeps_stores_external|].
  intros _. apply keeps_stores_for_each. intros c.
  by apply keeps_stores_modify.
Qed.

Lemma keeps_stores_teardown (o : GeminiLiveClient.CloseOutcomes)
    (sid : SessionID) :
  keeps_stores (GeminiLiveClient.teardown o sid).
Proof.
  repeat (apply keeps_stores_bind; [|intros _]).
  - apply keeps_stores_close_webrtc.
  - apply keeps_stores_cancel_listener.
  - apply keeps_stores_cancel_processors.
  - apply keeps_stores_close_context.
Qed.

Lemma clear_session_absent (sid : SessionID) (s : SessionStores) :
  absent sid (clear_session sid s).
Proof. unfold absent, clear_session. simpl. by rewrite !lookup_delete_eq. Qed.

(** What [close_session] computes, by cases on whether the session is
    registered and on how the teardown ends. *)
Lemma close_session_unfold (o : GeminiLiveClient.CloseOutcomes)
    (sid : SessionID) (w : World) :
  GeminiLiveClient.close_session o sid w =
    match sessions (stores w) !! sid with
    | None => (Ok false, w)
    | Some _ =>
        (Ok (clean (fst (GeminiLiveClient.teardown o sid w))),
         with_stores (clear_session sid)
           (snd (GeminiLiveClient.teardown o sid w)))
    end.
Proof.
  unfold GeminiLiveClient.close_session. run_M.
  destruct (sessions (stores w) !! sid) as [c|] eqn:Hs.
  - rewrite bool_decide_true by done. simpl.
    by destruct (GeminiLiveClient.teardown o sid w) as [[[]|e] w1].
  - rewrite bool_decide_false; [done|]. by intros [? ?].
Qed.

(** Whatever the teardown does, [close_session] of a registered session
    ends with the key deleted from all nine dictionaries. *)
Lemma close_session_clears_stores (o : GeminiLiveClient.CloseOutcomes)
    (sid : SessionID) (w : World) :
  is_Some (sessions (stores w) !! sid) →
  stores (snd (GeminiLiveClient.close_session o sid w))
    = clear_session sid (stores w)
  ∧ absent sid (stores (snd (GeminiLiveClient.close_session o sid w))).
Proof.
  intros [c Hc]. rewrite close_session_unfold, Hc. simpl.
  rewrite keeps_stores_teardown. split; [done|apply clear_session_absent].
Qed.

Lemma advances_refl (w : World) : advances w w.
Proof. intros tid t Ht. by exists t. Qed.

Lemma advances_trans (w1 w2 w3 : World) :
  advances w1 w2 → advances w2 w3 → advances w1 w3.
Proof.
  intros H12 H23 tid t Ht.
  destruct (H12 tid t Ht) as (t2 & Ht2 & Hs2 & Hr2 & Hd2).
  destruct (H23 tid t2 Ht2) as (t3 & Ht3 & Hs3 & Hr3 & Hd3).
  exists t3. repeat split; [done|congruence|congruence|auto].
Qed.

Lemma advances_same_tasks (w w' : World) :
  tasks w' = tasks w → advances w w'.
Proof. intros Heq tid t Ht. exists t. by rewrite Heq. Qed.

Lemma advances_done (w w' : World) (tid : ref) :
  advances w w' → done_in w tid → done_in w' tid.
Proof.
  intros Ha (t & Ht & Hd). destruct (Ha tid t Ht) as (t' & Ht' & _ & _ & Hd').
  exists t'. auto.
Qed.

Lemma advances_finish (w : World) (tid : ref) (st : task_state) :
  (∀ p fr, st ≠ Suspended p fr) → st ≠ Created →
  advances w (with_tasks (alter (set_state st) tid) w).
Proof.
  intros Hs Hc i t Ht. simpl.
  destruct (decide (i = tid)) as [->|Hne].
  - rewrite lookup_alter_eq, Ht. simpl. eexists. split; [done|].
    repeat split. intros _. unfold task_is_done. simpl.
    destruct st; try done. by destruct (Hs p fr).
  - rewrite lookup_alter_ne by done. by exists t.
Qed.

Lemma task_done_same_tasks (r : ref) (w : World) :
  tasks (snd (task_done r w)) = tasks w.
Proof.
  unfold task_done. destruct (queues w !! r) as [q|]; [|done].
  by destruct (Queue.task_done q).
Qed.

Lemma on_cancel_same_tasks (r : role) (p : point) (fr : frame) (w : World) :
  tasks (snd (GeminiLiveClient.on_cancel r p fr w)) = tasks w.
Proof.
  destruct r, p; simpl; try done; destruct (f_queue fr); try done;
    apply task_done_same_tasks.
Qed.

(** Cancelling and awaiting a task never revives a task, and when the
    [await] returns, the task is finished. *)
Lemma run_ready_advances (sid : SessionID) (tid : ref) (w : World) :
  advances w (GeminiLiveClient.run_ready sid tid w).
Proof.
  destruct (run_ready_spec sid tid w) as (_ & _ & _ & _ & Hk).
  intros i t Ht. by apply Hk.
Qed.

Lemma cancel_and_await_advances (sid : SessionID) (tid : ref) (w : World) :
  advances w (snd (GeminiLiveClient.cancel_and_await sid tid w)).
Proof.
  unfold GeminiLiveClient.cancel_and_await.
  pose proof (run_ready_advances sid tid w) as Hrun.
  destruct (tasks w !! tid) as [t|] eqn:Ht; [|apply advances_refl].
  destruct (t_state t) as [|p fr| | |] eqn:Hst; try apply advances_refl.
  - cbn. eapply advances_trans; [done|]. by apply advances_finish.
  - pose proof (on_cancel_same_tasks (t_role t) p fr
                  (GeminiLiveClient.run_ready sid tid w)) as Hsame.
    destruct (GeminiLiveClient.on_cancel (t_role t) p fr
                (GeminiLiveClient.run_ready sid tid w)) as [[[]|e] w1];
      cbn in *.
    + eapply advances_trans; [done|].
      eapply advances_trans; [by apply advances_same_tasks|].
      by apply advances_finish.
    + eapply advances_trans; [done|].
      eapply advances_trans; [by apply advances_same_tasks|].
      by apply advances_finish.
Qed.

Lemma cancel_and_await_done (sid : SessionID) (tid : ref) (w : World) :
  is_Some (tasks w !! tid) →
  done_in (snd (GeminiLiveClient.cancel_and_await sid tid w)) tid.
Proof.
  intros [t Ht]. unfold GeminiLiveClient.cancel_and_await, done_in.
  destruct (run_ready_spec sid tid w) as (_ & _ & Hsame' & _).
  rewrite Ht in Hsame' |- *.
  destruct (t_state t) as [|p fr| | |] eqn:Hst; cbn.
  - exists (set_state Cancelled t). by rewrite lookup_alter_eq, Hsame'.
  - pose proof (on_cancel_same_tasks (t_role t) p fr
                  (GeminiLiveClient.run_ready sid tid w)) as Hsame.
    destruct (GeminiLiveClient.on_cancel (t_role t) p fr
                (GeminiLiveClient.run_ready sid tid w)) as [[[]|e] w1];
      cbn in *.
    + exists (set_state Returned t).
      by rewrite lookup_alter_eq, Hsame, Hsame'.
    + exists (set_state (Failed e) t).
      by rewrite lookup_alter_eq, Hsame, Hsame'.
  - exists t. unfold task_is_done. by rewrite Hst.
  - exists t. unfold task_is_done. by rewrite Hst.
  - exists t. unfold task_is_done. by rewrite Hst.
Qed.

Lemma for_each_cancel_advances (sid : SessionID) (l : list ref) (w : World) :
  advances w (snd (for_each (GeminiLiveClient.cancel_and_await sid) l w)).
Proof.
  revert w. induction l as [|tid l IH]; intros w; [apply advances_refl|].
  simpl. unfold bind.
  pose proof (cancel_and_await_advances sid tid w) as H1.
  destruct (GeminiLiveClient.cancel_and_await sid tid w) as [[[]|e] w1];
    simpl in *; [|done].
  eapply advances_trans; [done|apply IH].
Qed.

(** When the loop over the processors runs to its end, each of them is
    finished. *)
Lemma for_each_cancel_done (sid : SessionID) (l : list ref) (w : World) :
  clean (fst (for_each (GeminiLiveClient.cancel_and_await sid) l w)) = true →
  ∀ tid, tid ∈ l → is_Some (tasks w !! tid) →
         done_in (snd (for_each (GeminiLiveClient.cancel_and_await sid) l w))
           tid.
Proof.
  revert w. induction l as [|x l IH]; intros w Hok tid Hin Hsome.
  { by apply elem_of_nil in Hin. }
  simpl in *. unfold bind in *.
  pose proof (cancel_and_await_advances sid x w) as Hadv.
  pose proof (cancel_and_await_done sid x w) as Hdone.
  destruct (GeminiLiveClient.cancel_and_await sid x w) as [[[]|e] w1];
    simpl in *; [|done].
  apply elem_of_cons in Hin as [->|Hin].
  - eapply advances_done; [apply for_each_cancel_advances|]. by apply Hdone.
  - apply IH; [done|done|].
    destruct Hsome as [t Ht]. destruct (Hadv tid t Ht) as (t' & Ht' & _).
    by exists t'.
Qed.

Lemma progresses_bind {A B} (m : M A) (k : A → M B) :
  progresses m → (∀ a, progresses (k a)) → progresses (bind m k).
Proof.
  intros Hm Hk w. unfold bind. specialize (Hm w).
  destruct (m w) as [[a|e] w1]; simpl in *; [|done].
  eapply advances_trans; [done|apply Hk].
Qed.

Lemma progresses_same_tasks {A} (m : M A) :
  (∀ w, tasks (snd (m w)) = tasks w) → progresses m.
Proof. intros H w. apply advances_same_tasks, H. Qed.

Lemma for_each_same_tasks {A} (f : A → M unit) (l : list A) :
  (∀ a w, tasks (snd (f a w)) = tasks w) →
  ∀ w, tasks (snd (for_each f l w)) = tasks w.
Proof.
  intros Hf. induction l as [|a l IH]; intros w; [done|].
  simpl. unfold bind. specialize (Hf a w).
  destruct (f a w) as [[[]|e] w1]; simpl in *; [|done].
  by rewrite IH.
Qed.

Lemma progresses_close_webrtc (o : GeminiLiveClient.CloseOutcomes)
    (sid : SessionID) :
  progresses (GeminiLiveClient.close_webrtc o sid).
Proof.
  apply progresses_same_tasks. intros w.
  unfold GeminiLiveClient.close_webrtc, GeminiLiveClient.WebRTCManager_close.
  run_M. destruct (webrtc_managers (stores w) !! sid); [|done].
  by destruct (GeminiLiveClient.webrtc_close o).
Qed.

Lemma progresses_cancel_listener (sid : SessionID) :
  progresses (GeminiLiveClient.cancel_listener sid).
Proof.
  intros w. unfold GeminiLiveClient.cancel_listener. run_M.
  destruct (response_listeners (stores w) !! sid) as [tid|];
    [apply cancel_and_await_advances|apply advances_refl].
Qed.

Lemma progresses_cancel_processors (sid : SessionID) :
  progresses (GeminiLiveClient.cancel_processors sid).
Proof.
  intros w. unfold GeminiLiveClient.cancel_processors. run_M.
  destruct (send_processor (stores w) !! sid) as [d|];
    [apply for_each_cancel_advances|apply advances_refl].
Qed.

Lemma progresses_close_context (o : GeminiLiveClient.CloseOutcomes)
    (sid : SessionID) :
  progresses (GeminiLiveClient.close_context o sid).
Proof.
  apply progresses_same_tasks. intros w.
  unfold GeminiLiveClient.close_context, GeminiLiveClient.aclose.
  run_M. destruct (contexts (stores w) !! sid) as [stack|]; [|done].
  destruct (GeminiLiveClient.context_aclose o); [done|]. simpl.
  by apply for_each_same_tasks.
Qed.

Lemma progresses_teardown (o : GeminiLiveClient.CloseOutcomes)
    (sid : SessionID) :
  progresses (GeminiLiveClient.teardown o sid).
Proof.
  repeat (apply progresses_bind; [|intros _]).
  - apply progresses_close_webrtc.
  - apply progresses_cancel_listener.
  - apply progresses_cancel_processors.
  - apply progresses_close_context.
Qed.

(** A teardown in which no step raises leaves every task that the stores
    hold for the session finished: the listener and each send processor have
    been cancelled and awaited. *)
Lemma teardown_clean_done (o : GeminiLiveClient.CloseOutcomes)
    (sid : SessionID) (w : World) :
  clean (fst (GeminiLiveClient.teardown o sid w)) = true →
  ∀ tid, tid ∈ session_tasks sid (stores w) → is_Some (tasks w !! tid) →
         done_in (snd (GeminiLiveClient.teardown o sid w)) tid.
Proof.
  intros Hok tid Hin Hsome.
  unfold GeminiLiveClient.teardown, mbind, M_bind, bind in *.
  pose proof (keeps_stores_close_webrtc o sid w) as Hs1.
  pose proof (progresses_close_webrtc o sid w) as Ha1.
  destruct (GeminiLiveClient.close_webrtc o sid w) as [[[]|e1] w1];
    simpl in *; [|done].
  pose proof (keeps_stores_cancel_listener sid w1) as Hs2.
  pose proof (progresses_cancel_listener sid w1) as Ha2.
  pose proof (keeps_stores_cancel_processors sid) as Hs3.
  pose proof (progresses_cancel_processors sid) as Ha3.
  pose proof (progresses_close_context o sid) as Ha4.
  assert (is_Some (tasks w1 !! tid)) as Hsome1.
  { destruct Hsome as [t Ht]. destruct (Ha1 tid t Ht) as (t' & Ht' & _).
    by exists t'. }
  unfold session_tasks in Hin. apply elem_of_app in Hin as [Hin|Hin].
  - (* the listener *)
    assert (response_listeners (stores w1) !! sid = Some tid) as Hl.
    { rewrite Hs1. destruct (response_listeners (stores w) !! sid); simpl in Hin.
      - apply list_elem_of_singleton in Hin. by subst.
      - by apply elem_of_nil in Hin. }
    assert (done_in (snd (GeminiLiveClient.cancel_listener sid w1)) tid) as Hd.
    { unfold GeminiLiveClient.cancel_listener. run_M. rewrite Hl.
      by apply cancel_and_await_done. }
    destruct (GeminiLiveClient.cancel_listener sid w1) as [[[]|e2] w2];
      simpl in *; [|done].
    specialize (Ha3 w2).
    destruct (GeminiLiveClient.cancel_processors sid w2) as [[[]|e3] w3];
      simpl in *; [|done].
    eapply advances_done; [apply Ha4|]. by eapply advances_done.
  - (* a send processor *)
    destruct (GeminiLiveClient.cancel_listener sid w1) as [[[]|e2] w2];
      simpl in *; [|done].
    assert (is_Some (tasks w2 !! tid)) as Hsome2.
    { destruct Hsome1 as [t Ht]. destruct (Ha2 tid t Ht) as (t' & Ht' & _).
      by exists t'. }
    assert (clean (fst (GeminiLiveClient.cancel_processors sid w2)) = true →
            done_in (snd (GeminiLiveClient.cancel_processors sid w2)) tid) as Hd.
    { unfold GeminiLiveClient.cancel_processors. run_M.
      rewrite Hs2, Hs1.
      destruct (send_processor (stores w) !! sid) as [d|]; simpl in Hin.
      - intros Hc. by apply for_each_cancel_done.
      - by apply elem_of_nil in Hin. }
    destruct (GeminiLiveClient.cancel_processors sid w2) as [[[]|e3] w3];
      simpl in *; [|done].
    eapply advances_done; [apply Ha4|]. by apply Hd.
Qed.

Lemma close_session_unknown (o : GeminiLiveClient.CloseOutcomes)
    (sid : SessionID) (w : World) :
  sessions (stores w) !! sid = None →
  GeminiLiveClient.close_session o sid w = (Ok false, w).
Proof. intros H. by rewrite close_session_unfold, H. Qed.

Lemma close_session_registered (o : GeminiLiveClient.CloseOutcomes)
    (sid : SessionID) (w : World) :
  is_Some (sessions (stores w) !! sid) →
  fst (GeminiLiveClient.close_session o sid w)
    = Ok (clean (fst (GeminiLiveClient.teardown o sid w))).
Proof. intros [c Hc]. by rewrite close_session_unfold, Hc. Qed.

(** C2, as the code has it.
    [GeminiLiveClient.close_session] never raises.  For a session registered
    in the stores the first call returns [True] when no step of the teardown
    raised and [False] when one did; a second call returns [False] and
    changes nothing.  For an id that is not registered it returns [False] and
    changes nothing.
    [SessionService.close_session] returns the client's answer or-ed with
    "a persisted record was deleted"; called twice in a row, its second
    answer is [False]. *)
Theorem close_session_twice :
  (∀ o sid w, ∃ b, fst (GeminiLiveClient.close_session o sid w) = Ok b)
  ∧ (∀ o o' sid w,
       is_Some (sessions (stores w) !! sid) →
       let first := GeminiLiveClient.close_session o sid w in
       fst first = Ok (clean (fst (GeminiLiveClient.teardown o sid w)))
       ∧ GeminiLiveClient.close_session o' sid (snd first)
         = (Ok false, snd first))
  ∧ (∀ o sid w,
       sessions (stores w) !! sid = None →
       GeminiLiveClient.close_session o sid w = (Ok false, w))
  ∧ (∀ o o' sid s,
       let first := SessionService.close_session o sid s in
       fst first
         = Ok (match sessions (stores (SessionService.gemini_client s)) !! sid with
               | Some _ =>
                   clean (fst (GeminiLiveClient.teardown o sid
                                 (SessionService.gemini_client s)))
               | None => false
               end
               || bool_decide (is_Some (SessionService.redis_client s
                                          !! SessionService.session_key sid)))
       ∧ fst (SessionService.close_session o' sid (snd first)) = Ok false).
Proof.
  split; [|split; [|split]].
  - intros o sid w. rewrite close_session_unfold.
    destruct (sessions (stores w) !! sid); by eexists.
  - intros o o' sid w Hs first. split; [by apply close_session_registered|].
    apply close_session_unknown.
    by destruct (close_session_clears_stores o sid w Hs) as (_ & ? & _).
  - intros o sid w. apply close_session_unknown.
  - intros o o' sid s first.
    assert (sessions (stores (SessionService.gemini_client (snd first))) !! sid
              = None
            ∧ SessionService.redis_client (snd first)
                !! SessionService.session_key sid = None
            ∧ fst first = Ok (match sessions (stores (SessionService.gemini_client s)) !! sid with
               | Some _ =>
                   clean (fst (GeminiLiveClient.teardown o sid
                                 (SessionService.gemini_client s)))
               | None => false
               end
               || bool_decide (is_Some (SessionService.redis_client s
                                          !! SessionService.session_key sid))))
      as (Hs & Hr & Hfirst).
    { unfold first, SessionService.close_session, SessionService.client.
      rewrite close_session_unfold.
      destruct (sessions (stores (SessionService.gemini_client s)) !! sid)
        as [c|] eqn:Hc; simpl.
      - rewrite keeps_stores_teardown. simpl.
        rewrite !lookup_delete_eq. split; [done|]. split; [done|].
        by destruct (SessionService.redis_client s !! SessionService.session_key sid).
      - rewrite !lookup_delete_eq. split; [done|]. split; [done|].
        by destruct (SessionService.redis_client s !! SessionService.session_key sid). }
    split; [done|].
    unfold SessionService.close_session, SessionService.client.
    rewrite (close_session_unknown o' sid _ Hs). simpl. by rewrite Hr.
Qed.

(** The first call returns [True] for a session whose processors each wait
    for a send to return ([Scenario.sending]): cancelled there, each runs
    its [task_done()] for the item it has taken.  It returns [False] for a
    session closed right after its creation: while the cancelled listener
    is awaited the two processors start, and the audio processor is then
    cancelled in [queue.get()] with no unfinished item. *)
Lemma close_session_twice_witness :
  is_Some (sessions (stores Scenario.sending) !! "s1")
  ∧ is_Some (sessions (stores Scenario.created) !! "s1")
  ∧ fst (GeminiLiveClient.close_session Scenario.smooth "s1" Scenario.sending)
    = Ok true
  ∧ fst (GeminiLiveClient.close_session Scenario.smooth "s1"
           (snd (GeminiLiveClient.close_session Scenario.smooth "s1"
                   Scenario.sending)))
    = Ok false
  ∧ fst (GeminiLiveClient.close_session Scenario.smooth "s1" Scenario.created)
    = Ok false
  ∧ fst (GeminiLiveClient.close_session Failing.webrtc_fails "s1"
           Scenario.sending)
    = Ok false.
Proof.
  destruct close_session_twice as (_ & Htwice & _).
  assert (sessions (stores Scenario.sending) !! "s1" = Some 0) as Hs
    by (vm_compute; reflexivity).
  assert (sessions (stores Scenario.created) !! "s1" = Some 0) as Hc
    by (vm_compute; reflexivity).
  split; [exact (ex_intro _ 0 Hs)|]. split; [exact (ex_intro _ 0 Hc)|].
  destruct (Htwice Scenario.smooth Scenario.smooth "s1" Scenario.sending
              (ex_intro _ 0 Hs)) as [H1 H2].
  split; [etrans; [exact H1|vm_compute; reflexivity]|].
  split; [exact (f_equal fst H2)|].
  destruct (Htwice Scenario.smooth Scenario.smooth "s1" Scenario.created
              (ex_intro _ 0 Hc)) as [H3 _].
  split; [etrans; [exact H3|vm_compute; reflexivity]|].
  destruct (Htwice Failing.webrtc_fails Scenario.smooth "s1" Scenario.sending
              (ex_intro _ 0 Hs)) as [H4 _].
  etrans; [exact H4|vm_compute; reflexivity].
Defined.

(** C2 as stated fails: a registered session whose WebRTC close raises, or
    whose audio processor is idle in [queue.get()], makes the first
    [close_session] return [False]; the service call returns [False] too
    when the persisted record has expired. *)
Lemma close_session_first_call_false :
  is_Some (sessions (stores Scenario.running) !! "s1")
  ∧ fst (GeminiLiveClient.close_session Failing.webrtc_fails "s1"
           Scenario.running) = Ok false
  ∧ fst (GeminiLiveClient.close_session Scenario.smooth "s1"
           Scenario.running) = Ok false
  ∧ fst (SessionService.close_session Failing.webrtc_fails "s1"
           Failing.expired) = Ok false.
Proof.
  split; [by exists 0|]. split; [reflexivity|]. split; reflexivity.
Qed.

(** When [close_session] returns [True], every task the stores held for
    the session has been cancelled and awaited. *)
Lemma close_session_true_tasks_done (o : GeminiLiveClient.CloseOutcomes)
    (sid : SessionID) (w : World) :
  fst (GeminiLiveClient.close_session o sid w) = Ok true →
  ∀ tid, tid ∈ session_tasks sid (stores w) → is_Some (tasks w !! tid) →
         done_in (snd (GeminiLiveClient.close_session o sid w)) tid.
Proof.
  rewrite close_session_unfold.
  destruct (sessions (stores w) !! sid) as [c|]; [|done].
  simpl. intros [= Hclean] tid Hin Hsome.
  by apply (teardown_clean_done o sid w Hclean tid Hin Hsome).
Qed.

(** A session that is closed before the event loop has run its tasks (all
    three still [Created]): while [close_session] awaits the cancelled
    listener, the two processors take their first step and wait in
    [queue.get()]; the audio processor is cancelled there with no unfinished
    item, so that the call returns [False], the media processor is left
    running and the connection open. *)
Lemma close_session_before_start :
  let r := GeminiLiveClient.close_session Scenario.smooth "s1" Scenario.created in
  fst r = Ok false
  ∧ absent "s1" (stores (snd r))
  ∧ t_state <$> tasks (snd r) !! 4 = Some Cancelled
  ∧ t_state <$> tasks (snd r) !! 5 = Some (Failed ValueError)
  ∧ (running_tasks "s1" (snd r)).*1 = [6]
  ∧ is_open <$> conns (snd r) !! 0 = Some true.
Proof.
  intros r. split; [vm_compute; reflexivity|].
  split; [apply close_session_clears_stores; by exists 0|].
  repeat split; vm_compute; reflexivity.
Qed.

(** A session whose processors each wait for a send to return is torn down
    cleanly: the call returns [True], no task of the session is left
    running, the connection is closed. *)
Lemma close_session_while_sending :
  let r := GeminiLiveClient.close_session Scenario.smooth "s1" Scenario.sending in
  fst r = Ok true
  ∧ absent "s1" (stores (snd r))
  ∧ running_tasks "s1" (snd r) = []
  ∧ is_open <$> conns (snd r) !! 0 = Some false
  ∧ rtc_closed <$> rtcs (snd r) !! 7 = Some true.
Proof.
  intros r. split; [vm_compute; reflexivity|].
  split; [apply close_session_clears_stores; by exists 0|].
  repeat split; vm_compute; reflexivity.
Qed.

(** C1 fails on the code.  First input: the session "s1" is running, its
    audio processor idle in [queue.get()] on its empty queue, and every
    external call of the teardown returns normally.  Cancelling the audio
    processor makes its [finally: audio_queue.task_done()] raise
    [ValueError]; [await task] raises it, and [close_session] goes to its
    [except] branch: it returns [False] with the stores cleared, the media
    processor never cancelled and the dialogue connection never closed.
    Second input: [WebRTCManager.close] raises; none of the three tasks is
    cancelled. *)
Theorem close_session_leaves_tasks_running :
  let idle := GeminiLiveClient.close_session Scenario.smooth "s1"
                Scenario.running in
  let broken := GeminiLiveClient.close_session Failing.webrtc_fails "s1"
                  Scenario.running in
  (fst idle = Ok false
   ∧ absent "s1" (stores (snd idle))
   ∧ t_state <$> tasks (snd idle) !! 5 = Some (Failed ValueError)
   ∧ task_is_done <$> tasks (snd idle) !! 6 = Some false
   ∧ (running_tasks "s1" (snd idle)).*1 = [6]
   ∧ is_open <$> conns (snd idle) !! 0 = Some true)
  ∧ (fst broken = Ok false
     ∧ absent "s1" (stores (snd broken))
     ∧ task_is_done <$> tasks (snd broken) !! 4 = Some false
     ∧ task_is_done <$> tasks (snd broken) !! 5 = Some false
     ∧ task_is_done <$> tasks (snd broken) !! 6 = Some false
     ∧ is_open <$> conns (snd broken) !! 0 = Some true).
Proof.
  intros idle broken.
  assert (is_Some (sessions (stores Scenario.running) !! "s1")) as Hs
    by (by exists 0).
  split.
  - split; [reflexivity|].
    split; [by apply close_session_clears_stores|].
    repeat split; reflexivity.
  - split; [reflexivity|].
    split; [by apply close_session_clears_stores|].
    repeat split; reflexivity.
Qed.

(** ** create_webrtc_session *)

(** When opening the dialogue connection raises [e], the stores end up as
    they were after the teardown of a prior session with the same id, plus
    the entry [contexts[session_id]] made before the connection was opened.
    [ValueError], [RuntimeError] and [KeyError] give the result [None]; any
    other exception leaves the method. *)
Lemma open_connection_fails (e : exn) (sid : SessionID) (w : World) :
  GeminiLiveClient.open_connection (Some e) sid w = (Raise e, w).
Proof.
  unfold GeminiLiveClient.open_connection. run_M. simpl.
  by destruct (is_InvalidStatus e).
Qed.

Lemma open_and_register_fails (cfg : Config) (e : exn) (sid : SessionID)
    (a t er : option string) (w : World) :
  GEMINI_API_KEY cfg ≠ "" →
  GeminiLiveClient.open_and_register cfg (Some e) sid a t er w
    = (Raise e,
       with_stores (set_contexts <[sid := {| entered := [] |}]>) w).
Proof.
  intros Hkey.
  unfold GeminiLiveClient.open_and_register, GeminiLiveClient._get_client.
  rewrite decide_False by done.
  unfold mbind, M_bind, bind, ret, modify.
  by rewrite open_connection_fails.
Qed.

Lemma handle_error_keeps_stores (sid : SessionID) (e : exn) :
  keeps_stores (GeminiLiveClient._handle_error sid e).
Proof.
  intros w. unfold GeminiLiveClient._handle_error,
    GeminiLiveClient._call_callback. run_M.
  by destruct (option_bind _ _ _ _).
Qed.

Lemma create_failed_open (cfg : Config) (oc : GeminiLiveClient.CloseOutcomes)
    (e : exn) (sid : SessionID) (a t er : option string) (w : World) :
  GEMINI_API_KEY cfg ≠ "" →
  let r := GeminiLiveClient.create_webrtc_session cfg oc (Some e) sid a t er w in
  fst r = (if is_ValueError_RuntimeError_KeyError e then Ok None else Raise e)
  ∧ stores (snd r)
    = set_contexts <[sid := {| entered := [] |}]>
        (match sessions (stores w) !! sid with
         | Some _ => clear_session sid (stores w)
         | None => stores w
         end)
  ∧ contexts (stores (snd r)) !! sid = Some {| entered := [] |}.
Proof.
  intros Hkey r.
  assert (fst r = (if is_ValueError_RuntimeError_KeyError e then Ok None
                   else Raise e)
          ∧ stores (snd r)
            = set_contexts <[sid := {| entered := [] |}]>
                (match sessions (stores w) !! sid with
                 | Some _ => clear_session sid (stores w)
                 | None => stores w
                 end)) as [H1 H2].
  { unfold r, GeminiLiveClient.create_webrtc_session.
    unfold mbind, M_bind, bind, gets, try_except.
    set (present := bool_decide (is_Some (sessions (stores w) !! sid))).
    assert (∃ b w1,
              (if present then GeminiLiveClient.close_session oc sid
               else ret false) w = (Ok b, w1)
              ∧ stores w1 = match sessions (stores w) !! sid with
                            | Some _ => clear_session sid (stores w)
                            | None => stores w
                            end) as (b & w1 & -> & Hs1).
    { unfold present. destruct (sessions (stores w) !! sid) as [c|] eqn:Hc.
      - rewrite bool_decide_true by done.
        destruct (close_session_clears_stores oc sid w ltac:(by eexists))
          as (Hcl & _).
        rewrite close_session_unfold, Hc in *. by eexists _, _.
      - rewrite bool_decide_false by (by intros [? ?]). by eexists _, _. }
    rewrite (open_and_register_fails cfg e sid a t er w1 Hkey).
    destruct (is_ValueError_RuntimeError_KeyError e).
    - pose proof (handle_error_keeps_stores sid e
                    (with_stores (set_contexts <[sid := {| entered := [] |}]>) w1))
        as Hh.
      destruct (GeminiLiveClient._handle_error sid e _) as [[[]|e'] w2] eqn:He.
      + simpl in *. by rewrite Hh, Hs1.
      + unfold GeminiLiveClient._handle_error,
          GeminiLiveClient._call_callback in He. run_M.
        by destruct (option_bind _ _ _ _).
    - simpl. by rewrite Hs1. }
  split; [done|]. split; [done|].
  rewrite H2. simpl. by rewrite lookup_insert_eq.
Qed.

(** C4 fails on the code.  On a process without sessions, opening the
    dialogue connection for "s1" fails.  With [InvalidStatus] the exception
    leaves [create_webrtc_session] and [create_session]; with [RuntimeError]
    the method returns [None] and [create_session] raises HTTP 500: the
    caller is told in both cases.  But the [AsyncExitStack] stored under
    [contexts["s1"]] before the connection was opened is still there, so the
    stores are not free of the session id; and [close_session] will not
    remove it, the id not being in [sessions]. *)
Theorem create_failed_open_leaves_context :
  let refused := GeminiLiveClient.create_webrtc_session Scenario.cfg
                   Scenario.smooth (Some InvalidStatus) "s1"
                   (Some "on_audio") None (Some "on_error") empty_world in
  let failed := GeminiLiveClient.create_webrtc_session Scenario.cfg
                  Scenario.smooth (Some RuntimeError) "s1"
                  (Some "on_audio") None (Some "on_error") empty_world in
  (fst refused = Raise InvalidStatus
   ∧ contexts (stores (snd refused)) !! "s1" = Some {| entered := [] |}
   ∧ ¬ absent "s1" (stores (snd refused))
   ∧ GeminiLiveClient.close_session Scenario.smooth "s1" (snd refused)
     = (Ok false, snd refused)
   ∧ fst (SessionService.create_session Scenario.cfg Scenario.smooth
            (Some InvalidStatus) (Ok "v=0 offer") "s1" "instruction"
            ServiceScenario.start) = Raise InvalidStatus)
  ∧ (fst failed = Ok None
     ∧ contexts (stores (snd failed)) !! "s1" = Some {| entered := [] |}
     ∧ ¬ absent "s1" (stores (snd failed))
     ∧ fst (SessionService.create_session Scenario.cfg Scenario.smooth
              (Some RuntimeError) (Ok "v=0 offer") "s1" "instruction"
              ServiceScenario.start) = Raise (HTTPException 500)).
Proof.
  intros refused failed.
  destruct (create_failed_open Scenario.cfg Scenario.smooth InvalidStatus "s1"
              (Some "on_audio") None (Some "on_error") empty_world
              ltac:(discriminate)) as (R1 & _ & R2).
  destruct (create_failed_open Scenario.cfg Scenario.smooth RuntimeError "s1"
              (Some "on_audio") None (Some "on_error") empty_world
              ltac:(discriminate)) as (F1 & _ & F2).
  fold refused in R1, R2. fold failed in F1, F2.
  split.
  - split; [exact R1|]. split; [exact R2|].
    split; [intros (_&_&_&_&_&_&Hc&_); by rewrite R2 in Hc|].
    split; [by apply close_session_unknown|reflexivity].
  - split; [exact F1|]. split; [exact F2|].
    split; [intros (_&_&_&_&_&_&Hc&_); by rewrite F2 in Hc|reflexivity].
Qed.

(** C8 fails on the code.  "s1" is running (its processors idle) and
    [create_webrtc_session] is called again with the same id, every external
    call returning normally.  The teardown of the prior session stops at the
    audio processor's [ValueError], so the prior media processor (task 6) is
    never cancelled and the prior connection (0) stays open; the new session
    is registered all the same, with its own three tasks (12, 13, 14) and
    queues (9, 10).  Two media processors and two media queues now exist for
    "s1".  When the WebRTC close of the prior session raises, all three prior
    tasks survive next to the three new ones. *)
Theorem create_over_running_session_duplicates :
  let again := GeminiLiveClient.create_webrtc_session Scenario.cfg
                 Scenario.smooth None "s1" (Some "on_audio") (Some "on_text")
                 (Some "on_error") Scenario.running in
  let again' := GeminiLiveClient.create_webrtc_session Scenario.cfg
                  Failing.webrtc_fails None "s1" (Some "on_audio")
                  (Some "on_text") (Some "on_error") Scenario.running in
  (fst again = Ok (Some 15)
   ∧ session_tasks "s1" (stores (snd again)) = [12; 13; 14]
   ∧ media_send_queues (stores (snd again)) !! "s1" = Some 10
   ∧ tasks (snd again) !! 6
     = Some {| t_session_id := "s1"; t_role := MediaProcessor;
               t_state := Suspended AtGet
                 {| f_session := 0; f_queue := Some 2; f_stats := 3;
                    f_callbacks := {| on_audio := None; on_text := None;
                                      on_error := None |} |} |}
   ∧ tasks (snd again) !! 14
     = Some {| t_session_id := "s1"; t_role := MediaProcessor;
               t_state := Created |}
   ∧ is_open <$> conns (snd again) !! 0 = Some true)
  ∧ (fst again' = Ok (Some 15)
     ∧ task_is_done <$> tasks (snd again') !! 4 = Some false
     ∧ task_is_done <$> tasks (snd again') !! 5 = Some false
     ∧ task_is_done <$> tasks (snd again') !! 6 = Some false
     ∧ session_tasks "s1" (stores (snd again')) = [12; 13; 14]
     ∧ length (running_tasks "s1" (snd again')) = 6).
Proof. repeat split; reflexivity. Qed.

(** The same call on a session whose processors each wait for a send to
    return closes the prior session cleanly: only the three new tasks are
    left. *)
Lemma create_over_sending_session :
  let again := GeminiLiveClient.create_webrtc_session Scenario.cfg
                 Scenario.smooth None "s1" (Some "on_audio") (Some "on_text")
                 (Some "on_error") Scenario.sending in
  fst again = Ok (Some 15)
  ∧ session_tasks "s1" (stores (snd again)) = [12; 13; 14]
  ∧ length (running_tasks "s1" (snd again)) = 3
  ∧ is_open <$> conns (snd again) !! 0 = Some false
  ∧ is_open <$> conns (snd again) !! 8 = Some true.
Proof. repeat split; vm_compute; reflexivity. Qed.

(** * Further properties of the code *)

(** ** queue_text shares the audio queue *)

Lemma queue_text_call (sid : SessionID) (r : ref) (text : string) (w : World)
    (q : Queue.t) :
  audio_send_queues (stores w) !! sid = Some r →
  queues w !! r = Some q →
  GeminiLiveClient.queue_text sid text w =
    if Queue.full q then (Ok false, w)
    else (Ok true, with_queues <[r := pushed (ItemStr text) q]> w).
Proof.
  intros Hs Hq. unfold GeminiLiveClient.queue_text. run_M.
  unfold put_nowait, Queue.put_nowait.
  rewrite Hs. simpl. rewrite Hq.
  by destruct (Queue.full q).
Qed.

Lemma queue_text_or_audio_call (sid : SessionID) (r : ref)
    (a : string + bytes) (w : World) (q : Queue.t) :
  audio_send_queues (stores w) !! sid = Some r →
  queues w !! r = Some q →
  queue_text_or_audio sid a w =
    if Queue.full q then (Ok false, w)
    else (Ok true, with_queues <[r := pushed (text_or_audio_item a) q]> w).
Proof.
  intros Hs Hq. destruct a as [text|audio_data]; simpl.
  - by apply queue_text_call.
  - by apply (queue_audio_call sid r audio_data w q).
Qed.

(** X1. Text and audio go through the same queue of capacity 50: in any
    sequence of [queue_text] and [queue_audio] calls on a session whose
    audio queue is empty, with no processor taking items, call number [i]
    returns [True] exactly when [i < 50], whichever of the two it is, and the
    queue holds the items of the first 50 calls in call order. *)
Theorem text_and_audio_share_capacity (w : World) (sid : SessionID) (r : ref)
    (args : list (string + bytes)) :
  audio_send_queues (stores w) !! sid = Some r →
  queues w !! r = Some (Queue.new 50) →
  let run := run_calls (queue_text_or_audio sid) args w in
  fst run = (λ i, Ok (i <? 50)) <$> seq 0 (length args)
  ∧ Queue.items <$> queues (snd run) !! r
    = Some (text_or_audio_item <$> take 50 args).
Proof.
  intros Hs Hq run.
  destruct (run_calls_bounded (queue_text_or_audio sid) text_or_audio_item r
              (λ s, audio_send_queues s !! sid = Some r)
              (λ a w q, queue_text_or_audio_call sid r a w q) 50
              (Nat.lt_0_succ 49) args w (Queue.new 50) Hs Hq eq_refl)
    as (H1 & _ & H3).
  fold run in H1, H3. simpl in H1, H3.
  split; [done|by rewrite H3].
Qed.

Lemma text_and_audio_share_capacity_witness :
  let args := repeat (inr Scenario.chunk320) 49 ++ [inl "hello"; inl "dropped"] in
  let run := run_calls (queue_text_or_audio "s1") args Scenario.created in
  audio_send_queues (stores Scenario.created) !! "s1" = Some 1
  ∧ queues Scenario.created !! 1 = Some (Queue.new 50)
  ∧ last (fst run) = Some (Ok false)
  ∧ (Queue.items <$> queues (snd run) !! 1) ≫= last = Some (ItemStr "hello").
Proof.
  intros args run.
  split; [reflexivity|]. split; [reflexivity|].
  destruct (text_and_audio_share_capacity Scenario.created "s1" 1 args
              eq_refl eq_refl) as [H1 H2].
  fold run in H1, H2. rewrite H1, H2. split; reflexivity.
Defined.

(** ** Enqueueing for a session that is not registered *)

(** X2. Once [close_session] has returned for a registered session,
    whatever its teardown did, the three enqueue methods return [False] for
    that id and change nothing, and an audio frame handed to
    [handle_audio_frame] is dropped without any counter changing. *)
Theorem enqueue_after_close (o : GeminiLiveClient.CloseOutcomes)
    (sid : SessionID) (w : World) :
  is_Some (sessions (stores w) !! sid) →
  let w' := snd (GeminiLiveClient.close_session o sid w) in
  (∀ audio_data, GeminiLiveClient.queue_audio sid audio_data w' = (Ok false, w'))
  ∧ (∀ text, GeminiLiveClient.queue_text sid text w' = (Ok false, w'))
  ∧ (∀ image_data mime_type,
       GeminiLiveClient.queue_image sid image_data mime_type w' = (Ok false, w'))
  ∧ (∀ audio_data,
       GeminiLiveClient.handle_audio_frame sid audio_data w' = (Ok tt, w')).
Proof.
  intros Hs w'.
  destruct (close_session_clears_stores o sid w Hs)
    as (_ & _ & _ & _ & _ & Ha & Hm & _).
  fold w' in Ha, Hm.
  assert (∀ c, GeminiLiveClient.queue_audio sid c w' = (Ok false, w')) as Haudio.
  { intros c. unfold GeminiLiveClient.queue_audio. run_M. by rewrite Ha. }
  split; [done|]. split; [|split].
  - intros text. unfold GeminiLiveClient.queue_text. run_M. by rewrite Ha.
  - intros d m. unfold GeminiLiveClient.queue_image. run_M. by rewrite Hm.
  - intros c. unfold GeminiLiveClient.handle_audio_frame. run_M.
    by rewrite Haudio.
Qed.

Lemma enqueue_after_close_witness :
  let w' := snd (GeminiLiveClient.close_session Scenario.smooth "s1"
                   Scenario.running) in
  is_Some (sessions (stores Scenario.running) !! "s1")
  ∧ GeminiLiveClient.queue_audio "s1" Scenario.chunk320 w' = (Ok false, w')
  ∧ GeminiLiveClient.queue_image "s1" Scenario.frame1 "image/jpeg" w'
    = (Ok false, w').
Proof.
  intros w'.
  assert (is_Some (sessions (stores Scenario.running) !! "s1")) as Hs
    by (by exists 0).
  split; [exact Hs|].
  destruct (enqueue_after_close Scenario.smooth "s1" Scenario.running Hs)
    as (H1 & _ & H3 & _).
  split; [apply H1|apply H3].
Defined.

(** ** One loop iteration of a send processor, in general *)

Lemma iteration_spec (w : World) (tid qr : ref) (r : role) (sid : SessionID)
    (fr : frame) (q : Queue.t) (it : item) (rest : list item)
    (o : option exn) :
  waiting w tid r sid fr →
  r ≠ ResponseListener →
  f_queue fr = Some qr →
  queues w !! qr = Some q →
  Queue.items q = it :: rest →
  0 < Queue.unfinished_tasks q →
  is_Some (sessions (stores w) !! sid) →
  let w1 := GeminiLiveClient.processor_resume tid
              (GeminiLiveClient.processor_step o tid w) in
  waiting w1 tid r sid fr
  ∧ stores w1 = stores w
  ∧ queues w1 = <[qr := {| Queue.items := rest;
                           Queue.maxsize := Queue.maxsize q;
                           Queue.unfinished_tasks :=
                             pred (Queue.unfinished_tasks q) |}]> (queues w)
  ∧ conns w1 = match delivered r it o with
               | Some m => alter (λ s, {| is_open := is_open s;
                                          sent := sent s ++ [m] |})
                             (f_session fr) (conns w)
               | None => conns w
               end
  ∧ stats_objs w1 = match counted_ok r it o with
                    | Some key => alter (bump key) (f_stats fr) (stats_objs w)
                    | None => stats_objs w
                    end
  ∧ calls w1 = calls w
               ++ option_list (reported (callbacks (stores w) !! sid) r it o).
Proof.
  intros (t & Ht & Hr & Hsid & Hst) Hrole Hfq Hq Hitems Hun Hs w1.
  unfold w1, GeminiLiveClient.processor_step, GeminiLiveClient.processor_resume.
  rewrite Ht, Hst, Hfq, Hq. simpl.
  unfold Queue.get_nowait. rewrite Hitems, Hr, Hsid.
  destruct (Queue.unfinished_tasks q) as [|u] eqn:Hu; [lia|].
  unfold waiting, delivered, counted_ok, reported, forwarded, counted.
  destruct r; [done| |].
  - unfold GeminiLiveClient._process_audio_queue_item, GeminiLiveClient.send,
      GeminiLiveClient._handle_error, GeminiLiveClient._call_callback.
    run_M.
    destruct it as [s|d m]; [|destruct (str_in "audio" m)];
      destruct o as [e|]; simpl;
      try destruct (option_bind _ _ _ _) as [f|] eqn:Hcb; simpl;
      unfold task_done; simpl; rewrite ?lookup_insert_eq;
      unfold Queue.task_done; simpl;
      unfold GeminiLiveClient.finish; simpl;
      rewrite ?lookup_alter_eq, ?Ht; simpl; rewrite ?Hst; simpl;
      rewrite ?Hsid, ?bool_decide_true by done; simpl;
      rewrite ?insert_insert_eq, ?lookup_alter_eq, ?Ht; simpl;
      rewrite ?app_nil_r;
      (split; [eexists; split; [reflexivity|by rewrite ?Hst]|done]).
  - unfold GeminiLiveClient._process_media_queue_item, GeminiLiveClient.send,
      GeminiLiveClient._handle_error, GeminiLiveClient._call_callback.
    run_M.
    destruct it as [s|d m]; [|destruct (str_in "image" m)];
      destruct o as [e|]; simpl;
      try destruct (option_bind _ _ _ _) as [f|] eqn:Hcb; simpl;
      unfold task_done; simpl; rewrite ?lookup_insert_eq;
      unfold Queue.task_done; simpl;
      unfold GeminiLiveClient.finish; simpl;
      rewrite ?lookup_alter_eq, ?Ht; simpl; rewrite ?Hst; simpl;
      rewrite ?Hsid, ?bool_decide_true by done; simpl;
      rewrite ?insert_insert_eq, ?lookup_alter_eq, ?Ht; simpl;
      rewrite ?app_nil_r;
      (split; [eexists; split; [reflexivity|by rewrite ?Hst]|done]).
Qed.

Lemma counter_bump (w w' : World) (sr : ref) (key key' : string) :
  is_Some (stats_objs w !! sr) →
  stats_objs w' = alter (bump key') sr (stats_objs w) →
  counter sr key w'
    = (counter sr key w + (if bool_decide (key' = key) then 1 else 0))%Z.
Proof.
  intros [d Hd] Hso. unfold counter. rewrite Hso, lookup_alter_eq, Hd. simpl.
  unfold bump. case_bool_decide as Hk.
  - subst. by rewrite lookup_insert_eq.
  - rewrite lookup_insert_ne by done. lia.
Qed.

(** Several iterations in a row: everything a processor does to the
    connection, the error callback, the counters and its queue. *)
Lemma iterate_spec (r : role) (sid : SessionID) (tid qr : ref) (fr : frame)
    (rest : list item) (its : list item) :
  r ≠ ResponseListener →
  f_queue fr = Some qr →
  ∀ (outcomes : list (option exn)) (w : World) (q : Queue.t) (c : AsyncSession),
    waiting w tid r sid fr →
    queues w !! qr = Some q →
    Queue.items q = its ++ rest →
    length its ≤ Queue.unfinished_tasks q →
    is_Some (sessions (stores w) !! sid) →
    conns w !! f_session fr = Some c →
    is_Some (stats_objs w !! f_stats fr) →
    length outcomes = length its →
    let w' := iterate outcomes tid w in
    waiting w' tid r sid fr
    ∧ stores w' = stores w
    ∧ sent <$> conns w' !! f_session fr
      = Some (sent c ++ omap (λ p, delivered r p.1 p.2) (zip its outcomes))
    ∧ Queue.items <$> queues w' !! qr = Some rest
    ∧ calls w' = calls w
                 ++ omap (λ p, reported (callbacks (stores w) !! sid) r p.1 p.2)
                      (zip its outcomes)
    ∧ ∀ key, counter (f_stats fr) key w'
             = (counter (f_stats fr) key w
                + Z.of_nat (count (λ p, bool_decide (counted_ok r p.1 p.2 = Some key))
                              (zip its outcomes)))%Z.
Proof.
  intros Hrole Hfq.
  induction its as [|it its IH];
    intros outcomes w q c Hwait Hq Hitems Hun Hs Hc Hso Hlen w'; subst w'.
  - destruct outcomes; [|done]. simpl in *.
    split; [done|]. split; [done|].
    split; [by rewrite Hc, app_nil_r|].
    split; [rewrite Hq; simpl; by rewrite Hitems|].
    split; [by rewrite app_nil_r|].
    intros key. unfold count. simpl. lia.
  - destruct outcomes as [|o outcomes]; [done|]. simpl in Hlen, Hun.
    cbn [iterate].
    destruct (iteration_spec w tid qr r sid fr q it (its ++ rest) o
                Hwait Hrole Hfq Hq Hitems ltac:(lia) Hs)
      as (Hwait1 & Hst1 & Hq1 & Hc1 & Hso1 & Hcalls1).
    set (w1 := GeminiLiveClient.processor_resume tid
                 (GeminiLiveClient.processor_step o tid w)) in *.
    assert (∃ c1, conns w1 !! f_session fr = Some c1
                  ∧ sent c1 = sent c ++ option_list (delivered r it o))
      as (c1 & Hc1' & Hsent1).
    { rewrite Hc1. destruct (delivered r it o) as [m|].
      - rewrite lookup_alter_eq, Hc. simpl. by eexists.
      - exists c. by rewrite app_nil_r. }
    assert (is_Some (stats_objs w1 !! f_stats fr)) as Hso1'.
    { rewrite Hso1. destruct (counted_ok r it o); [|done].
      rewrite lookup_alter_eq. destruct Hso as [d ->]. by eexists. }
    set (q1 := {| Queue.items := its ++ rest; Queue.maxsize := Queue.maxsize q;
                  Queue.unfinished_tasks := pred (Queue.unfinished_tasks q) |}).
    assert (queues w1 !! qr = Some q1) as Hq1'.
    { rewrite Hq1. rewrite lookup_insert_eq. reflexivity. }
    assert (length its ≤ Queue.unfinished_tasks q1) as Hun1 by (unfold q1; simpl; lia).
    assert (is_Some (sessions (stores w1) !! sid)) as Hs1 by (by rewrite Hst1).
    assert (length outcomes = length its) as Hlen1 by lia.
    destruct (IH outcomes w1 q1 c1 Hwait1 Hq1' eq_refl Hun1 Hs1 Hc1' Hso1' Hlen1)
      as (Hwait2 & Hst2 & Hc2 & Hq2 & Hcalls2 & Hcnt2).
    split; [done|]. split; [congruence|].
    split.
    { rewrite Hc2, Hsent1. simpl.
      destruct (delivered r it o); simpl; by rewrite <- ?app_assoc, ?app_nil_r. }
    split; [done|].
    split.
    { rewrite Hcalls2, Hcalls1, Hst1. simpl.
      destruct (reported _ r it o); simpl; by rewrite <- ?app_assoc, ?app_nil_r. }
    intros key. rewrite Hcnt2.
    unfold count. simpl.
    destruct (counted_ok r it o) as [key'|] eqn:Hk.
    + rewrite (counter_bump w w1 (f_stats fr) key key' Hso Hso1).
      repeat case_bool_decide; simplify_eq; simpl; lia.
    + assert (counter (f_stats fr) key w1 = counter (f_stats fr) key w) as ->
        by (unfold counter; by rewrite Hso1).
      rewrite bool_decide_false by done. done.
Qed.

(** ** Order of delivery, failed sends, counters *)

(** X3. A send processor that waits on its queue works through the queued
    items in queue order, one per iteration.  What reaches the dialogue
    connection is, in that order, what each item is forwarded as (a text as
    client content, an accepted dict as realtime input) for the items whose
    send returned.  An item whose send raised is lost: the session's
    [on_error] callback, if one is registered, is called with the exception,
    and the processor goes on with the next item.  After the iterations the
    processor waits again and the items beyond those taken are still
    queued. *)
Theorem processor_forwards_in_order (w : World) (r : role) (sid : SessionID)
    (tid qr : ref) (fr : frame) (q : Queue.t) (c : AsyncSession)
    (its rest : list item) (outcomes : list (option exn)) :
  r ≠ ResponseListener →
  waiting w tid r sid fr →
  f_queue fr = Some qr →
  queues w !! qr = Some q →
  Queue.items q = its ++ rest →
  length its ≤ Queue.unfinished_tasks q →
  is_Some (sessions (stores w) !! sid) →
  conns w !! f_session fr = Some c →
  is_Some (stats_objs w !! f_stats fr) →
  length outcomes = length its →
  let w' := iterate outcomes tid w in
  waiting w' tid r sid fr
  ∧ sent <$> conns w' !! f_session fr
    = Some (sent c ++ omap (λ p, delivered r p.1 p.2) (zip its outcomes))
  ∧ Queue.items <$> queues w' !! qr = Some rest
  ∧ calls w' = calls w
               ++ omap (λ p, reported (callbacks (stores w) !! sid) r p.1 p.2)
                    (zip its outcomes).
Proof.
  intros Hrole Hwait Hfq Hq Hitems Hun Hs Hc Hso Hlen w'.
  destruct (iterate_spec r sid tid qr fr rest its Hrole Hfq outcomes w q c
              Hwait Hq Hitems Hun Hs Hc Hso Hlen)
    as (H1 & _ & H3 & H4 & H5 & _).
  by repeat split.
Qed.

Lemma traffic_waiting :
  waiting Traffic.queued 5 AudioProcessor "s1" Traffic.audio_frame.
Proof.
  exists {| t_session_id := "s1"; t_role := AudioProcessor;
            t_state := Suspended AtGet Traffic.audio_frame |}.
  repeat split; reflexivity.
Defined.

Lemma processor_forwards_in_order_witness :
  let w' := iterate Traffic.outcomes 5 Traffic.queued in
  Queue.items <$> queues Traffic.queued !! 1 = Some Traffic.queued_items
  ∧ sent <$> conns w' !! 0
    = Some [RealtimeAudio Scenario.frame1 "audio/pcm";
            RealtimeAudio Scenario.frame2 "audio/pcm"]
  ∧ Queue.items <$> queues w' !! 1 = Some []
  ∧ calls w' = [CallError "on_error" RuntimeError].
Proof.
  intros w'. split; [reflexivity|].
  destruct (processor_forwards_in_order Traffic.queued AudioProcessor "s1" 5 1
              Traffic.audio_frame
              {| Queue.items := Traffic.queued_items; Queue.maxsize := 50;
                 Queue.unfinished_tasks := 3 |}
              {| is_open := true; sent := [] |}
              Traffic.queued_items [] Traffic.outcomes
              ltac:(discriminate) traffic_waiting eq_refl eq_refl eq_refl
              (le_n 3) (ex_intro _ 0 eq_refl) eq_refl
              (ex_intro _ GeminiLiveClient.initial_stats eq_refl) eq_refl)
    as (_ & H2 & H3 & H4).
  split; [exact H2|]. split; [exact H3|exact H4].
Defined.

(** X4. Over such a run a counter of the processor's statistics dict grows
    by the number of items that were sent successfully and that the
    processor counts: audio dicts for [audio_sent], image dicts for
    [images_sent].  A text, an item the processor does not accept and an item
    whose send raised add nothing. *)
Theorem counters_count_successful_sends (w : World) (r : role)
    (sid : SessionID) (tid qr : ref) (fr : frame) (q : Queue.t)
    (c : AsyncSession) (its rest : list item) (outcomes : list (option exn)) :
  r ≠ ResponseListener →
  waiting w tid r sid fr →
  f_queue fr = Some qr →
  queues w !! qr = Some q →
  Queue.items q = its ++ rest →
  length its ≤ Queue.unfinished_tasks q →
  is_Some (sessions (stores w) !! sid) →
  conns w !! f_session fr = Some c →
  is_Some (stats_objs w !! f_stats fr) →
  length outcomes = length its →
  ∀ key,
    counter (f_stats fr) key (iterate outcomes tid w)
    = (counter (f_stats fr) key w
       + Z.of_nat (count (λ p, bool_decide (counted_ok r p.1 p.2 = Some key))
                     (zip its outcomes)))%Z.
Proof.
  intros Hrole Hwait Hfq Hq Hitems Hun Hs Hc Hso Hlen.
  by destruct (iterate_spec r sid tid qr fr rest its Hrole Hfq outcomes w q c
                 Hwait Hq Hitems Hun Hs Hc Hso Hlen)
    as (_ & _ & _ & _ & _ & H6).
Qed.

Lemma counters_count_successful_sends_witness :
  counter 3 "audio_sent" Traffic.queued = 0%Z
  ∧ counter 3 "audio_sent" (iterate Traffic.outcomes 5 Traffic.queued) = 2%Z.
Proof.
  split; [reflexivity|].
  etrans.
  - exact (counters_count_successful_sends Traffic.queued AudioProcessor "s1"
             5 1 Traffic.audio_frame
             {| Queue.items := Traffic.queued_items; Queue.maxsize := 50;
                Queue.unfinished_tasks := 3 |}
             {| is_open := true; sent := [] |}
             Traffic.queued_items [] Traffic.outcomes
             ltac:(discriminate) traffic_waiting eq_refl eq_refl eq_refl
             (le_n 3) (ex_intro _ 0 eq_refl) eq_refl
             (ex_intro _ GeminiLiveClient.initial_stats eq_refl) eq_refl
             "audio_sent").
  - vm_compute. reflexivity.
Defined.

(** ** The response listener on an event that is not interrupted *)

(** X5. For an event that is not marked interrupted, the listener calls the
    on-audio callback with the audio payload when the payload is not empty
    and a callback is registered, then the on-text callback with the text
    when the text is not empty and a callback is registered, in this order
    and nothing else.  [audio_received] grows by one for every non-empty
    audio payload, with or without an on-audio callback.  The stores, the
    queues and the connections are not touched and the listener keeps
    waiting for events. *)
Theorem listener_event_effects (w : World) (tid : ref) (t : Task) (fr : frame)
    (response : GeminiLiveClient.Response) :
  tasks w !! tid = Some t →
  t_role t = ResponseListener →
  t_state t = Suspended AtReceive fr →
  is_Some (stats_objs w !! f_stats fr) →
  GeminiLiveClient.is_interrupted response = false →
  let w' := GeminiLiveClient.listener_step response tid w in
  calls w' = calls w
             ++ option_list (d ← audio_of response;
                             f ← on_audio (f_callbacks fr);
                             Some (CallAudio f d))
             ++ option_list (s ← text_of response;
                             f ← on_text (f_callbacks fr);
                             Some (CallText f s))
  ∧ (∀ key, counter (f_stats fr) key w'
            = (counter (f_stats fr) key w
               + (if bool_decide (key = "audio_received" ∧ is_Some (audio_of response))
                  then 1 else 0))%Z)
  ∧ stores w' = stores w
  ∧ queues w' = queues w
  ∧ conns w' = conns w
  ∧ tasks w' = tasks w.
Proof.
  intros Ht Hrole Hst Hso Hint w'.
  unfold w', GeminiLiveClient.listener_step.
  rewrite Ht, Hrole, Hst.
  unfold GeminiLiveClient._listen_for_responses_event,
    GeminiLiveClient._call_callback, audio_of, text_of.
  rewrite Hint. run_M.
  assert (alter (set_state (Suspended AtReceive fr)) tid (tasks w) = tasks w)
    as Halter by (rewrite <- Hst; by apply alter_set_state_same).
  destruct Hso as [d Hd].
  destruct (GeminiLiveClient.data response) as [[|b bs]|];
    destruct (GeminiLiveClient.text response) as [[|ch s]|];
    destruct (on_audio (f_callbacks fr)) as [fa|];
    destruct (on_text (f_callbacks fr)) as [ft|];
    simpl; rewrite ?Halter, ?app_nil_r, <- ?app_assoc; simpl;
    (split; [done|]); (split; [|done]);
    intros key; unfold counter; simpl;
    rewrite ?lookup_alter_eq, ?Hd; simpl; unfold bump;
    case_bool_decide as Hk;
    try (destruct Hk as [-> Hk]; rewrite ?lookup_insert_eq; simpl; try lia;
         by destruct Hk);
    try lia;
    (destruct (decide (key = "audio_received")) as [->|Hne];
     [exfalso; apply Hk; split; [done|by eexists]
     |rewrite lookup_insert_ne by done; lia]).
Qed.

Lemma listener_event_effects_witness :
  let w' := GeminiLiveClient.listener_step Events.plain_audio 4
              Scenario.running in
  GeminiLiveClient.is_interrupted Events.plain_audio = false
  ∧ calls w' = [CallAudio "on_audio" [Byte.x01; Byte.x02]]
  ∧ counter 3 "audio_received" w' = 1%Z.
Proof.
  intros w'. split; [reflexivity|].
  destruct (listener_event_effects Scenario.running 4
              {| t_session_id := "s1"; t_role := ResponseListener;
                 t_state := Suspended AtReceive
                   {| f_session := 0; f_queue := None; f_stats := 3;
                      f_callbacks := {| on_audio := Some "on_audio";
                                        on_text := Some "on_text";
                                        on_error := Some "on_error" |} |} |}
              _ Events.plain_audio eq_refl eq_refl eq_refl
              (ex_intro _ GeminiLiveClient.initial_stats eq_refl) eq_refl)
    as (H1 & H2 & _).
  split; [exact H1|].
  etrans; [apply H2|]. vm_compute. reflexivity.
Defined.

(** ** Closing one session leaves the others alone *)

Lemma clear_session_entries_ne (sid sid' : SessionID) (s : SessionStores) :
  sid' ≠ sid → entries (clear_session sid s) sid' = entries s sid'.
Proof.
  intros Hne. unfold entries, clear_session. simpl.
  by rewrite !lookup_delete_ne.
Qed.

Lemma cancel_and_await_other (sid : SessionID) (tid tid' : ref) (w : World) :
  tid' ≠ tid →
  tid' ∉ session_tasks sid (stores w) →
  tasks (snd (GeminiLiveClient.cancel_and_await sid tid w)) !! tid'
    = tasks w !! tid'.
Proof.
  intros Hne Hnin. unfold GeminiLiveClient.cancel_and_await.
  destruct (run_ready_spec sid tid w) as (_ & _ & _ & Hother & _).
  specialize (Hother tid' Hnin).
  destruct (tasks w !! tid) as [t|]; [|done].
  destruct (t_state t) as [|p fr| | |]; cbn; try done.
  - by rewrite lookup_alter_ne.
  - pose proof (on_cancel_same_tasks (t_role t) p fr
                  (GeminiLiveClient.run_ready sid tid w)) as Hsame.
    destruct (GeminiLiveClient.on_cancel (t_role t) p fr
                (GeminiLiveClient.run_ready sid tid w)) as [[[]|e] w1];
      cbn in *; by rewrite lookup_alter_ne, Hsame.
Qed.

Lemma for_each_cancel_other (sid : SessionID) (l : list ref) (tid' : ref)
    (w : World) :
  tid' ∉ l →
  tid' ∉ session_tasks sid (stores w) →
  tasks (snd (for_each (GeminiLiveClient.cancel_and_await sid) l w)) !! tid'
    = tasks w !! tid'.
Proof.
  revert w. induction l as [|tid l IH]; intros w Hnin Hst; [done|].
  apply not_elem_of_cons in Hnin as [Hne Hnin].
  simpl. unfold bind.
  pose proof (cancel_and_await_other sid tid tid' w Hne Hst) as H1.
  pose proof (keeps_stores_cancel_and_await sid tid w) as Hs.
  destruct (GeminiLiveClient.cancel_and_await sid tid w) as [[[]|e] w1];
    simpl in *; [|done].
  rewrite IH; [done|done|by rewrite Hs].
Qed.

Lemma close_webrtc_same_tasks (o : GeminiLiveClient.CloseOutcomes)
    (sid : SessionID) (w : World) :
  tasks (snd (GeminiLiveClient.close_webrtc o sid w)) = tasks w.
Proof.
  unfold GeminiLiveClient.close_webrtc, GeminiLiveClient.WebRTCManager_close.
  run_M. destruct (webrtc_managers (stores w) !! sid); [|done].
  by destruct (GeminiLiveClient.webrtc_close o).
Qed.

Lemma close_context_same_tasks (o : GeminiLiveClient.CloseOutcomes)
    (sid : SessionID) (w : World) :
  tasks (snd (GeminiLiveClient.close_context o sid w)) = tasks w.
Proof.
  unfold GeminiLiveClient.close_context, GeminiLiveClient.aclose.
  run_M. destruct (contexts (stores w) !! sid) as [stack|]; [|done].
  destruct (GeminiLiveClient.context_aclose o); [done|]. simpl.
  by apply for_each_same_tasks.
Qed.

Lemma teardown_other_tasks (o : GeminiLiveClient.CloseOutcomes)
    (sid : SessionID) (tid : ref) (w : World) :
  tid ∉ session_tasks sid (stores w) →
  tasks (snd (GeminiLiveClient.teardown o sid w)) !! tid = tasks w !! tid.
Proof.
  intros Hnin. pose proof Hnin as Hst. unfold session_tasks in Hnin.
  apply not_elem_of_app in Hnin as [Hl Hp].
  unfold GeminiLiveClient.teardown, mbind, M_bind, bind.
  pose proof (keeps_stores_close_webrtc o sid w) as Hs1.
  pose proof (close_webrtc_same_tasks o sid w) as Ht1.
  destruct (GeminiLiveClient.close_webrtc o sid w) as [[[]|e1] w1];
    simpl in *; [|by rewrite Ht1].
  pose proof (keeps_stores_cancel_listener sid w1) as Hs2.
  assert (tasks (snd (GeminiLiveClient.cancel_listener sid w1)) !! tid
          = tasks w1 !! tid) as Ht2.
  { unfold GeminiLiveClient.cancel_listener. run_M. rewrite Hs1.
    destruct (response_listeners (stores w) !! sid) as [l|]; [|done].
    apply cancel_and_await_other; [|by rewrite Hs1]. simpl in Hl.
    by apply not_elem_of_cons in Hl as [? _]. }
  destruct (GeminiLiveClient.cancel_listener sid w1) as [[[]|e2] w2];
    simpl in *; [|by rewrite Ht2, Ht1].
  pose proof (keeps_stores_cancel_processors sid w2) as Hs3.
  assert (tasks (snd (GeminiLiveClient.cancel_processors sid w2)) !! tid
          = tasks w2 !! tid) as Ht3.
  { unfold GeminiLiveClient.cancel_processors. run_M. rewrite Hs2, Hs1.
    destruct (send_processor (stores w) !! sid) as [d|]; [|done].
    apply for_each_cancel_other; [done|by rewrite Hs2, Hs1]. }
  destruct (GeminiLiveClient.cancel_processors sid w2) as [[[]|e3] w3];
    simpl in *; [|by rewrite Ht3, Ht2, Ht1].
  by rewrite close_context_same_tasks, Ht3, Ht2, Ht1.
Qed.

(** X6. [close_session] for one id, whatever its teardown does, leaves the
    nine store entries of every other id as they were, and leaves every task
    that the stores do not hold for that id in the state it had: no other
    session is unregistered, cancelled or restarted. *)
Theorem close_session_leaves_others (o : GeminiLiveClient.CloseOutcomes)
    (sid : SessionID) (w : World) :
  let w' := snd (GeminiLiveClient.close_session o sid w) in
  (∀ sid', sid' ≠ sid → entries (stores w') sid' = entries (stores w) sid')
  ∧ (∀ tid, tid ∉ session_tasks sid (stores w) →
            tasks w' !! tid = tasks w !! tid).
Proof.
  intros w'. unfold w'. rewrite close_session_unfold.
  destruct (sessions (stores w) !! sid) as [c|] eqn:Hc; simpl; [|done].
  split.
  - intros sid' Hne. rewrite keeps_stores_teardown.
    by apply clear_session_entries_ne.
  - intros tid Hnin. by apply teardown_other_tasks.
Qed.

Lemma close_session_leaves_others_witness :
  let w' := snd (GeminiLiveClient.close_session Failing.webrtc_fails "s1"
                   TwoSessions.running) in
  sessions (stores TwoSessions.running) !! "s2" = Some 8
  ∧ entries (stores w') "s2" = entries (stores TwoSessions.running) "s2"
  ∧ sessions (stores w') !! "s1" = None
  ∧ tasks w' !! 13 = tasks TwoSessions.running !! 13.
Proof.
  intros w'. split; [reflexivity|].
  destruct (close_session_leaves_others Failing.webrtc_fails "s1"
              TwoSessions.running) as [H1 H2].
  split; [apply H1; discriminate|].
  split; [reflexivity|].
  apply H2. vm_compute. intros H.
  repeat (apply elem_of_cons in H as [H|H]; [discriminate|]).
  by apply elem_of_nil in H.
Defined.

(** ** close_all_sessions *)

Lemma close_session_stores (o : GeminiLiveClient.CloseOutcomes)
    (sid : SessionID) (w : World) :
  (∃ b, fst (GeminiLiveClient.close_session o sid w) = Ok b)
  ∧ stores (snd (GeminiLiveClient.close_session o sid w))
    = closed_stores (stores w) sid.
Proof.
  rewrite close_session_unfold. unfold closed_stores.
  destruct (sessions (stores w) !! sid); simpl.
  - split; [by eexists|]. by rewrite keeps_stores_teardown.
  - split; [by eexists|done].
Qed.

Lemma close_each_stores (o : SessionID → GeminiLiveClient.CloseOutcomes)
    (ids : list SessionID) : ∀ w,
  (∃ bs, fst (GeminiLiveClient.close_each o ids w) = Ok bs
         ∧ length bs = length ids)
  ∧ stores (snd (GeminiLiveClient.close_each o ids w))
    = foldl closed_stores (stores w) ids.
Proof.
  induction ids as [|sid ids IH]; intros w.
  - split; [by exists []|done].
  - simpl. unfold mbind, M_bind, bind, ret.
    destruct (close_session_stores (o sid) sid w) as [[b Hb] Hs].
    destruct (GeminiLiveClient.close_session (o sid) sid w) as [r w1].
    simpl in *. subst r. simpl.
    destruct (IH w1) as [(bs & Hbs & Hlen) Hs1].
    destruct (GeminiLiveClient.close_each o ids w1) as [r w2].
    simpl in *. subst r. simpl. split.
    + exists (b :: bs). simpl. by rewrite Hlen.
    + by rewrite Hs1, Hs.
Qed.

Lemma closed_stores_sessions_ne (s : SessionStores) (sid sid' : SessionID) :
  sid' ≠ sid → entries (closed_stores s sid) sid' = entries s sid'.
Proof.
  intros Hne. unfold closed_stores.
  destruct (sessions s !! sid); [by apply clear_session_entries_ne|done].
Qed.

Lemma closed_stores_absent (s : SessionStores) (sid sid' : SessionID) :
  absent sid' s → absent sid' (closed_stores s sid).
Proof.
  intros (H1&H2&H3&H4&H5&H6&H7&H8&H9). unfold closed_stores.
  destruct (sessions s !! sid); [|done].
  unfold absent, clear_session. simpl.
  destruct (decide (sid' = sid)) as [->|Hne].
  - by rewrite !lookup_delete_eq.
  - by rewrite !lookup_delete_ne.
Qed.

Lemma foldl_closed_stores_absent (ids : list SessionID) : ∀ s sid',
  absent sid' s → absent sid' (foldl closed_stores s ids).
Proof.
  induction ids as [|sid ids IH]; intros s sid' Ha; [done|].
  simpl. by apply IH, closed_stores_absent.
Qed.

Lemma foldl_closed_stores_not_in (ids : list SessionID) : ∀ s sid',
  sid' ∉ ids → entries (foldl closed_stores s ids) sid' = entries s sid'.
Proof.
  induction ids as [|sid ids IH]; intros s sid' Hnin; [done|].
  apply not_elem_of_cons in Hnin as [Hne Hnin]. simpl.
  by rewrite IH, closed_stores_sessions_ne.
Qed.

Lemma entries_sessions (s s' : SessionStores) (sid : SessionID) :
  entries s sid = entries s' sid → sessions s !! sid = sessions s' !! sid.
Proof.
  intros H. by apply (f_equal (λ t, t.1.1.1.1.1.1.1.1)) in H.
Qed.

Lemma foldl_closed_stores_in (ids : list SessionID) : ∀ s sid',
  sid' ∈ ids →
  sessions (foldl closed_stores s ids) !! sid' = None
  ∧ (is_Some (sessions s !! sid') → absent sid' (foldl closed_stores s ids)).
Proof.
  induction ids as [|sid ids IH]; intros s sid' Hin.
  { by apply elem_of_nil in Hin. }
  simpl.
  destruct (decide (sid' = sid)) as [->|Hne].
  - assert (sessions (closed_stores s sid) !! sid = None
            ∧ (is_Some (sessions s !! sid) → absent sid (closed_stores s sid)))
      as [Hn Ha].
    { unfold closed_stores. destruct (sessions s !! sid) eqn:Hs.
      - split; [simpl; by rewrite lookup_delete_eq|].
        intros _. apply clear_session_absent.
      - split; [done|]. by intros [? ?]. }
    split.
    + destruct (decide (sid ∈ ids)) as [Hin'|Hnin].
      * by destruct (IH (closed_stores s sid) sid Hin') as [? _].
      * by rewrite (entries_sessions _ _ _
                      (foldl_closed_stores_not_in ids (closed_stores s sid)
                         sid Hnin)).
    + intros Hs. by apply foldl_closed_stores_absent, Ha.
  - apply elem_of_cons in Hin as [?|Hin]; [done|].
    destruct (IH (closed_stores s sid) sid' Hin) as [Hn Ha].
    split; [done|]. intros Hs. apply Ha.
    by rewrite (entries_sessions _ _ _ (closed_stores_sessions_ne s sid sid' Hne)).
Qed.

(** X7. [close_all_sessions] never raises, whatever the teardowns of the
    single sessions do.  When it returns, no session is registered
    ([get_active_sessions] is empty) and every session that was registered
    has lost its entry in each of the nine dictionaries. *)
Theorem close_all_sessions_clears (o : SessionID → GeminiLiveClient.CloseOutcomes)
    (w : World) :
  let r := GeminiLiveClient.close_all_sessions o w in
  fst r = Ok tt
  ∧ sessions (stores (snd r)) = ∅
  ∧ GeminiLiveClient.get_active_sessions (snd r) = []
  ∧ (∀ sid, is_Some (sessions (stores w) !! sid) → absent sid (stores (snd r))).
Proof.
  intros r. unfold r, GeminiLiveClient.close_all_sessions.
  unfold mbind, M_bind, bind, gets, ret.
  destruct (close_each_stores o (GeminiLiveClient.get_active_sessions w) w)
    as [(bs & Hbs & _) Hs].
  destruct (GeminiLiveClient.close_each o _ w) as [res w1].
  simpl in *. subst res. simpl.
  assert (∀ sid, is_Some (sessions (stores w) !! sid) →
                 sid ∈ GeminiLiveClient.get_active_sessions w) as Hkeys.
  { intros sid [c Hc]. unfold GeminiLiveClient.get_active_sessions.
    apply list_elem_of_fmap. exists (sid, c). split; [done|].
    by apply elem_of_map_to_list. }
  assert (sessions (stores w1) = ∅) as Hempty.
  { apply map_eq. intros sid. rewrite lookup_empty, Hs.
    destruct (sessions (stores w) !! sid) as [c|] eqn:Hc.
    - destruct (foldl_closed_stores_in (GeminiLiveClient.get_active_sessions w)
                  (stores w) sid) as [? _]; [|done].
      apply Hkeys. by eexists.
    - destruct (decide (sid ∈ GeminiLiveClient.get_active_sessions w))
        as [Hin|Hnin].
      + by destruct (foldl_closed_stores_in _ (stores w) sid Hin) as [? _].
      + by rewrite (entries_sessions _ _ _
                      (foldl_closed_stores_not_in _ (stores w) sid Hnin)). }
  split; [done|]. split; [done|]. split.
  - unfold GeminiLiveClient.get_active_sessions.
    by rewrite Hempty, map_to_list_empty.
  - intros sid Hsid. rewrite Hs.
    destruct (foldl_closed_stores_in _ (stores w) sid (Hkeys sid Hsid))
      as [_ Ha]. by apply Ha.
Qed.

Lemma close_all_sessions_clears_witness :
  let r := GeminiLiveClient.close_all_sessions (λ _, Failing.webrtc_fails)
             TwoSessions.running in
  is_Some (sessions (stores TwoSessions.running) !! "s2")
  ∧ fst r = Ok tt
  ∧ GeminiLiveClient.get_active_sessions (snd r) = []
  ∧ absent "s2" (stores (snd r)).
Proof.
  intros r.
  assert (is_Some (sessions (stores TwoSessions.running) !! "s2")) as Hs
    by (by exists 8).
  split; [exact Hs|].
  destruct (close_all_sessions_clears (λ _, Failing.webrtc_fails)
              TwoSessions.running) as (H1 & _ & H3 & H4).
  split; [exact H1|]. split; [exact H3|exact (H4 "s2" Hs)].
Defined.

(** ** A successful create_webrtc_session *)

(** Evaluates the straight-line registrations on a world given by its
    components. *)
Ltac eval_world :=
  cbv beta iota zeta delta
    [GeminiLiveClient.register_session GeminiLiveClient.open_connection
     mbind M_bind bind ret modify gets try_except external
     new_queue new_stats new_task new_rtc new_conn fresh
     with_stores with_queues with_stats with_tasks with_rtcs with_conns
     set_sessions set_callbacks set_response_listeners set_send_processor
     set_audio_send_queues set_media_send_queues set_contexts
     set_webrtc_managers set_session_stats
     fst snd stores tasks queues stats_objs conns rtcs calls next_ref
     sessions callbacks response_listeners send_processor audio_send_queues
     media_send_queues contexts webrtc_managers session_stats entries].

(** The objects of a session as [create_webrtc_session] registers them. *)
Lemma open_and_register_spec (cfg : Config) (sid : SessionID)
    (a t e : option string) (w : World) :
  GEMINI_API_KEY cfg ≠ "" →
  let n := next_ref w in
  let r := GeminiLiveClient.open_and_register cfg None sid a t e w in
  fst r = Ok (Some (n + 7))
  ∧ entries (stores (snd r)) sid
    = (Some n, Some {| on_audio := a; on_text := t; on_error := e |},
       Some (n + 4), Some [("audio", n + 5); ("media", n + 6)],
       Some (n + 1), Some (n + 2), Some {| entered := [n] |}, Some (n + 7),
       Some (n + 3))
  ∧ conns (snd r) !! n = Some {| is_open := true; sent := [] |}
  ∧ queues (snd r) !! (n + 1) = Some (Queue.new 50)
  ∧ queues (snd r) !! (n + 2) = Some (Queue.new 1)
  ∧ stats_objs (snd r) !! (n + 3) = Some GeminiLiveClient.initial_stats
  ∧ tasks (snd r) !! (n + 4)
    = Some {| t_session_id := sid; t_role := ResponseListener;
              t_state := Created |}
  ∧ tasks (snd r) !! (n + 5)
    = Some {| t_session_id := sid; t_role := AudioProcessor;
              t_state := Created |}
  ∧ tasks (snd r) !! (n + 6)
    = Some {| t_session_id := sid; t_role := MediaProcessor;
              t_state := Created |}
  ∧ rtcs (snd r) !! (n + 7)
    = Some {| rtc_session_id := sid; rtc_has_offer := false;
              rtc_has_answer := false; rtc_closed := false |}
  ∧ calls (snd r) = calls w
  ∧ (∀ sid', sid' ≠ sid →
       entries (stores (snd r)) sid' = entries (stores w) sid').
Proof.
  intros Hkey n r. unfold r, n, GeminiLiveClient.open_and_register,
    GeminiLiveClient._get_client.
  rewrite decide_False by done.
  destruct w as [[s1 s2 s3 s4 s5 s6 s7 s8 s9] ts qs so cs rs cl k].
  eval_world.
  replace (k + 1) with (S k) by lia.
  replace (k + 2) with (S (S k)) by lia.
  replace (k + 3) with (S (S (S k))) by lia.
  replace (k + 4) with (S (S (S (S k)))) by lia.
  replace (k + 5) with (S (S (S (S (S k))))) by lia.
  replace (k + 6) with (S (S (S (S (S (S k)))))) by lia.
  replace (k + 7) with (S (S (S (S (S (S (S k))))))) by lia.
  split; [done|].
  split.
  { by rewrite !lookup_alter_eq, !lookup_insert_eq. }
  repeat split;
    try (intros sid' Hne;
         by rewrite ?lookup_alter_ne, ?lookup_insert_ne by done);
    repeat first [ done
                 | rewrite lookup_insert_eq
                 | rewrite lookup_insert_ne by lia ].
Qed.

(** [create_webrtc_session] is its [try] run after the teardown of a prior
    session with the same id, if there is one. *)
Lemma create_after_close (cfg : Config) (oc : GeminiLiveClient.CloseOutcomes)
    (connect : option exn) (sid : SessionID) (a t e : option string)
    (w : World) :
  ∃ w1, stores w1 = closed_stores (stores w) sid
        ∧ (sessions (stores w) !! sid = None → w1 = w)
        ∧ GeminiLiveClient.create_webrtc_session cfg oc connect sid a t e w
          = try_except
              (GeminiLiveClient.open_and_register cfg connect sid a t e)
              is_ValueError_RuntimeError_KeyError
              (λ e', GeminiLiveClient._handle_error sid e';; ret None) w1.
Proof.
  unfold GeminiLiveClient.create_webrtc_session.
  unfold mbind at 1 2, M_bind at 1 2, bind at 1 2, gets at 1.
  destruct (sessions (stores w) !! sid) as [c|] eqn:Hc.
  - rewrite bool_decide_true by done.
    destruct (close_session_stores oc sid w) as [[b Hb] Hs].
    destruct (GeminiLiveClient.close_session oc sid w) as [res w1].
    simpl in *. subst res. exists w1. by repeat split.
  - rewrite bool_decide_false by (by intros [? ?]).
    exists w. unfold closed_stores. rewrite Hc. by repeat split.
Qed.

(** X8. With an API key and a dialogue connection that opens,
    [create_webrtc_session] returns a WebRTC manager and leaves the session
    fully registered, whatever the process looked like before and whatever
    the teardown of a prior session with the same id did: the id is an active
    session; all nine dictionaries have an entry for it; the connection is
    open with nothing sent; the audio queue is empty with capacity 50 and
    the media queue, a different object, is empty with capacity 1; the four
    counters are zero; the listener and the two processors exist, not yet
    run; the callbacks are the ones given.  The entries of every other
    session id are as before. *)
Theorem create_registers_session (cfg : Config)
    (oc : GeminiLiveClient.CloseOutcomes) (sid : SessionID)
    (a t e : option string) (w : World) :
  GEMINI_API_KEY cfg ≠ "" →
  let r := GeminiLiveClient.create_webrtc_session cfg oc None sid a t e w in
  ∃ c aq mq st l pa pm mgr,
    fst r = Ok (Some mgr)
    ∧ sid ∈ GeminiLiveClient.get_active_sessions (snd r)
    ∧ entries (stores (snd r)) sid
      = (Some c, Some {| on_audio := a; on_text := t; on_error := e |},
         Some l, Some [("audio", pa); ("media", pm)], Some aq, Some mq,
         Some {| entered := [c] |}, Some mgr, Some st)
    ∧ conns (snd r) !! c = Some {| is_open := true; sent := [] |}
    ∧ queues (snd r) !! aq = Some (Queue.new 50)
    ∧ queues (snd r) !! mq = Some (Queue.new 1)
    ∧ aq ≠ mq
    ∧ GeminiLiveClient.get_session_stats sid (snd r)
      = Some GeminiLiveClient.initial_stats
    ∧ (∀ key, key ∈ ["audio_sent"; "images_sent"; "images_skipped";
                     "audio_received"] →
              GeminiLiveClient.initial_stats !! key = Some 0%Z)
    ∧ tasks (snd r) !! l
      = Some {| t_session_id := sid; t_role := ResponseListener;
                t_state := Created |}
    ∧ tasks (snd r) !! pa
      = Some {| t_session_id := sid; t_role := AudioProcessor;
                t_state := Created |}
    ∧ tasks (snd r) !! pm
      = Some {| t_session_id := sid; t_role := MediaProcessor;
                t_state := Created |}
    ∧ rtcs (snd r) !! mgr
      = Some {| rtc_session_id := sid; rtc_has_offer := false;
                rtc_has_answer := false; rtc_closed := false |}
    ∧ (∀ sid', sid' ≠ sid →
         entries (stores (snd r)) sid' = entries (stores w) sid').
Proof.
  intros Hkey r.
  destruct (create_after_close cfg oc None sid a t e w) as (w1 & Hs1 & _ & Hr).
  unfold r. rewrite Hr. unfold try_except.
  destruct (open_and_register_spec cfg sid a t e w1 Hkey)
    as (H1 & H2 & H3 & H4 & H5 & H6 & H7 & H8 & H9 & H10 & _ & H12).
  destruct (GeminiLiveClient.open_and_register cfg None sid a t e w1)
    as [res w2]. simpl in *. subst res.
  set (n := next_ref w1) in *.
  exists n, (n + 1), (n + 2), (n + 3), (n + 4), (n + 5), (n + 6), (n + 7).
  split; [done|]. split.
  { unfold GeminiLiveClient.get_active_sessions.
    simpl. apply list_elem_of_fmap. exists (sid, n). split; [done|].
    apply elem_of_map_to_list.
    by apply (f_equal (λ t, t.1.1.1.1.1.1.1.1)) in H2. }
  split; [done|]. split; [done|]. split; [done|]. split; [done|].
  split; [lia|]. split.
  { unfold GeminiLiveClient.get_session_stats.
    apply (f_equal snd) in H2. simpl in *. by rewrite H2. }
  split.
  { intros key Hin.
    repeat (apply elem_of_cons in Hin as [->|Hin]; [reflexivity|]).
    by apply elem_of_nil in Hin. }
  repeat (split; [done|]).
  intros sid' Hne. simpl. rewrite (H12 sid' Hne), Hs1.
  by apply closed_stores_sessions_ne.
Qed.

Lemma create_registers_session_witness :
  let r := GeminiLiveClient.create_webrtc_session Scenario.cfg
             Failing.webrtc_fails None "s1" (Some "a2") None None
             Scenario.running in
  GEMINI_API_KEY Scenario.cfg ≠ ""
  ∧ fst r = Ok (Some 15)
  ∧ GeminiLiveClient.get_session_stats "s1" (snd r)
    = Some GeminiLiveClient.initial_stats
  ∧ callbacks (stores (snd r)) !! "s1"
    = Some {| on_audio := Some "a2"; on_text := None; on_error := None |}.
Proof.
  intros r.
  assert (GEMINI_API_KEY Scenario.cfg ≠ "") as Hkey by discriminate.
  split; [exact Hkey|].
  destruct (create_registers_session Scenario.cfg Failing.webrtc_fails "s1"
              (Some "a2") None None Scenario.running Hkey)
    as (c & aq & mq & st & l & pa & pm & mgr & H1 & _ & _ & _ & _ & _ & _
        & H8 & _).
  split; [reflexivity|]. split; [exact H8|reflexivity].
Defined.

(** ** A failed create_webrtc_session *)









(** ** SessionService.create_session *)

(** A [create_webrtc_session] that succeeds returns the manager it has
    stored for the session, which has made no offer yet. *)
Lemma create_returns_manager (cfg : Config)
    (oc : GeminiLiveClient.CloseOutcomes) (sid : SessionID)
    (a t e : option string) (w : World) :
  GEMINI_API_KEY cfg ≠ "" →
  let r := GeminiLiveClient.create_webrtc_session cfg oc None sid a t e w in
  ∃ mgr, fst r = Ok (Some mgr)
         ∧ webrtc_managers (stores (snd r)) !! sid = Some mgr
         ∧ rtcs (snd r) !! mgr
           = Some {| rtc_session_id := sid; rtc_has_offer := false;
                     rtc_has_answer := false; rtc_closed := false |}
         ∧ is_Some (sessions (stores (snd r)) !! sid).
Proof.
  intros Hkey r.
  destruct (create_after_close cfg oc None sid a t e w) as (w1 & Hs1 & _ & Hr).
  unfold r. rewrite Hr. unfold try_except.
  destruct (open_and_register_spec cfg sid a t e w1 Hkey)
    as (H1 & H2 & _ & _ & _ & _ & _ & _ & _ & H10 & _).
  destruct (GeminiLiveClient.open_and_register cfg None sid a t e w1)
    as [res w2]. simpl in *. subst res.
  exists (next_ref w1 + 7). split; [done|]. split; [|split; [done|]].
  - by apply (f_equal (λ t, t.1.2)) in H2.
  - exists (next_ref w1). by apply (f_equal (λ t, t.1.1.1.1.1.1.1.1)) in H2.
Qed.

(** X10. [create_session] with an API key, a dialogue connection that opens
    and an offer that is produced: it returns the session id with the SDP of
    the offer; the session is registered in the client with a WebRTC manager
    that has made its offer; the record persisted under
    [session:<id>] has status "pending", the system instruction of the
    request, and an expiry of 300 seconds.  [set_webrtc_answer] with an
    accepted answer then succeeds and the record becomes "active" with the
    same system instruction and no expiry. *)
Theorem create_session_then_answer (cfg : Config)
    (oc : GeminiLiveClient.CloseOutcomes) (sdp : string) (sid : SessionID)
    (instruction : string) (s : SessionService.State) :
  GEMINI_API_KEY cfg ≠ "" →
  let r := SessionService.create_session cfg oc None (Ok sdp) sid instruction s in
  let r2 := SessionService.set_webrtc_answer None sid (snd r) in
  fst r = Ok (sid, sdp)
  ∧ SessionService.redis_client (snd r) !! SessionService.session_key sid
    = Some (pending_record instruction)
  ∧ (∃ mgr m, webrtc_managers (stores (SessionService.gemini_client (snd r)))
                !! sid = Some mgr
              ∧ rtcs (SessionService.gemini_client (snd r)) !! mgr = Some m
              ∧ rtc_has_offer m = true)
  ∧ fst r2 = Ok tt
  ∧ SessionService.redis_client (snd r2) !! SessionService.session_key sid
    = Some {| SessionService.value :=
                <["status" := "active"]>
                  (SessionService.value (pending_record instruction));
              SessionService.ex := None |}
  ∧ (SessionService.redis_client (snd r2) !! SessionService.session_key sid
       ≫= λ e, SessionService.value e !! "system_instruction")
    = Some instruction.
Proof.
  intros Hkey r r2.
  destruct (create_returns_manager cfg oc sid (Some "on_audio_received")
              None (Some "on_error_callback")
              (SessionService.gemini_client s) Hkey)
    as (mgr & H1 & Hmgr & Hrtc & _).
  assert (r = (Ok (sid, sdp),
               {| SessionService.gemini_client :=
                    with_rtcs
                      (alter (λ m, {| rtc_session_id := rtc_session_id m;
                                      rtc_has_offer := true;
                                      rtc_has_answer := rtc_has_answer m;
                                      rtc_closed := rtc_closed m |}) mgr)
                      (snd (GeminiLiveClient.create_webrtc_session cfg oc None
                              sid (Some "on_audio_received") None
                              (Some "on_error_callback")
                              (SessionService.gemini_client s)));
                  SessionService.redis_client :=
                    <[SessionService.session_key sid := pending_record instruction]>
                      (SessionService.redis_client s) |})) as Hr.
  { unfold r, SessionService.create_session, SessionService.client,
      SessionService.create_offer.
    destruct (GeminiLiveClient.create_webrtc_session cfg oc None sid
                (Some "on_audio_received") None (Some "on_error_callback")
                (SessionService.gemini_client s)) as [res w1].
    simpl in *. subst res. done. }
  assert (r2 = SessionService.set_webrtc_answer None sid (snd r)) as Hr2 by done.
  clearbody r r2. subst r. simpl in *.
  split; [done|].
  split; [by rewrite lookup_insert_eq|].
  split.
  { exists mgr. eexists. split; [done|].
    rewrite lookup_alter_eq, Hrtc. simpl. done. }
  unfold SessionService.set_webrtc_answer, SessionService.client,
    SessionService.set_answer in Hr2.
  simpl in Hr2. rewrite lookup_insert_eq, Hmgr in Hr2. simpl in Hr2.
  subst r2. simpl.
  split; [done|]. rewrite lookup_insert_eq. split; [done|].
  simpl. rewrite lookup_insert_ne by done. by rewrite lookup_insert_eq.
Qed.

Lemma create_session_then_answer_witness :
  let r := SessionService.create_session Scenario.cfg Scenario.smooth None
             (Ok "v=0 offer") "s1" "You are a helpful assistant"
             ServiceScenario.start in
  GEMINI_API_KEY Scenario.cfg ≠ ""
  ∧ fst r = Ok ("s1", "v=0 offer")
  ∧ SessionService.persisted_status "s1" (snd r) = Some "pending"
  ∧ SessionService.persisted_status "s1"
      (snd (SessionService.set_webrtc_answer None "s1" (snd r)))
    = Some "active".
Proof.
  intros r.
  assert (GEMINI_API_KEY Scenario.cfg ≠ "") as Hkey by discriminate.
  split; [exact Hkey|].
  destruct (create_session_then_answer Scenario.cfg Scenario.smooth
              "v=0 offer" "s1" "You are a helpful assistant"
              ServiceScenario.start Hkey) as (H1 & _).
  split; [exact H1|]. split; reflexivity.
Defined.

(** ** ConnectionManager *)

Lemma broadcast_known (sid : SessionID) (ws qr : ref)
    (q : ConnectionManager.AudioQueue) (data : bytes)
    (m : ConnectionManager.t) :
  ConnectionManager.active_connections m !! sid = Some (ws, qr) →
  ConnectionManager.audio_queues m !! qr = Some q →
  ConnectionManager.broadcast sid data m
  = if Nat.leb ConnectionManager.maxsize (length (ConnectionManager.pending q))
    then m
    else ConnectionManager.with_audio_queues
           <[qr := {| ConnectionManager.pending :=
                        ConnectionManager.pending q ++ [data];
                      ConnectionManager.unfinished :=
                        S (ConnectionManager.unfinished q) |}]> m.
Proof.
  intros Hc Hq. unfold ConnectionManager.broadcast.
  rewrite Hc, Hq. unfold ConnectionManager.put_nowait.
  by destruct (Nat.leb _ _).
Qed.

(** What a run of [broadcast] calls does to the queue of a connected
    session. *)
Lemma broadcast_all_spec (sid : SessionID) (ws qr : ref)
    (q : ConnectionManager.AudioQueue) (datas : list bytes)
    (m : ConnectionManager.t) :
  ConnectionManager.active_connections m !! sid = Some (ws, qr) →
  ConnectionManager.audio_queues m !! qr = Some q →
  let m' := ConnectionManager.broadcast_all sid datas m in
  let room := ConnectionManager.maxsize - length (ConnectionManager.pending q) in
  ConnectionManager.active_connections m' = ConnectionManager.active_connections m
  ∧ ConnectionManager.sent_bytes m' = ConnectionManager.sent_bytes m
  ∧ ConnectionManager.audio_queues m' !! qr
    = Some {| ConnectionManager.pending :=
                ConnectionManager.pending q ++ take room datas;
              ConnectionManager.unfinished :=
                ConnectionManager.unfinished q + length (take room datas) |}
  ∧ (∀ r, r ≠ qr → ConnectionManager.audio_queues m' !! r
                   = ConnectionManager.audio_queues m !! r).
Proof.
  revert m q. induction datas as [|d datas IH]; intros m q Hc Hq m' room.
  - subst m'. rewrite take_nil, app_nil_r, Nat.add_0_r. destruct q. done.
  - subst m'. unfold ConnectionManager.broadcast_all. cbn [foldl].
    fold (ConnectionManager.broadcast_all sid datas
            (ConnectionManager.broadcast sid d m)).
    rewrite (broadcast_known sid ws qr q d m Hc Hq).
    destruct (Nat.leb _ _) eqn:Hfull.
    + apply Nat.leb_le in Hfull.
      pose proof (IH m q Hc Hq) as H. cbv zeta in H.
      assert (room = 0) as Hroom by (unfold room; lia).
      fold room in H. rewrite Hroom in *. by rewrite !take_0 in *.
    + apply Nat.leb_gt in Hfull.
      set (q1 := {| ConnectionManager.pending :=
                      ConnectionManager.pending q ++ [d];
                    ConnectionManager.unfinished :=
                      S (ConnectionManager.unfinished q) |}).
      set (m1 := ConnectionManager.with_audio_queues <[qr := q1]> m).
      assert (ConnectionManager.active_connections m1 !! sid = Some (ws, qr))
        as Hc1 by done.
      assert (ConnectionManager.audio_queues m1 !! qr = Some q1) as Hq1
        by (unfold m1; cbn; by rewrite lookup_insert_eq).
      pose proof (IH m1 q1 Hc1 Hq1) as H. cbv zeta in H.
      destruct H as (H1 & H2 & H3 & H4).
      assert (room = S (ConnectionManager.maxsize
                          - length (ConnectionManager.pending q1)))
        as Hroom.
      { unfold room, q1. cbn [ConnectionManager.pending].
        rewrite length_app. cbn [length]. lia. }
      split; [done|]. split; [done|]. split.
      * rewrite H3, Hroom. rewrite firstn_cons.
        set (tk := take _ datas). clearbody tk. unfold q1.
        cbn [ConnectionManager.pending ConnectionManager.unfinished length].
        rewrite <- app_assoc. cbn [app]. f_equal. f_equal. lia.
      * intros r Hr. rewrite H4 by done. unfold m1. cbn.
        by rewrite lookup_insert_ne.
Qed.

(** X11. [broadcast] never lets the queue of a connection grow beyond 100
    chunks: of the chunks broadcast to a connected session, those for which
    there is room are appended in order, the rest are dropped; the
    connections, the other queues and what was sent stay as they are. *)
Theorem broadcast_all_bounded (sid : SessionID) (ws qr : ref)
    (q : ConnectionManager.AudioQueue) (datas : list bytes)
    (m : ConnectionManager.t) :
  ConnectionManager.active_connections m !! sid = Some (ws, qr) →
  ConnectionManager.audio_queues m !! qr = Some q →
  let m' := ConnectionManager.broadcast_all sid datas m in
  let room := ConnectionManager.maxsize - length (ConnectionManager.pending q) in
  ConnectionManager.active_connections m' = ConnectionManager.active_connections m
  ∧ ConnectionManager.sent_bytes m' = ConnectionManager.sent_bytes m
  ∧ ConnectionManager.audio_queues m' !! qr
    = Some {| ConnectionManager.pending :=
                ConnectionManager.pending q ++ take room datas;
              ConnectionManager.unfinished :=
                ConnectionManager.unfinished q + length (take room datas) |}
  ∧ (∀ r, r ≠ qr → ConnectionManager.audio_queues m' !! r
                   = ConnectionManager.audio_queues m !! r).
Proof.
  intros Hc Hq. exact (broadcast_all_spec sid ws qr q datas m Hc Hq).
Qed.

Lemma broadcast_all_bounded_witness :
  let datas := repeat [Byte.x01] 100 ++ [[Byte.x02]; [Byte.x03]] in
  let m' := ConnectionManager.broadcast_all "s1" datas Reconnect.first in
  ConnectionManager.active_connections Reconnect.first !! "s1" = Some (10, 0)
  ∧ ConnectionManager.audio_queues Reconnect.first !! 0
    = Some {| ConnectionManager.pending := [];
              ConnectionManager.unfinished := 0 |}
  ∧ ConnectionManager.audio_queues m' !! 0
    = Some {| ConnectionManager.pending := repeat [Byte.x01] 100;
              ConnectionManager.unfinished := 100 |}.
Proof.
  intros datas m'.
  assert (ConnectionManager.active_connections Reconnect.first !! "s1"
          = Some (10, 0)) as Hc by (vm_compute; reflexivity).
  assert (ConnectionManager.audio_queues Reconnect.first !! 0
          = Some {| ConnectionManager.pending := [];
                    ConnectionManager.unfinished := 0 |}) as Hq
    by (vm_compute; reflexivity).
  split; [exact Hc|]. split; [exact Hq|].
  destruct (broadcast_all_bounded "s1" 10 0 _ datas Reconnect.first Hc Hq)
    as (_ & _ & H3 & _).
  etrans; [exact H3|]. vm_compute. reflexivity.
Defined.

Lemma consumer_step_sends (sid : SessionID) (qr ws : ref) (data : bytes)
    (rest : list bytes) (n : nat) (m : ConnectionManager.t) :
  ConnectionManager.audio_queues m !! qr
  = Some {| ConnectionManager.pending := data :: rest;
            ConnectionManager.unfinished := S n |} →
  ConnectionManager.consumer_step None sid qr ws m
  = (ConnectionManager.Waiting,
     {| ConnectionManager.active_connections :=
          ConnectionManager.active_connections m;
        ConnectionManager.audio_queues :=
          <[qr := {| ConnectionManager.pending := rest;
                     ConnectionManager.unfinished := n |}]>
            (ConnectionManager.audio_queues m);
        ConnectionManager.sent_bytes :=
          <[ws := default [] (ConnectionManager.sent_bytes m !! ws) ++ [data]]>
            (ConnectionManager.sent_bytes m);
        ConnectionManager.next_queue := ConnectionManager.next_queue m |}).
Proof.
  intros Hq. unfold ConnectionManager.consumer_step. rewrite Hq. cbn.
  unfold ConnectionManager.with_audio_queues. cbn.
  by rewrite insert_insert_eq.
Qed.

(** The consumer sends what is in its queue, in order. *)
Lemma consume_sends (sid : SessionID) (qr ws : ref) (datas : list bytes)
    (n : nat) (m : ConnectionManager.t) :
  ConnectionManager.audio_queues m !! qr
  = Some {| ConnectionManager.pending := datas;
            ConnectionManager.unfinished := length datas + n |} →
  ∃ m', ConnectionManager.consume (replicate (length datas) None) sid qr ws m
        = (ConnectionManager.Waiting, m')
        ∧ ConnectionManager.active_connections m'
          = ConnectionManager.active_connections m
        ∧ ConnectionManager.audio_queues m' !! qr
          = Some {| ConnectionManager.pending := [];
                    ConnectionManager.unfinished := n |}
        ∧ default [] (ConnectionManager.sent_bytes m' !! ws)
          = default [] (ConnectionManager.sent_bytes m !! ws) ++ datas.
Proof.
  revert m. induction datas as [|d datas IH]; intros m Hq.
  - exists m. cbn. by rewrite app_nil_r.
  - cbn [length replicate ConnectionManager.consume].
    rewrite (consumer_step_sends sid qr ws d datas (length datas + n) m Hq).
    set (m1 := {| ConnectionManager.active_connections := _ |}).
    destruct (IH m1) as (m' & H1 & H2 & H3 & H4).
    { unfold m1. cbn. by rewrite lookup_insert_eq. }
    exists m'. split; [done|]. split; [done|]. split; [done|].
    rewrite H4. unfold m1. cbn. rewrite lookup_insert_eq. cbn.
    by rewrite <- app_assoc.
Qed.

(** X12. Round trip of a connection: after [connect], the chunks given to
    [broadcast] come out on the WebSocket in the order they were given, as
    far as the queue had room for them (the first 100 when the consumer
    does not run in between); the queue is empty again, with no unfinished
    item, the consumer waits and the session is still connected. *)
Theorem broadcast_then_consume (sid : SessionID) (ws : ref)
    (datas : list bytes) (m : ConnectionManager.t) :
  let r := ConnectionManager.connect None sid ws m in
  let qr := ConnectionManager.next_queue m in
  let m1 := ConnectionManager.broadcast_all sid datas (snd r) in
  let kept := take ConnectionManager.maxsize datas in
  ∃ m2, fst r = Ok qr
        ∧ ConnectionManager.consume (replicate (length kept) None) sid qr ws m1
          = (ConnectionManager.Waiting, m2)
        ∧ default [] (ConnectionManager.sent_bytes m2 !! ws)
          = default [] (ConnectionManager.sent_bytes m !! ws) ++ kept
        ∧ ConnectionManager.audio_queues m2 !! qr
          = Some {| ConnectionManager.pending := [];
                    ConnectionManager.unfinished := 0 |}
        ∧ ConnectionManager.active_connections m2 !! sid = Some (ws, qr).
Proof.
  intros r qr m1 kept.
  assert (ConnectionManager.active_connections (snd r) !! sid = Some (ws, qr))
    as Hc by (cbn; by rewrite lookup_insert_eq).
  assert (ConnectionManager.audio_queues (snd r) !! qr
          = Some {| ConnectionManager.pending := [];
                    ConnectionManager.unfinished := 0 |}) as Hq
    by (cbn; by rewrite lookup_insert_eq).
  pose proof (broadcast_all_spec sid ws qr _ datas (snd r) Hc Hq) as H.
  cbv zeta in H. fold m1 in H. cbn [ConnectionManager.pending
    ConnectionManager.unfinished length app] in H.
  rewrite Nat.sub_0_r in H. fold kept in H.
  destruct H as (H1 & H2 & H3 & _).
  destruct (consume_sends sid qr ws kept 0 m1) as (m2 & E1 & E2 & E3 & E4).
  { rewrite H3. by rewrite Nat.add_0_r. }
  exists m2. split; [done|]. split; [done|]. split.
  { rewrite E4, H2. done. }
  split; [done|]. by rewrite E2, H1.
Qed.

Lemma disconnect_lookup (sid sid' : SessionID) (m : ConnectionManager.t) :
  ConnectionManager.active_connections (ConnectionManager.disconnect sid m)
    !! sid'
  = if decide (sid' = sid) then None
    else ConnectionManager.active_connections m !! sid'.
Proof.
  unfold ConnectionManager.disconnect.
  destruct (ConnectionManager.active_connections m !! sid) eqn:Hs; cbn.
  - destruct (decide (sid' = sid)) as [->|Hne].
    + by rewrite lookup_delete_eq.
    + by rewrite lookup_delete_ne.
  - destruct (decide (sid' = sid)) as [->|Hne]; done.
Qed.

(** X13. When the send of a consumer fails, or its task is cancelled while
    it waits on its queue, empty or not, the entry of its session id is
    removed from [active_connections] whichever connection is registered
    there, be it the consumer's own or a newer one; [broadcast] for that id
    then changes nothing, and the other sessions stay connected.  A
    cancellation changes nothing else.  The chunk whose send failed is
    neither sent nor put back. *)
Theorem consumer_end_disconnects (sid : SessionID) (queue websocket : ref)
    (e : exn) (m : ConnectionManager.t) :
  let m' := ConnectionManager.consumer_cancelled sid m in
  (ConnectionManager.active_connections m' !! sid = None
   ∧ (∀ sid', sid' ≠ sid →
        ConnectionManager.active_connections m' !! sid'
        = ConnectionManager.active_connections m !! sid')
   ∧ ConnectionManager.audio_queues m' = ConnectionManager.audio_queues m
   ∧ ConnectionManager.sent_bytes m' = ConnectionManager.sent_bytes m
   ∧ (∀ d, ConnectionManager.broadcast sid d m' = m'))
  ∧ (∀ q data rest,
       ConnectionManager.audio_queues m !! queue = Some q →
       ConnectionManager.pending q = data :: rest →
       let r := ConnectionManager.consumer_step (Some e) sid queue websocket m in
       fst r = ConnectionManager.Ended
       ∧ ConnectionManager.active_connections (snd r) !! sid = None
       ∧ (∀ sid', sid' ≠ sid →
            ConnectionManager.active_connections (snd r) !! sid'
            = ConnectionManager.active_connections m !! sid')
       ∧ ConnectionManager.sent_bytes (snd r) = ConnectionManager.sent_bytes m
       ∧ ConnectionManager.audio_queues (snd r) !! queue
         = Some {| ConnectionManager.pending := rest;
                   ConnectionManager.unfinished :=
                     ConnectionManager.unfinished q |}
       ∧ (∀ d, ConnectionManager.broadcast sid d (snd r) = snd r)).
Proof.
  intros m'.
  assert (∀ m0, ConnectionManager.audio_queues
                  (ConnectionManager.disconnect sid m0)
                = ConnectionManager.audio_queues m0
                ∧ ConnectionManager.sent_bytes
                    (ConnectionManager.disconnect sid m0)
                  = ConnectionManager.sent_bytes m0) as Hsame.
  { intros m0. unfold ConnectionManager.disconnect.
    by destruct (ConnectionManager.active_connections m0 !! sid). }
  assert (∀ m0 d, ConnectionManager.broadcast sid d
                    (ConnectionManager.disconnect sid m0)
                  = ConnectionManager.disconnect sid m0) as Hdrop.
  { intros m0 d. unfold ConnectionManager.broadcast.
    rewrite disconnect_lookup. by rewrite decide_True. }
  split.
  - subst m'. unfold ConnectionManager.consumer_cancelled.
    split; [rewrite disconnect_lookup; by rewrite decide_True|].
    split.
    { intros sid' Hne. rewrite disconnect_lookup.
      by rewrite decide_False by done. }
    split; [apply Hsame|]. split; [apply Hsame|]. intros d. apply Hdrop.
  - intros q data rest Hq Hp r.
    assert (r = (ConnectionManager.Ended,
                 ConnectionManager.disconnect sid
                   (ConnectionManager.with_audio_queues
                      <[queue := {| ConnectionManager.pending := rest;
                                    ConnectionManager.unfinished :=
                                      ConnectionManager.unfinished q |}]> m)))
      as ->.
    { unfold r, ConnectionManager.consumer_step. rewrite Hq. cbn.
      unfold ConnectionManager.get_nowait. rewrite Hp. done. }
    cbn [fst snd].
    set (m1 := ConnectionManager.with_audio_queues _ m).
    split; [done|].
    split; [rewrite disconnect_lookup; by rewrite decide_True|].
    split.
    { intros sid' Hne. rewrite disconnect_lookup.
      by rewrite decide_False by done. }
    split; [by rewrite (proj2 (Hsame m1))|].
    split.
    { rewrite (proj1 (Hsame m1)). unfold m1. cbn.
      by rewrite lookup_insert_eq. }
    intros d. apply Hdrop.
Qed.

(** After the second [connect] for "s1" the first consumer still holds the
    queue 0, with one chunk, and the second waits on the empty queue 1;
    when either of them ends, "s1" is disconnected. *)
Lemma consumer_end_disconnects_witness :
  let r := ConnectionManager.consumer_step (Some RuntimeError) "s1" 0 10
             Reconnect.second in
  let m' := ConnectionManager.consumer_cancelled "s1" Reconnect.second in
  ConnectionManager.audio_queues Reconnect.second !! 0
  = Some {| ConnectionManager.pending := [[Byte.x01]];
            ConnectionManager.unfinished := 1 |}
  ∧ ConnectionManager.audio_queues Reconnect.second !! 1
    = Some {| ConnectionManager.pending := [];
              ConnectionManager.unfinished := 0 |}
  ∧ ConnectionManager.active_connections Reconnect.second !! "s1"
    = Some (11, 1)
  ∧ fst r = ConnectionManager.Ended
  ∧ ConnectionManager.active_connections (snd r) !! "s1" = None
  ∧ ConnectionManager.broadcast "s1" [Byte.x02] (snd r) = snd r
  ∧ ConnectionManager.active_connections m' !! "s1" = None
  ∧ ConnectionManager.broadcast "s1" [Byte.x02] m' = m'.
Proof.
  intros r m'.
  assert (ConnectionManager.audio_queues Reconnect.second !! 0
          = Some {| ConnectionManager.pending := [[Byte.x01]];
                    ConnectionManager.unfinished := 1 |}) as Hq
    by (vm_compute; reflexivity).
  split; [exact Hq|].
  split; [vm_compute; reflexivity|].
  split; [vm_compute; reflexivity|].
  destruct (consumer_end_disconnects "s1" 0 10 RuntimeError Reconnect.second)
    as [(C1 & _ & _ & _ & C5) Hstep].
  destruct (Hstep _ [Byte.x01] [] Hq eq_refl) as (H1 & H2 & _ & _ & _ & H6).
  split; [exact H1|]. split; [exact H2|]. split; [exact (H6 [Byte.x02])|].
  split; [exact C1|exact (C5 [Byte.x02])].
Defined.

(** ** RedisClient *)

Lemma run_op_keeps_client (o : RedisClient.op) (c : RedisClient.t) :
  is_Some (RedisClient.client c) →
  is_Some (RedisClient.client (RedisClient.run_op o c)).
Proof.
  intros [r Hr]. destruct o as [[e|] [e'|]|[e|]]; cbn;
    unfold RedisClient.disconnect; rewrite ?Hr; cbn; eauto.
Qed.

Lemma run_keeps_client (ops : list RedisClient.op) (c : RedisClient.t) :
  is_Some (RedisClient.client c) →
  is_Some (RedisClient.client (RedisClient.run ops c)).
Proof.
  revert c. induction ops as [|o ops IH]; intros c Hc; [done|].
  cbn. apply IH. by apply run_op_keeps_client.
Qed.

(** X14. After any sequence of [connect] and [disconnect] calls on a new
    [RedisClient], [get_client] raises [RuntimeError] exactly when
    [Redis.from_url] has returned in none of them: a [connect] whose ping
    failed, and a [disconnect], leave a client object that [get_client]
    returns. *)
Theorem get_client_raises_iff (ops : list RedisClient.op) :
  RedisClient.get_client (RedisClient.run ops RedisClient.new)
  = Raise RuntimeError
  ↔ forallb (λ o, negb (RedisClient.made_client o)) ops = true.
Proof.
  assert (∀ c, RedisClient.get_client c = Raise RuntimeError
               ↔ RedisClient.client c = None) as Hget.
  { intros [[r|]]; cbn; split; intros; done. }
  rewrite Hget.
  assert (∀ c, RedisClient.client c = None →
               RedisClient.client (RedisClient.run ops c) = None
               ↔ forallb (λ o, negb (RedisClient.made_client o)) ops = true)
    as Hrun; [|by apply Hrun].
  induction ops as [|o ops IH]; intros c Hc; [done|].
  cbn [forallb]. unfold RedisClient.run. cbn [foldl].
  fold (RedisClient.run ops (RedisClient.run_op o c)).
  destruct (RedisClient.made_client o) eqn:Ho; cbn [negb andb].
  - split; [|done]. intros Hn.
    destruct (run_keeps_client ops (RedisClient.run_op o c)) as [r Hr].
    + destruct o as [[e|] p|cl]; [done| |done]. destruct p; cbn; eauto.
    + congruence.
  - apply IH. destruct o as [[e|] p|cl]; [done|done|].
    cbn. unfold RedisClient.disconnect. by rewrite Hc.
Qed.

(** ** DELETE /session/{session_id} *)

Lemma closed_stores_sessions (s : SessionStores) (sid : SessionID) :
  sessions (closed_stores s sid) !! sid = None.
Proof.
  unfold closed_stores. destruct (sessions s !! sid) eqn:Hs; [|done].
  cbn. by rewrite lookup_delete_eq.
Qed.

Lemma service_close_session_spec (o : GeminiLiveClient.CloseOutcomes)
    (sid : SessionID) (s : SessionService.State) :
  let w := SessionService.gemini_client s in
  let key := SessionService.session_key sid in
  let r := GeminiLiveClient.close_session o sid w in
  ∃ b, fst r = Ok b
       ∧ SessionService.close_session o sid s
         = (Ok (b || bool_decide (is_Some (SessionService.redis_client s !! key))),
            {| SessionService.gemini_client := snd r;
               SessionService.redis_client :=
                 delete key (SessionService.redis_client s) |}).
Proof.
  intros w key r.
  destruct (close_session_stores o sid w) as [[b Hb] _]. fold r in Hb.
  exists b. split; [done|].
  unfold SessionService.close_session, SessionService.client. fold w r.
  destruct r as [res w1]. cbn in Hb. subst res. cbn. fold key.
  by destruct (SessionService.redis_client s !! key) eqn:Hk.
Qed.

(** X15. [DELETE /session/{id}]: the answer is "Session terminated." when a
    record was persisted for the id, or when the client knew the session
    and its teardown raised nothing; it is HTTP 404 otherwise, and then
    nothing has changed if the client did not know the session either.
    In every case the id is afterwards neither registered in the client nor
    persisted, so that a second DELETE is answered with HTTP 404. *)
Theorem terminate_session_outcomes (o o' : GeminiLiveClient.CloseOutcomes)
    (sid : SessionID) (s : SessionService.State) :
  let w := SessionService.gemini_client s in
  let key := SessionService.session_key sid in
  let r := Endpoints.terminate_session o sid s in
  let not_found := Raise (HTTPException SessionService.HTTP_404_NOT_FOUND) in
  (is_Some (SessionService.redis_client s !! key) →
   fst r = Ok {| Endpoints.status := "success";
                 Endpoints.message := "Session terminated." |})
  ∧ (SessionService.redis_client s !! key = None →
     is_Some (sessions (stores w) !! sid) →
     fst r = if clean (fst (GeminiLiveClient.teardown o sid w))
             then Ok {| Endpoints.status := "success";
                        Endpoints.message := "Session terminated." |}
             else not_found)
  ∧ (SessionService.redis_client s !! key = None →
     sessions (stores w) !! sid = None →
     r = (not_found, s))
  ∧ sessions (stores (SessionService.gemini_client (snd r))) !! sid = None
  ∧ SessionService.redis_client (snd r) !! key = None
  ∧ fst (Endpoints.terminate_session o' sid (snd r)) = not_found.
Proof.
  intros w key r not_found.
  destruct (service_close_session_spec o sid s) as (b & Hb & Hcl).
  fold w key in Hb, Hcl.
  destruct (close_session_stores o sid w) as [_ Hst].
  assert (snd r = {| SessionService.gemini_client :=
                       snd (GeminiLiveClient.close_session o sid w);
                     SessionService.redis_client :=
                       delete key (SessionService.redis_client s) |}) as Hsnd.
  { unfold r, Endpoints.terminate_session. rewrite Hcl.
    by destruct (negb _). }
  assert (fst r = if b || bool_decide
                             (is_Some (SessionService.redis_client s !! key))
                  then Ok {| Endpoints.status := "success";
                             Endpoints.message := "Session terminated." |}
                  else not_found) as Hfst.
  { unfold r, Endpoints.terminate_session. rewrite Hcl.
    by destruct (_ || _). }
  assert (sessions (stores (SessionService.gemini_client (snd r))) !! sid
          = None) as Hgone.
  { rewrite Hsnd. cbn. rewrite Hst. apply closed_stores_sessions. }
  assert (SessionService.redis_client (snd r) !! key = None) as Hkey.
  { rewrite Hsnd. cbn. by rewrite lookup_delete_eq. }
  split.
  { intros Hp. rewrite Hfst. rewrite bool_decide_true by done.
    by rewrite orb_true_r. }
  split.
  { intros Hn Hs. rewrite Hfst. rewrite bool_decide_false
      by (rewrite Hn; by intros [? ?]).
    rewrite orb_false_r.
    pose proof (close_session_registered o sid w Hs) as Hreg.
    rewrite Hb in Hreg. injection Hreg as ->. done. }
  split.
  { intros Hn Hs. apply injective_projections; cbn [fst snd].
    - rewrite Hfst. rewrite bool_decide_false
        by (rewrite Hn; by intros [? ?]).
      rewrite (close_session_unknown o sid w Hs) in Hb.
      injection Hb as <-. done.
    - rewrite Hsnd. rewrite (close_session_unknown o sid w Hs). cbn.
      rewrite delete_id by done. by destruct s. }
  split; [done|]. split; [done|].
  destruct (service_close_session_spec o' sid (snd r)) as (b' & Hb' & Hcl').
  rewrite (close_session_unknown o' sid _ Hgone) in Hb'.
  injection Hb' as <-.
  unfold Endpoints.terminate_session. rewrite Hcl'.
  fold key. rewrite bool_decide_false by (rewrite Hkey; by intros [? ?]).
  done.
Qed.

Lemma terminate_session_outcomes_witness :
  let r := Endpoints.terminate_session Failing.webrtc_fails "s1"
             ServiceScenario.pending in
  is_Some (SessionService.redis_client ServiceScenario.pending
             !! SessionService.session_key "s1")
  ∧ fst r = Ok {| Endpoints.status := "success";
                  Endpoints.message := "Session terminated." |}
  ∧ fst (Endpoints.terminate_session Scenario.smooth "s1" (snd r))
    = Raise (HTTPException 404).
Proof.
  intros r.
  assert (SessionService.redis_client ServiceScenario.pending
            !! SessionService.session_key "s1"
          = Some (pending_record "You are a helpful assistant")) as Hp
    by (vm_compute; reflexivity).
  pose proof (terminate_session_outcomes Failing.webrtc_fails Scenario.smooth
                "s1" ServiceScenario.pending) as H.
  cbv zeta in H. destruct H as (H1 & _ & _ & _ & _ & H6).
  split; [exact (ex_intro _ _ Hp)|].
  split; [exact (H1 (ex_intro _ _ Hp))|exact H6].
Defined.

(** ** SessionService.create_session: failures *)

Lemma create_without_key (cfg : Config) (oc : GeminiLiveClient.CloseOutcomes)
    (connect : option exn) (sid : SessionID) (a t e : option string)
    (w : World) :
  GEMINI_API_KEY cfg = "" →
  fst (GeminiLiveClient.create_webrtc_session cfg oc connect sid a t e w)
  = Ok None.
Proof.
  intros Hkey.
  destruct (create_after_close cfg oc connect sid a t e w)
    as (w1 & _ & _ & ->).
  unfold try_except.
  assert (GeminiLiveClient.open_and_register cfg connect sid a t e w1
          = (Raise ValueError, w1)) as ->.
  { unfold GeminiLiveClient.open_and_register, GeminiLiveClient._get_client.
    by rewrite decide_True by done. }
  simpl. unfold GeminiLiveClient._handle_error,
    GeminiLiveClient._call_callback. run_M.
  by destruct (option_bind _ _ _ _).
Qed.

(** X16. A [create_session] that cannot initialise the client persists
    nothing: without an API key it raises HTTP 500; when opening the
    dialogue connection raises [ValueError], [RuntimeError] or [KeyError]
    it raises HTTP 500 as well, and any other exception of the connection
    reaches the caller as it is; in each case Redis is as before. *)
Theorem create_session_failure_persists_nothing (cfg : Config)
    (oc : GeminiLiveClient.CloseOutcomes) (connect : option exn)
    (offer : result string) (sid : SessionID) (instruction : string)
    (s : SessionService.State) :
  GEMINI_API_KEY cfg = "" ∨ is_Some connect →
  let r := SessionService.create_session cfg oc connect offer sid
             instruction s in
  SessionService.redis_client (snd r) = SessionService.redis_client s
  ∧ (GEMINI_API_KEY cfg = "" →
     fst r = Raise (HTTPException SessionService.HTTP_500_INTERNAL_SERVER_ERROR))
  ∧ (∀ e, GEMINI_API_KEY cfg ≠ "" → connect = Some e →
          fst r = Raise (if is_ValueError_RuntimeError_KeyError e
                         then HTTPException
                                SessionService.HTTP_500_INTERNAL_SERVER_ERROR
                         else e)).
Proof.
  intros Hfail r.
  assert (GEMINI_API_KEY cfg ≠ "" → ∀ e, connect = Some e →
          fst (GeminiLiveClient.create_webrtc_session cfg oc connect sid
                 (Some "on_audio_received") None (Some "on_error_callback")
                 (SessionService.gemini_client s))
          = if is_ValueError_RuntimeError_KeyError e then Ok None
            else Raise e) as Hopen.
  { intros Hkey e ->.
    by destruct (create_failed_open cfg oc e sid (Some "on_audio_received")
                   None (Some "on_error_callback")
                   (SessionService.gemini_client s) Hkey) as [? _]. }
  pose proof (create_without_key cfg oc connect sid (Some "on_audio_received")
                None (Some "on_error_callback")
                (SessionService.gemini_client s)) as Hnokey.
  unfold r, SessionService.create_session, SessionService.client.
  destruct (GeminiLiveClient.create_webrtc_session cfg oc connect sid
              (Some "on_audio_received") None (Some "on_error_callback")
              (SessionService.gemini_client s)) as [res w1].
  cbn [fst] in Hopen, Hnokey.
  destruct (decide (GEMINI_API_KEY cfg = "")) as [Hkey|Hkey].
  - rewrite (Hnokey Hkey). cbn. split; [done|]. split; [done|].
    intros e Hne. done.
  - destruct Hfail as [?|[e He]]; [done|].
    rewrite (Hopen Hkey e He).
    destruct (is_ValueError_RuntimeError_KeyError e) eqn:Hcls; cbn.
    + split; [done|]. split; [done|]. intros e' _ He'.
      assert (e' = e) as -> by congruence. by rewrite Hcls.
    + split; [done|]. split; [done|]. intros e' _ He'.
      assert (e' = e) as -> by congruence. by rewrite Hcls.
Qed.

Lemma create_session_failure_persists_nothing_witness :
  let r := SessionService.create_session Scenario.cfg Scenario.smooth
             (Some RuntimeError) (Ok "v=0 offer") "s2" "instruction"
             ServiceScenario.pending in
  fst r = Raise (HTTPException 500)
  ∧ SessionService.redis_client (snd r)
    = SessionService.redis_client ServiceScenario.pending.
Proof.
  intros r.
  assert (GEMINI_API_KEY Scenario.cfg ≠ "") as Hkey by discriminate.
  pose proof (create_session_failure_persists_nothing Scenario.cfg
                Scenario.smooth (Some RuntimeError) (Ok "v=0 offer") "s2"
                "instruction" ServiceScenario.pending
                (or_intror (ex_intro _ RuntimeError eq_refl))) as H.
  cbv zeta in H. destruct H as (H1 & _ & H3).
  split; [exact (H3 RuntimeError Hkey eq_refl)|exact H1].
Defined.

(** X17. When [create_offer] raises, [create_session] raises the same
    exception and rolls nothing back: the session stays registered in the
    client with its WebRTC manager, which has made no offer, and the
    record persisted as "pending" stays in Redis until it expires. *)
Theorem create_session_offer_failure (cfg : Config)
    (oc : GeminiLiveClient.CloseOutcomes) (e : exn) (sid : SessionID)
    (instruction : string) (s : SessionService.State) :
  GEMINI_API_KEY cfg ≠ "" →
  let r := SessionService.create_session cfg oc None (Raise e) sid
             instruction s in
  let w := SessionService.gemini_client (snd r) in
  fst r = Raise e
  ∧ SessionService.redis_client (snd r) !! SessionService.session_key sid
    = Some (pending_record instruction)
  ∧ SessionService.persisted_status sid (snd r) = Some "pending"
  ∧ is_Some (sessions (stores w) !! sid)
  ∧ ∃ mgr, webrtc_managers (stores w) !! sid = Some mgr
           ∧ rtcs w !! mgr
             = Some {| rtc_session_id := sid; rtc_has_offer := false;
                       rtc_has_answer := false; rtc_closed := false |}.
Proof.
  intros Hkey r w.
  destruct (create_returns_manager cfg oc sid (Some "on_audio_received")
              None (Some "on_error_callback")
              (SessionService.gemini_client s) Hkey)
    as (mgr & H1 & Hmgr & Hrtc & Hses).
  assert (r = (Raise e,
               {| SessionService.gemini_client :=
                    snd (GeminiLiveClient.create_webrtc_session cfg oc None
                           sid (Some "on_audio_received") None
                           (Some "on_error_callback")
                           (SessionService.gemini_client s));
                  SessionService.redis_client :=
                    <[SessionService.session_key sid :=
                        pending_record instruction]>
                      (SessionService.redis_client s) |})) as Hr.
  { unfold r, SessionService.create_session, SessionService.client,
      SessionService.create_offer.
    destruct (GeminiLiveClient.create_webrtc_session cfg oc None sid
                (Some "on_audio_received") None (Some "on_error_callback")
                (SessionService.gemini_client s)) as [res w1].
    simpl in *. subst res. done. }
  subst w. rewrite Hr. cbn [fst snd SessionService.gemini_client
                             SessionService.redis_client].
  split; [done|].
  split; [by rewrite lookup_insert_eq|].
  split.
  { unfold SessionService.persisted_status.
    cbn [SessionService.redis_client]. rewrite lookup_insert_eq. cbn.
    rewrite lookup_insert_ne by done. by rewrite lookup_insert_eq. }
  split; [done|]. by exists mgr.
Qed.

Lemma create_session_offer_failure_witness :
  let r := SessionService.create_session Scenario.cfg Scenario.smooth None
             (Raise (OtherException "InvalidStateError")) "s1" "instruction"
             ServiceScenario.start in
  GEMINI_API_KEY Scenario.cfg ≠ ""
  ∧ fst r = Raise (OtherException "InvalidStateError")
  ∧ SessionService.persisted_status "s1" (snd r) = Some "pending"
  ∧ GeminiLiveClient.get_active_sessions
      (SessionService.gemini_client (snd r)) = ["s1"].
Proof.
  intros r.
  assert (GEMINI_API_KEY Scenario.cfg ≠ "") as Hkey by discriminate.
  pose proof (create_session_offer_failure Scenario.cfg Scenario.smooth
                (OtherException "InvalidStateError") "s1" "instruction"
                ServiceScenario.start Hkey) as H.
  cbv zeta in H. destruct H as (H1 & _ & H3 & _).
  split; [exact Hkey|]. split; [exact H1|]. split; [exact H3|].
  vm_compute. reflexivity.
Defined.

(** ** Frames arriving at a full queue *)

(** X18. A video frame that arrives while the media queue of its session
    is full is dropped and counted, whatever the audio queue holds: no
    queue changes, [images_skipped] goes up by one and the other counters
    stay.  An audio frame that arrives while the audio queue is full is
    dropped without a trace, whatever the media queue holds: the process is
    as before. *)
Theorem frame_on_full_queue (w : World) (sid : SessionID)
    (frame_data audio_data : bytes) :
  let rv := GeminiLiveClient.handle_video_frame sid frame_data w in
  let ra := GeminiLiveClient.handle_audio_frame sid audio_data w in
  (∀ mq qm sr,
     media_send_queues (stores w) !! sid = Some mq →
     queues w !! mq = Some qm →
     Queue.full qm = true →
     session_stats (stores w) !! sid = Some sr →
     is_Some (stats_objs w !! sr) →
     fst rv = Ok tt
     ∧ queues (snd rv) = queues w
     ∧ stores (snd rv) = stores w
     ∧ (∀ key, counter sr key (snd rv)
               = (counter sr key w
                  + if bool_decide ("images_skipped" = key) then 1 else 0)%Z))
  ∧ (∀ aq qa,
       audio_send_queues (stores w) !! sid = Some aq →
       queues w !! aq = Some qa →
       Queue.full qa = true →
       ra = (Ok tt, w)).
Proof.
  intros rv ra. split.
  - intros mq qm sr Hmq Hqm Hfm Hst Hso.
    assert (rv = (Ok tt, bump_stat sr "images_skipped" w)) as ->.
    { unfold rv, GeminiLiveClient.handle_video_frame. run_M.
      pose proof (queue_image_call sid mq (frame_data, "image/jpeg") w qm
                    Hmq Hqm) as Hcall.
      simpl in Hcall. rewrite Hcall, Hfm.
      unfold GeminiLiveClient.get_stats. run_M. simpl. by rewrite Hst. }
    cbn [fst snd].
    split; [done|]. split; [done|]. split; [done|].
    intros key. by apply counter_bump.
  - intros aq qa Haq Hqa Hfa.
    unfold ra, GeminiLiveClient.handle_audio_frame. run_M.
    rewrite (queue_audio_call sid aq audio_data w qa Haq Hqa).
    by rewrite Hfa.
Qed.

(** The video half on the running session after one video frame, its
    audio queue empty; the audio half after fifty audio chunks, the media
    queue empty. *)
Lemma frame_on_full_queue_witness :
  let wv := snd (GeminiLiveClient.handle_video_frame "s1" Scenario.frame1
                   Scenario.running) in
  let wa := snd (run_calls (GeminiLiveClient.queue_audio "s1")
                   (repeat Scenario.frame1 50) Scenario.running) in
  let rv := GeminiLiveClient.handle_video_frame "s1" Scenario.frame2 wv in
  (Queue.full <$> queues wv !! 1 = Some false
   ∧ Queue.full <$> queues wv !! 2 = Some true
   ∧ counter 3 "images_skipped" wv = 0%Z
   ∧ counter 3 "images_skipped" (snd rv) = 1%Z
   ∧ counter 3 "images_sent" (snd rv) = 1%Z
   ∧ queues (snd rv) = queues wv)
  ∧ (Queue.full <$> queues wa !! 1 = Some true
     ∧ Queue.full <$> queues wa !! 2 = Some false
     ∧ GeminiLiveClient.handle_audio_frame "s1" Scenario.frame2 wa
       = (Ok tt, wa)).
Proof.
  intros wv wa rv.
  set (qa := {| Queue.items := repeat (audio_item Scenario.frame1) 50;
                Queue.maxsize := 50; Queue.unfinished_tasks := 50 |}).
  set (qm := {| Queue.items := [image_item (Scenario.frame1, "image/jpeg")];
                Queue.maxsize := 1; Queue.unfinished_tasks := 1 |}).
  assert (queues wa !! 1 = Some qa) as Hqa by (vm_compute; reflexivity).
  assert (queues wv !! 2 = Some qm) as Hqm by (vm_compute; reflexivity).
  assert (is_Some (stats_objs wv !! 3)) as Hso
    by (apply (bool_decide_unpack _); vm_compute; reflexivity).
  destruct (frame_on_full_queue wv "s1" Scenario.frame2 Scenario.frame2)
    as [Hv _].
  destruct (frame_on_full_queue wa "s1" Scenario.frame2 Scenario.frame2)
    as [_ Ha].
  destruct (Hv 2 qm 3) as (_ & H2 & _ & H4);
    [vm_compute; reflexivity|exact Hqm|vm_compute; reflexivity
    |vm_compute; reflexivity|exact Hso|].
  split.
  - split; [vm_compute; reflexivity|]. split; [vm_compute; reflexivity|].
    split; [vm_compute; reflexivity|].
    split; [etrans; [exact (H4 "images_skipped")|vm_compute; reflexivity]|].
    split; [etrans; [exact (H4 "images_sent")|vm_compute; reflexivity]|].
    exact H2.
  - split; [vm_compute; reflexivity|]. split; [vm_compute; reflexivity|].
    apply (Ha 1 qa); [vm_compute; reflexivity|exact Hqa|vm_compute; reflexivity].
Defined.

(** ** POST /session/{session_id}/answer after DELETE *)

(** X19. Once [DELETE /session/{id}] has been handled, whatever it
    answered, [POST /session/{id}/answer] is answered with HTTP 404
    without the answer being given to a WebRTC manager: the state is left
    as it is. *)
Theorem answer_after_terminate (o : GeminiLiveClient.CloseOutcomes)
    (outcome : option exn) (sid : SessionID) (s : SessionService.State) :
  let s1 := snd (Endpoints.terminate_session o sid s) in
  Endpoints.receive_webrtc_answer outcome sid s1
  = (Raise (HTTPException SessionService.HTTP_404_NOT_FOUND), s1).
Proof.
  intros s1.
  destruct (service_close_session_spec o sid s) as (b & _ & Hcl).
  assert (SessionService.redis_client s1 !! SessionService.session_key sid
          = None) as Hkey.
  { unfold s1, Endpoints.terminate_session. rewrite Hcl.
    destruct (negb _); cbn; by rewrite lookup_delete_eq. }
  unfold Endpoints.receive_webrtc_answer, SessionService.set_webrtc_answer.
  by rewrite Hkey.
Qed.
